(** * JCL analysis and extraction engine: preprocessor, step assembler, persistence

    A shallow embedding of [larkJCL_DB.py].  Python strings are modelled as
    [string] (sequences of 8-bit characters; decks are ASCII card images),
    Python dictionaries as insertion-ordered association lists, and the
    mutable state of the three classes as explicit records threaded through
    the functions. *)

From Stdlib Require Import String Ascii List Arith Lia Bool Sorted Permutation.
From Stdlib Require Import DecimalString.
Import ListNotations.
Open Scope list_scope.
Open Scope string_scope.

(* ================================================================== *)
(** ** Python string primitives *)
(* ================================================================== *)

Module Py.

(** [str.isspace] on one character (code points below 256). *)
Definition isspace (c : ascii) : bool :=
  let n := nat_of_ascii c in
  (((9 <=? n) && (n <=? 13)) || ((28 <=? n) && (n <=? 32))
   || (n =? 133) || (n =? 160))%nat.

(** [str.upper] / [str.lower] on one ASCII character. *)
Definition upper_char (c : ascii) : ascii :=
  let n := nat_of_ascii c in
  if ((97 <=? n) && (n <=? 122))%nat then ascii_of_nat (n - 32) else c.

Definition lower_char (c : ascii) : ascii :=
  let n := nat_of_ascii c in
  if ((65 <=? n) && (n <=? 90))%nat then ascii_of_nat (n + 32) else c.

Fixpoint upper (s : string) : string :=
  match s with
  | EmptyString => EmptyString
  | String c s' => String (upper_char c) (upper s')
  end.

(** [s.startswith(p)] *)
Definition startswith (s p : string) : bool := String.prefix p s.

(** [s[:n]] and [s[n:]] *)
Fixpoint take (n : nat) (s : string) : string :=
  match n, s with
  | S k, String c s' => String c (take k s')
  | _, _ => EmptyString
  end.

Fixpoint drop (n : nat) (s : string) : string :=
  match n, s with
  | S k, String _ s' => drop k s'
  | _, _ => s
  end.

(** [s.find(sub)]: index of the leftmost occurrence. *)
Fixpoint find (sub s : string) : option nat :=
  if String.prefix sub s then Some 0
  else match s with
       | EmptyString => None
       | String _ s' => option_map S (find sub s')
       end.

(** [sub in s] *)
Definition contains (sub s : string) : bool :=
  match find sub s with Some _ => true | None => false end.

(** [s.replace(old, new)]: every non-overlapping occurrence, scanning from
    the left.  [skip] counts the characters of a matched occurrence that are
    still to be passed over. *)
Fixpoint replace_from (old new s : string) (skip : nat) : string :=
  match s with
  | EmptyString => EmptyString
  | String c s' =>
      match skip with
      | S k => replace_from old new s' k
      | O =>
          if String.prefix old s
          then new ++ replace_from old new s' (String.length old - 1)
          else String c (replace_from old new s' 0)
      end
  end.

(** With an empty [old] Python inserts [new] before every character and at
    the end. *)
Fixpoint interleave (new s : string) : string :=
  match s with
  | EmptyString => new
  | String c s' => new ++ String c (interleave new s')
  end.

Definition replace (old new s : string) : string :=
  match old with
  | EmptyString => interleave new s
  | _ => replace_from old new s 0
  end.

(** [s.endswith(",")] and friends, for a one-character suffix. *)
Fixpoint last_char (s : string) : option ascii :=
  match s with
  | EmptyString => None
  | String c EmptyString => Some c
  | String _ s' => last_char s'
  end.

Definition endswith_char (s : string) (c : ascii) : bool :=
  match last_char s with
  | Some d => Ascii.eqb c d
  | None => false
  end.

(** [s.lstrip(chars)], [s.rstrip(chars)], [s.strip(chars)] with the set of
    characters given as a predicate; [None] as argument is [isspace]. *)
Fixpoint lstrip_by (p : ascii -> bool) (s : string) : string :=
  match s with
  | EmptyString => EmptyString
  | String c s' => if p c then lstrip_by p s' else s
  end.

Fixpoint rstrip_by (p : ascii -> bool) (s : string) : string :=
  match s with
  | EmptyString => EmptyString
  | String c s' =>
      match rstrip_by p s' with
      | EmptyString => if p c then EmptyString else String c EmptyString
      | r => String c r
      end
  end.

Definition strip_by (p : ascii -> bool) (s : string) : string :=
  rstrip_by p (lstrip_by p s).

Definition lstrip := lstrip_by isspace.
Definition rstrip := rstrip_by isspace.
Definition strip := strip_by isspace.

Definition is_char (c : ascii) : ascii -> bool := Ascii.eqb c.

(** [sep.join(parts)] *)
Fixpoint join (sep : string) (parts : list string) : string :=
  match parts with
  | [] => EmptyString
  | [p] => p
  | p :: ps => p ++ sep ++ join sep ps
  end.

(** [s.split(sep, 1)] for a non-empty [sep]: one element when [sep] does not
    occur, else the text before and after its leftmost occurrence. *)
Definition split_once (sep s : string) : list string :=
  match find sep s with
  | None => [s]
  | Some i => [take i s; drop (i + String.length sep) s]
  end.

(** [s.split(c)] for a one-character separator. *)
Fixpoint split_char (c : ascii) (s : string) : list string :=
  match s with
  | EmptyString => [EmptyString]
  | String d s' =>
      if Ascii.eqb c d then EmptyString :: split_char c s'
      else match split_char c s' with
           | w :: ws => String d w :: ws
           | [] => [String d EmptyString]
           end
  end.

(** One word for [s.split(None, k)]: the maximal run of non-space
    characters at the head of [s], and what follows it. *)
Fixpoint span_word (s : string) : string * string :=
  match s with
  | EmptyString => (EmptyString, EmptyString)
  | String c s' =>
      if isspace c then (EmptyString, s)
      else let (w, r) := span_word s' in (String c w, r)
  end.

(** [s.split(None, 2)]: at most two splits at runs of white space; the third
    part is the remainder with its leading white space removed (trailing
    white space is kept). *)
Definition split_ws2 (s : string) : list string :=
  match lstrip s with
  | EmptyString => []
  | s1 =>
      let (w1, r1) := span_word s1 in
      match lstrip r1 with
      | EmptyString => [w1]
      | s2 =>
          let (w2, r2) := span_word s2 in
          match lstrip r2 with
          | EmptyString => [w1; w2]
          | s3 => [w1; w2; s3]
          end
      end
  end.

End Py.

(* ================================================================== *)
(** ** Python dictionaries with string keys *)
(* ================================================================== *)

Module Dict.

Section WithValue.
Context {V : Type}.

(** Insertion-ordered, as Python's [dict]. *)
Definition t := list (string * V).

Fixpoint get (d : t) (k : string) : option V :=
  match d with
  | [] => None
  | (k', v) :: d' => if String.eqb k k' then Some v else get d' k
  end.

Definition mem (d : t) (k : string) : bool :=
  match get d k with Some _ => true | None => false end.

(** [d[k] = v]: an existing key keeps its position. *)
Fixpoint set (d : t) (k : string) (v : V) : t :=
  match d with
  | [] => [(k, v)]
  | (k', v') :: d' =>
      if String.eqb k k' then (k', v) :: d' else (k', v') :: set d' k v
  end.

(** [d.update(e)] *)
Definition update (d e : t) : t :=
  fold_left (fun acc kv => set acc (fst kv) (snd kv)) e d.

Definition keys (d : t) : list string := map fst d.

End WithValue.
Arguments t : clear implicits.

End Dict.

(* ================================================================== *)
(** ** Symbol substitution ([JCLPreprocessor.apply_symbolics]) *)
(* ================================================================== *)

Module Sym.

(** [sorted(names, key=len, reverse=True)]: stable, so names of equal
    length keep their dictionary order. *)
Fixpoint insert_desc (x : string) (l : list string) : list string :=
  match l with
  | [] => [x]
  | y :: l' =>
      if (String.length x <? String.length y)%nat then y :: insert_desc x l'
      else x :: y :: l'
  end.

Definition sorted_by_len_desc (l : list string) : list string :=
  fold_right insert_desc [] l.

(** The three replacements made for one symbol. *)
Definition subst_one (sym val stmt : string) : string :=
  Py.replace ("&" ++ sym) val
    (Py.replace ("&" ++ sym ++ ".") val
       (Py.replace ("&" ++ sym ++ "..") (val ++ ".") stmt)).

Definition value_of (tbl : Dict.t string) (sym : string) : string :=
  match Dict.get tbl sym with Some v => v | None => EmptyString end.

Definition apply_symbolics (tbl : Dict.t string) (stmt : string) : string :=
  fold_left (fun s sym => subst_one sym (value_of tbl sym) s)
            (sorted_by_len_desc (Dict.keys tbl)) stmt.

End Sym.


(* ================================================================== *)
(** ** Regular expressions of the [re] module, as far as the program uses them *)
(* ================================================================== *)

Module Re.

(** Abstract syntax of the patterns.  Repetition is only ever applied to a
    single character class in this program, which keeps the matcher
    structurally recursive. *)
Inductive regex : Type :=
| Eps
| Chr (p : ascii -> bool)
| Seq (r1 r2 : regex)
| Alt (r1 r2 : regex)
| Opt (r : regex)
| Rep (p : ascii -> bool) (lo : nat) (hi : option nat) (greedy : bool)
| Grp (i : nat) (r : regex)
| Eos.

Definition captures := list (nat * string).

Section Matcher.
Context {R : Type}.

(** [p{lo,hi}], greedy: as many characters as possible first. *)
Fixpoint rep_greedy (p : ascii -> bool) (lo : nat) (hi : option nat)
         (s : string) (k : string -> option R) : option R :=
  let stop := match lo with O => k s | S _ => None end in
  match hi with
  | Some O => stop
  | _ =>
      match s with
      | String c s' =>
          if p c then
            match rep_greedy p (Nat.pred lo) (option_map Nat.pred hi) s' k with
            | Some x => Some x
            | None => stop
            end
          else stop
      | EmptyString => stop
      end
  end.

(** [p{lo,hi}?], lazy: as few characters as possible first. *)
Fixpoint rep_lazy (p : ascii -> bool) (lo : nat) (hi : option nat)
         (s : string) (k : string -> option R) : option R :=
  let more (_ : unit) :=
    match hi with
    | Some O => None
    | _ =>
        match s with
        | String c s' =>
            if p c then rep_lazy p (Nat.pred lo) (option_map Nat.pred hi) s' k
            else None
        | EmptyString => None
        end
    end in
  match lo with
  | O => match k s with Some x => Some x | None => more tt end
  | S _ => more tt
  end.

(** Backtracking matcher in continuation-passing style: [k] receives the
    rest of the subject and the groups captured so far; alternatives are
    tried in the order the pattern lists them. *)
Fixpoint exec (r : regex) (s : string) (caps : captures)
         (k : string -> captures -> option R) : option R :=
  match r with
  | Eps => k s caps
  | Chr p =>
      match s with
      | String c s' => if p c then k s' caps else None
      | EmptyString => None
      end
  | Seq r1 r2 => exec r1 s caps (fun s1 c1 => exec r2 s1 c1 k)
  | Alt r1 r2 =>
      match exec r1 s caps k with
      | Some x => Some x
      | None => exec r2 s caps k
      end
  | Opt r1 =>
      match exec r1 s caps k with
      | Some x => Some x
      | None => k s caps
      end
  | Rep p lo hi greedy =>
      (if greedy then rep_greedy else rep_lazy) p lo hi s (fun s1 => k s1 caps)
  | Grp i r1 =>
      exec r1 s caps
        (fun s1 c1 =>
           k s1 ((i, Py.take (String.length s - String.length s1) s) :: c1))
  | Eos =>
      (* [$]: at the end, or just before a final newline *)
      match s with
      | EmptyString => k s caps
      | String c EmptyString =>
          if Ascii.eqb c "010"%char then k s caps else None
      | _ => None
      end
  end.

End Matcher.

Record match_obj : Type := mk_match {
  m_start : nat;
  m_end : nat;
  m_groups : captures
}.

Definition match_here (r : regex) (s : string) : option (string * captures) :=
  exec r s [] (fun s1 c1 => Some (s1, c1)).

(** [re.search]: the match at the leftmost position where one exists. *)
Fixpoint search_from (r : regex) (s : string) (pos : nat) : option match_obj :=
  match match_here r s with
  | Some (s1, c1) =>
      Some (mk_match pos (pos + (String.length s - String.length s1)) c1)
  | None =>
      match s with
      | EmptyString => None
      | String _ s' => search_from r s' (S pos)
      end
  end.

Definition search (r : regex) (s : string) : option match_obj :=
  search_from r s 0.

(** [m.group(i)]; [None] when the group did not take part in the match. *)
Fixpoint lookup (c : captures) (i : nat) : option string :=
  match c with
  | [] => None
  | (j, t) :: c' => if Nat.eqb i j then Some t else lookup c' i
  end.

Definition group (m : match_obj) (i : nat) : option string :=
  lookup (m_groups m) i.

(** Literal text; with [re.IGNORECASE] letters match in either case. *)
Definition chr_ci (c : ascii) : ascii -> bool :=
  fun d => Ascii.eqb (Py.upper_char c) (Py.upper_char d).

Fixpoint lit_ci (s : string) : regex :=
  match s with
  | EmptyString => Eps
  | String c EmptyString => Chr (chr_ci c)
  | String c s' => Seq (Chr (chr_ci c)) (lit_ci s')
  end.

Fixpoint lit (s : string) : regex :=
  match s with
  | EmptyString => Eps
  | String c EmptyString => Chr (Ascii.eqb c)
  | String c s' => Seq (Chr (Ascii.eqb c)) (lit s')
  end.

Fixpoint seq (rs : list regex) : regex :=
  match rs with
  | [] => Eps
  | [r] => r
  | r :: rs' => Seq r (seq rs')
  end.

Fixpoint alt (rs : list regex) : regex :=
  match rs with
  | [] => Eps
  | [r] => r
  | r :: rs' => Alt r (alt rs')
  end.

(** Character classes, read under [re.IGNORECASE]. *)
Definition is_letter_ci (c : ascii) : bool :=
  let n := nat_of_ascii (Py.upper_char c) in ((65 <=? n) && (n <=? 90))%nat.

Definition is_digit (c : ascii) : bool :=
  let n := nat_of_ascii c in ((48 <=? n) && (n <=? 57))%nat.

Definition is_national (c : ascii) : bool :=
  Ascii.eqb c "$" || Ascii.eqb c "#" || Ascii.eqb c "@".

(** [[A-Z$#@]] *)
Definition cls_first (c : ascii) : bool := is_letter_ci c || is_national c.
(** [[A-Z0-9$#@]] *)
Definition cls_name (c : ascii) : bool :=
  is_letter_ci c || is_digit c || is_national c.
(** [\s] *)
Definition cls_space : ascii -> bool := Py.isspace.
(** [.] *)
Definition cls_dot (c : ascii) : bool := negb (Ascii.eqb c "010"%char).
(** [[^\s,]], also written [[^,\s]] *)
Definition cls_not_space_comma (c : ascii) : bool :=
  negb (Py.isspace c || Ascii.eqb c ",").
(** [[,\s]] *)
Definition cls_space_comma (c : ascii) : bool :=
  Py.isspace c || Ascii.eqb c ",".

(** [[A-Z$#@][A-Z0-9$#@]{0,7}] *)
Definition jcl_name : regex := Seq (Chr cls_first) (Rep cls_name 0 (Some 7) true).
(** [\s+], [\s*] *)
Definition spaces1 : regex := Rep cls_space 1 None true.
Definition spaces0 : regex := Rep cls_space 0 None true.
(** [(\s+|$)] as group [i] *)
Definition space_or_end (i : nat) : regex := Grp i (Alt spaces1 Eos).

End Re.

(* ================================================================== *)
(** ** The preprocessor ([class JCLPreprocessor]) *)
(* ================================================================== *)

Module Pre.

Import Re.

(** *** Patterns compiled in [__init__] and used inline (all with
    [re.IGNORECASE] unless noted) *)

(** [//([A-Z$#@][A-Z0-9$#@]{0,7})?\s+(JOB|CNTL|...|SET)(\s+|$)] *)
Definition re_job_admin : regex :=
  seq [lit "//"; Opt (Grp 1 jcl_name); spaces1;
       Grp 2 (alt (map lit_ci ["JOB"; "CNTL"; "ENDCNTL"; "EXPORT"; "NOTIFY";
                               "OUTPUT"; "SCHEDULE"; "JCLLIB"; "SET"]));
       space_or_end 3].

(** [//([A-Z$#@][A-Z0-9$#@]{0,7})?\s*(IF|THEN|ELSE|ENDIF)(\s+|$)] *)
Definition re_cond : regex :=
  seq [lit "//"; Opt (Grp 1 jcl_name); spaces0;
       Grp 2 (alt (map lit_ci ["IF"; "THEN"; "ELSE"; "ENDIF"]));
       space_or_end 3].

(** [//([A-Z$#@][A-Z0-9$#@]{0,7})\s+PROC(\s+|$)] *)
Definition re_proc_start : regex :=
  seq [lit "//"; Grp 1 jcl_name; spaces1; lit_ci "PROC"; space_or_end 2].

(** [//\s+PEND(\s+|$)] *)
Definition re_pend : regex :=
  seq [lit "//"; spaces1; lit_ci "PEND"; space_or_end 1].

(** [//\s+INCLUDE\s+MEMBER=([A-Z$#@][A-Z0-9$#@]{0,7})] *)
Definition re_include : regex :=
  seq [lit "//"; spaces1; lit_ci "INCLUDE"; spaces1; lit_ci "MEMBER=";
       Grp 1 jcl_name].

(** [//([A-Z$#@][A-Z0-9$#@]{0,7})?\s+EXEC\s+(PGM=|PROC=)?([A-Z$#@][A-Z0-9$#@]{0,7})] *)
Definition re_exec : regex :=
  seq [lit "//"; Opt (Grp 1 jcl_name); spaces1; lit_ci "EXEC"; spaces1;
       Opt (Grp 2 (Alt (lit_ci "PGM=") (lit_ci "PROC="))); Grp 3 jcl_name].

(** [//([A-Z$#@][A-Z0-9$#@]{0,7})?\s+DD\s+(\*|DATA)] *)
Definition re_dd_instream : regex :=
  seq [lit "//"; Opt (Grp 1 jcl_name); spaces1; lit_ci "DD"; spaces1;
       Grp 2 (Alt (lit "*") (lit_ci "DATA"))].

(** [DLM=([^\s,]{2})] *)
Definition re_dlm : regex :=
  seq [lit_ci "DLM="; Grp 1 (Rep cls_not_space_comma 2 (Some 2) true)].

(** [SET\s+([A-Z0-9$#@]{1,8})=([^,\s]+)] *)
Definition re_set : regex :=
  seq [lit_ci "SET"; spaces1; Grp 1 (Rep cls_name 1 (Some 8) true); lit "=";
       Grp 2 (Rep cls_not_space_comma 1 None true)].

(** [ORDER=\((.*?)\)] *)
Definition re_order : regex :=
  seq [lit_ci "ORDER="; lit "("; Grp 1 (Rep cls_dot 0 None false); lit ")"].

(** [[,\s]] (no flags) *)
Definition re_comma_or_space : regex := Chr cls_space_comma.

(** *** Configuration and the file system *)

Record Config : Type := mk_config {
  system_type : string;            (* SYSTEM, default "LWM" *)
  cfg_ext : string;                (* EXT, empty when absent *)
  cfg_path : option string;        (* PATH *)
  cfg_lib : list string            (* LIB *)
}.

(** What the program asks of the operating system: [os.path.exists], and
    the lines of a member as [readlines] returns them ([None] when opening
    or reading raises).  [expand_procedure] opens members with the default
    decoding, [preprocess_file] with UTF-8 and [errors='ignore']. *)
Record FileSystem : Type := mk_fs {
  path_exists : string -> bool;
  read_default : string -> option (list string);
  read_utf8 : string -> option (list string)
}.

(** *** Instance state *)

(** Symbol tables are dictionary objects; [symbol_table] holds a reference
    into [heap], so that rebinding the attribute and mutating the object it
    refers to stay distinct. *)
Record State : Type := mk_state {
  heap : list (Dict.t string);
  symbol_table : nat;
  procedure_map : Dict.t (string * list string);
  lib_paths : list string
}.

Definition truthy (s : string) : bool :=
  match s with EmptyString => false | _ => true end.

Definition init (cfg : Config) : State :=
  {| heap := [[]];
     symbol_table := 0;
     procedure_map := [];
     lib_paths :=
       (match cfg_path cfg with
        | Some p => if truthy p then [p] else []
        | None => []
        end ++ cfg_lib cfg)%list |}.

Definition deref (st : State) (r : nat) : Dict.t string :=
  nth r (heap st) [].

Fixpoint list_set {A : Type} (l : list A) (i : nat) (x : A) : list A :=
  match l, i with
  | [], _ => []
  | _ :: l', O => x :: l'
  | y :: l', S j => y :: list_set l' j x
  end.

Definition store (st : State) (r : nat) (d : Dict.t string) : State :=
  {| heap := list_set (heap st) r d;
     symbol_table := symbol_table st;
     procedure_map := procedure_map st;
     lib_paths := lib_paths st |}.

(** [copy.deepcopy(d)]: a fresh object with the same bindings (the values
    are immutable strings). *)
Definition alloc (st : State) (d : Dict.t string) : State * nat :=
  ({| heap := (heap st ++ [d])%list;
      symbol_table := symbol_table st;
      procedure_map := procedure_map st;
      lib_paths := lib_paths st |}, List.length (heap st)).

Definition set_symbol_table (st : State) (r : nat) : State :=
  {| heap := heap st;
     symbol_table := r;
     procedure_map := procedure_map st;
     lib_paths := lib_paths st |}.

Definition set_procedure_map (st : State) (m : Dict.t (string * list string))
  : State :=
  {| heap := heap st;
     symbol_table := symbol_table st;
     procedure_map := m;
     lib_paths := lib_paths st |}.

Definition set_lib_paths (st : State) (l : list string) : State :=
  {| heap := heap st;
     symbol_table := symbol_table st;
     procedure_map := procedure_map st;
     lib_paths := l |}.

(** *** The monad of the methods that call each other

    Statements run in a state monad with exceptions: an exception leaves
    the instance in the state reached so far, as in Python.  [Diverge]
    stands for a nesting of expansions and inclusions deeper than the
    recursion budget given to [process_line_list]. *)

Inductive outcome (A : Type) : Type :=
| Ok (a : A)
| Raise
| Diverge.
Arguments Ok {A} a.
Arguments Raise {A}.
Arguments Diverge {A}.

Definition M (A : Type) : Type := State -> State * outcome A.

Definition ret {A : Type} (a : A) : M A := fun st => (st, Ok a).

Definition bind {A B : Type} (c : M A) (f : A -> M B) : M B :=
  fun st =>
    match c st with
    | (st', Ok a) => f a st'
    | (st', Raise) => (st', Raise)
    | (st', Diverge) => (st', Diverge)
    end.

Definition raise {A : Type} : M A := fun st => (st, Raise).
Definition diverge {A : Type} : M A := fun st => (st, Diverge).
Definition get : M State := fun st => (st, Ok st).
Definition modify (f : State -> State) : M unit := fun st => (f st, Ok tt).

(** [try: c  except: handler] *)
Definition try_except {A : Type} (c handler : M A) : M A :=
  fun st =>
    match c st with
    | (st', Raise) => handler st'
    | r => r
    end.

Notation "x <- c ;; k" := (bind c (fun x => k))
  (at level 61, c at next level, right associativity).
Notation "c ;;; k" := (bind c (fun _ => k))
  (at level 61, right associativity).

Definition is_some {A : Type} (o : option A) : bool :=
  match o with Some _ => true | None => false end.

Definition or_empty (o : option string) : string :=
  match o with Some s => s | None => EmptyString end.

(** *** Methods without recursion *)

(** [os.path.join(base, filename)] on a POSIX system. *)
Definition path_join (base filename : string) : string :=
  if Py.startswith filename "/" then filename
  else if Py.endswith_char base "/" then base ++ filename
  else base ++ "/" ++ filename.

Section WithEnvironment.
Variable cfg : Config.
Variable fs : FileSystem.

Fixpoint resolve_in (bases : list string) (member_name : string)
  : option string :=
  match bases with
  | [] => None
  | base :: rest =>
      if negb (truthy base) then resolve_in rest member_name
      else if String.eqb (system_type cfg) "Z"
      then Some (base ++ "(" ++ member_name ++ ")")
      else
        let filename :=
          if truthy (cfg_ext cfg) then member_name ++ "." ++ cfg_ext cfg
          else member_name in
        let path := path_join base filename in
        if path_exists fs path then Some path
        else resolve_in rest member_name
  end.

Definition resolve_path (st : State) (member_name : string) : option string :=
  resolve_in (lib_paths st) member_name.

Definition is_nl (c : ascii) : bool := Ascii.eqb c "010"%char.
Definition is_cr (c : ascii) : bool := Ascii.eqb c "013"%char.
Definition is_slash (c : ascii) : bool := Ascii.eqb c "/"%char.
Definition is_quote (c : ascii) : bool := Ascii.eqb c "'"%char.
Definition is_dquote (c : ascii) : bool := Ascii.eqb c "034"%char.

Definition clean_line (line : string) : option string :=
  let line := Py.rstrip_by is_cr (Py.rstrip_by is_nl line) in
  let line := Py.take 72 line in
  if Py.startswith line "//*" || Py.startswith line "/*"
     || String.eqb (Py.strip line) "//"
  then None else Some line.

(** The [for i, char in enumerate(...)] loop of [strip_jcl_comment]: the
    value of [end_idx] when the loop is left, [i] being the index of the
    first character of [s]. *)
Fixpoint scan_operands (s : string) (in_quotes : bool) (i : nat) : nat :=
  match s with
  | EmptyString => i
  | String c s' =>
      if is_quote c then scan_operands s' (negb in_quotes) (S i)
      else if Ascii.eqb c " " && negb in_quotes then i
      else scan_operands s' in_quotes (S i)
  end.

Definition cut_comment (operands_and_comment : string) : string :=
  Py.take (scan_operands operands_and_comment false 0) operands_and_comment.

Definition strip_jcl_comment (line : string) (is_continuation : bool)
  : string :=
  if is_continuation then
    let content := Py.lstrip_by is_slash line in
    let operands_and_comment := Py.lstrip content in
    Py.strip (cut_comment operands_and_comment)
  else
    match Py.split_ws2 line with
    | [p0; p1; operands_and_comment] =>
        let prefix := Py.join " " [p0; p1] in
        let operands := cut_comment operands_and_comment in
        if truthy prefix then Py.strip (prefix ++ " " ++ operands)
        else Py.strip operands
    | _ => Py.rstrip line
    end.

(** The first loop of [parse_params]: split at commas outside quotes. *)
Fixpoint split_params (s : string) (current : string) (in_quotes : bool)
  : list string :=
  match s with
  | EmptyString => [current]
  | String c s' =>
      let in_quotes := if is_quote c then negb in_quotes else in_quotes in
      if Ascii.eqb c "," && negb in_quotes
      then current :: split_params s' EmptyString in_quotes
      else split_params s' (current ++ String c EmptyString) in_quotes
  end.

Definition parse_params (param_string : string) : Dict.t string :=
  if negb (truthy param_string) then []
  else
    fold_left
      (fun params p =>
         if Py.contains "=" p then
           match Py.split_once "=" p with
           | [k; v] =>
               Dict.set params (Py.upper (Py.strip k))
                        (Py.strip_by is_quote (Py.strip v))
           | _ => params
           end
         else params)
      (split_params param_string EmptyString false) [].

Definition apply_symbolics (st : State) (stmt : string) : string :=
  Sym.apply_symbolics (deref st (symbol_table st)) stmt.

(** [self.symbol_table[name] = value] mutates the object referred to. *)
Definition update_symbols (st : State) (stmt : string) : State :=
  match search re_set stmt with
  | Some m =>
      match group m 1, group m 2 with
      | Some name, Some value =>
          store st (symbol_table st)
                (Dict.set (deref st (symbol_table st)) (Py.upper name)
                          (Py.strip_by is_quote value))
      | _, _ => st
      end
  | None => st
  end.

Definition update_lib_paths (st : State) (stmt : string) : State :=
  match search re_order stmt with
  | Some m =>
      match group m 1 with
      | Some inner =>
          let new_paths :=
            map (fun p => Py.strip_by is_dquote (Py.strip_by is_quote (Py.strip p)))
                (Py.split_char "," inner) in
          set_lib_paths st (new_paths ++ lib_paths st)%list
      | None => st
      end
  | None => st
  end.

(** The inner loop of PROC capture: raw cards up to, and without, the PEND
    card; the second component is [lines[idx:]] on leaving the loop. *)
Fixpoint capture_proc_body (lines : list string) : list string * list string :=
  match lines with
  | [] => ([], [])
  | p_line_raw :: rest =>
      let is_pend :=
        match clean_line p_line_raw with
        | Some p_line_cleaned =>
            truthy p_line_cleaned &&
            match search re_pend p_line_cleaned with
            | Some _ => true
            | None => false
            end
        | None => false
        end in
      if is_pend then ([], rest)
      else let (body, rest') := capture_proc_body rest in
           (p_line_raw :: body, rest')
  end.

(** The delimiter of an in-stream DD: ["/*"] unless [DLM=] names another. *)
Definition instream_dlm (stmt : string) : string :=
  match search re_dlm stmt with
  | Some m =>
      match group m 1 with
      | Some g =>
          Py.replace (String "034"%char EmptyString) EmptyString
            (Py.replace "'" EmptyString g)
      | None => "/*"
      end
  | None => "/*"
  end.

Definition is_terminator (dlm p_line_raw : string) : bool :=
  (String.eqb dlm "/*" &&
     (Py.startswith p_line_raw "//" || Py.startswith p_line_raw "/*"))
  || (negb (String.eqb dlm "/*") && Py.startswith p_line_raw dlm).

(** The inner loop of in-stream capture: the PAYLOAD sentinels emitted and
    [lines[idx:]] on leaving the loop. *)
Fixpoint capture_payload (dlm : string) (lines : list string)
  : list string * list string :=
  match lines with
  | [] => ([], [])
  | line :: rest =>
      let p_line_raw := Py.rstrip line in
      if is_terminator dlm p_line_raw then
        if negb (String.eqb dlm "/*") && Py.startswith p_line_raw dlm
        then ([], rest)
        else ([], lines)
      else
        let (payload, rest') := capture_payload dlm rest in
        (("*PAYLOAD* " ++ Py.take 72 p_line_raw) :: payload, rest')
  end.

(** *** Methods that call each other *)

Section Recursive.
(** [self.process_line_list] as seen from the methods it calls back. *)
Variable process_line_list : list string -> M (list string).

Definition load_procedure (st : State) (proc_name : string)
  : option (string * list string) :=
  match Dict.get (procedure_map st) (Py.upper proc_name) with
  | Some proc_data => Some proc_data
  | None =>
      match resolve_path st proc_name with
      | Some path =>
          if truthy path then
            match read_default fs path with
            | Some (header :: body) => Some (header, body)
            | _ => None
            end
          else None
      | None => None
      end
  end.

Definition update_object (r : nat) (e : Dict.t string) : M unit :=
  modify (fun st => store st r (Dict.update (deref st r) e)).

Definition expand_procedure (proc_name exec_stmt outer_label : string)
  : M (list string) :=
  st <- get ;;
  match load_procedure st proc_name with
  | None => ret [exec_stmt]
  | Some (header_stmt, body) =>
      local_symbols <-
        (fun st => let (st', r) := alloc st (deref st (symbol_table st)) in
                   (st', Ok r)) ;;
      (if Py.contains " PROC " (Py.upper header_stmt) then
         match Py.split_once "PROC" (Py.upper header_stmt) with
         | [_; proc_part] => update_object local_symbols (parse_params proc_part)
         | _ => raise
         end
       else ret tt) ;;;
      match Py.split_once "EXEC" exec_stmt with
      | [_; after] =>
          let exec_operands := Py.strip after in
          match search re_comma_or_space exec_operands with
          | Some m =>
              let param_str := Py.strip (Py.drop (m_start m + 1) exec_operands) in
              update_object local_symbols (parse_params param_str)
          | None => ret tt
          end ;;;
          st1 <- get ;;
          let old_symbols := symbol_table st1 in
          modify (fun st => set_symbol_table st local_symbols) ;;;
          expanded <- process_line_list body ;;
          modify (fun st => set_symbol_table st old_symbols) ;;;
          ret (("*PROC_START* label=" ++ outer_label ++ " proc=" ++ proc_name)
                 :: (expanded ++ ["*PROC_END*"])%list)
      | _ => raise
      end
  end.

Definition preprocess_file (file_path : string) : M (list string) :=
  if negb (truthy file_path) then ret []
  else
    try_except
      (match read_utf8 fs file_path with
       | Some lines => process_line_list lines
       | None => raise
       end)
      (ret []).

(** Which procedure an EXEC statement calls, if it is to be expanded:
    its upper-cased name and the label of the EXEC. *)
Definition exec_target (st : State) (stmt : string) : option (string * string) :=
  match search re_exec stmt with
  | Some m =>
      let is_explicit_pgm := Py.contains "PGM=" (Py.upper (or_empty (group m 2))) in
      let name := Py.upper (or_empty (group m 3)) in
      let outer_label := or_empty (group m 1) in
      if negb is_explicit_pgm &&
         (Dict.mem (procedure_map st) name ||
          match resolve_path st name with
          | Some p => truthy p
          | None => false
          end)
      then Some (name, outer_label)
      else None
  | None => None
  end.

(** The [while idx < len(lines)] loop of [process_line_list]; [lines] is
    [lines[idx:]], and [k] bounds the number of iterations left (every
    iteration advances [idx]). *)
Fixpoint line_loop (k : nat) (lines : list string)
         (current_statement : string) (is_continuing : bool)
         (statements : list string) : M (list string) :=
  match k, lines with
  | S k', line_raw :: rest =>
      match clean_line line_raw with
      | None => line_loop k' rest current_statement is_continuing statements
      | Some line =>
          let cleaned_content := strip_jcl_comment line is_continuing in
          let current_statement := current_statement ++ cleaned_content in
          if Py.endswith_char cleaned_content "," then
            line_loop k' rest current_statement true statements
          else
            st <- get ;;
            let stmt := apply_symbolics st current_statement in
            match search re_proc_start stmt with
            | Some proc_match =>
                let proc_name := Py.upper (or_empty (group proc_match 1)) in
                let (proc_body, rest') := capture_proc_body rest in
                modify (fun st =>
                          set_procedure_map st
                            (Dict.set (procedure_map st) proc_name
                                      (stmt, proc_body))) ;;;
                line_loop k' rest' EmptyString false statements
            | None =>
                if Py.contains "JCLLIB " (Py.upper stmt) then
                  modify (fun st => update_lib_paths st stmt) ;;;
                  line_loop k' rest EmptyString false statements
                else if Py.contains " SET " (Py.upper stmt)
                        || Py.startswith stmt "// SET " then
                  modify (fun st => update_symbols st stmt) ;;;
                  line_loop k' rest EmptyString false statements
                else if is_some (search re_job_admin stmt)
                        || is_some (search re_cond stmt) then
                  line_loop k' rest EmptyString false statements
                else
                  match search re_include stmt with
                  | Some include_match =>
                      match resolve_path st
                              (Py.upper (or_empty (group include_match 1))) with
                      | Some path =>
                          if truthy path then
                            included <- preprocess_file path ;;
                            line_loop k' rest EmptyString false
                                      (statements ++ included)%list
                          else line_loop k' rest EmptyString false statements
                      | None => line_loop k' rest EmptyString false statements
                      end
                  | None =>
                      match exec_target st stmt with
                      | Some (name, outer_label) =>
                          expanded <- expand_procedure name stmt outer_label ;;
                          line_loop k' rest EmptyString false
                                    (statements ++ expanded)%list
                      | None =>
                          if is_some (search re_dd_instream stmt) then
                            let dlm := instream_dlm stmt in
                            let (payload, rest') := capture_payload dlm rest in
                            line_loop k' rest' EmptyString false
                                      (statements ++ stmt :: payload)%list
                          else
                            line_loop k' rest EmptyString false
                                      (statements ++ [stmt])%list
                      end
                  end
            end
      end
  | _, _ => ret statements
  end.

End Recursive.

(** [process_line_list] with a budget for the depth of nested expansions
    and inclusions. *)
Fixpoint process_line_list (fuel : nat) (lines : list string)
  : M (list string) :=
  match fuel with
  | O => diverge
  | S n =>
      line_loop (process_line_list n) (List.length lines) lines
                EmptyString false []
  end.

(** The main program's preprocessing of the entry member [FILE]. *)
Definition preprocess_entry (fuel : nat) (file : string)
  : State * outcome (list string) :=
  match resolve_path (init cfg) file with
  | Some path =>
      if truthy path
      then preprocess_file (process_line_list fuel) path (init cfg)
      else (init cfg, Ok [])
  | None => (init cfg, Ok [])
  end.

End WithEnvironment.

End Pre.

(* ================================================================== *)
(** ** The step assembler ([class JCLParserManager]) *)
(* ================================================================== *)

Module Asm.

(** Values stored in the parameter mapping of a card by [JCLTransformer]:
    strings, [True] (DUMMY), lists of strings (DISP) and nested mappings
    (a DCB sublist). *)
Inductive pyval : Type :=
| VStr (s : string)
| VBool (b : bool)
| VList (l : list string)
| VDict (d : Dict.t string).

Definition truthy_val (v : pyval) : bool :=
  match v with
  | VStr s => Pre.truthy s
  | VBool b => b
  | VList l => match l with [] => false | _ => true end
  | VDict d => match d with [] => false | _ => true end
  end.

Definition truthy_opt (o : option pyval) : bool :=
  match o with Some v => truthy_val v | None => false end.

Inductive card_type : Type := EXEC | DD.

(** The dictionary built by [exec_statement], [unnamed_exec],
    [dd_statement] and [unnamed_dd]. *)
Record Card : Type := mk_card {
  c_type : card_type;
  c_label : option string;
  c_params : Dict.t pyval
}.

(** An EXEC card once [process_results] has added the three display names. *)
Record StepInfo : Type := mk_info {
  info_card : Card;
  final_proc_name : option pyval;
  final_step_name : option string;
  final_proc_step_name : option string
}.

(** A DD card; [dd_payload] is [None] while the key ['payload'] is absent. *)
Record DDRec : Type := mk_dd {
  dd_card : Card;
  dd_payload : option (list string)
}.

Record Step : Type := mk_step {
  step_info : StepInfo;
  dds : list DDRec
}.

(** [self.steps] owns the step objects; [self.current_step] refers to one of
    them by its position (every step object is appended to [self.steps] when
    it is created).  [diagnostics] collects the statements reported as
    [Parser Error]. *)
Record Manager : Type := mk_manager {
  steps : list Step;
  current_step : option nat;
  diagnostics : list string
}.

Definition new_manager : Manager :=
  {| steps := []; current_step := None; diagnostics := [] |}.

Record Frame : Type := mk_frame {
  f_label : string;
  f_proc : string
}.

(** The pattern of the PROC_START sentinel, without flags: [label=], a
    group, [ proc=], a group; each group is a greedy run of characters
    other than the newline. *)
Definition re_context : Re.regex :=
  Re.seq [Re.lit "label="; Re.Grp 1 (Re.Rep Re.cls_dot 0 None true);
          Re.lit " proc="; Re.Grp 2 (Re.Rep Re.cls_dot 0 None true)].

Definition context_frame (stmt : string) : option Frame :=
  match Re.search re_context stmt with
  | Some m =>
      match Re.group m 1, Re.group m 2 with
      | Some l, Some p => Some (mk_frame l p)
      | _, _ => None
      end
  | None => None
  end.

Fixpoint update_last {A : Type} (f : A -> A) (l : list A) : list A :=
  match l with
  | [] => []
  | [x] => [f x]
  | x :: l' => x :: update_last f l'
  end.

Fixpoint update_nth {A : Type} (f : A -> A) (i : nat) (l : list A) : list A :=
  match l, i with
  | [], _ => []
  | x :: l', O => f x :: l'
  | x :: l', S j => x :: update_nth f j l'
  end.

Definition append_payload (text : string) (d : DDRec) : DDRec :=
  {| dd_card := dd_card d;
     dd_payload :=
       Some (match dd_payload d with Some p => p | None => [] end ++ [text])%list |}.

Definition append_dd (d : DDRec) (s : Step) : Step :=
  {| step_info := step_info s; dds := (dds s ++ [d])%list |}.

(** The PAYLOAD branch: the text goes to the last DD of the last step. *)
Definition add_payload (m : Manager) (text : string) : Manager :=
  match last (map Some (steps m)) None with
  | Some s =>
      match dds s with
      | [] => m
      | _ =>
          {| steps :=
               update_last
                 (fun s => {| step_info := step_info s;
                              dds := update_last (append_payload text) (dds s) |})
                 (steps m);
             current_step := current_step m;
             diagnostics := diagnostics m |}
      end
  | None => m
  end.

Definition top (proc_stack : list Frame) : option Frame :=
  last (map Some proc_stack) None.

(** The context applied to a parsed EXEC card. *)
Definition apply_context (proc_stack : list Frame) (tree : Card) : StepInfo :=
  match top proc_stack with
  | Some outer =>
      {| info_card := tree;
         final_proc_name := Some (VStr (f_proc outer));
         final_step_name := Some (f_label outer);
         final_proc_step_name := c_label tree |}
  | None =>
      {| info_card := tree;
         final_proc_name := Dict.get (c_params tree) "PROC";
         final_step_name := c_label tree;
         final_proc_step_name := None |}
  end.

Section WithParser.
(** [self.parser.parse] with the transformer applied; [None] when parsing
    raises or the result is not a single card. *)
Variable parse : string -> option Card.

(** One iteration of the loop of [process_results]. *)
Definition process_stmt (acc : list Frame * Manager) (stmt : string)
  : list Frame * Manager :=
  let (proc_stack, m) := acc in
  if Py.startswith stmt "*PROC_START*" then
    match context_frame stmt with
    | Some f => ((proc_stack ++ [f])%list, m)
    | None => (proc_stack, m)
    end
  else if Py.startswith stmt "*PROC_END*" then
    (removelast proc_stack, m)
  else if Py.startswith stmt "*PAYLOAD*" then
    (proc_stack, add_payload m (Py.replace "*PAYLOAD* " EmptyString stmt))
  else
    match parse stmt with
    | Some tree =>
        match c_type tree with
        | EXEC =>
            let new_step :=
              {| step_info := apply_context proc_stack tree; dds := [] |} in
            (proc_stack,
             {| steps := (steps m ++ [new_step])%list;
                current_step := Some (List.length (steps m));
                diagnostics := diagnostics m |})
        | DD =>
            match current_step m with
            | Some i =>
                (proc_stack,
                 {| steps := update_nth (append_dd (mk_dd tree None)) i (steps m);
                    current_step := current_step m;
                    diagnostics := diagnostics m |})
            | None => (proc_stack, m)
            end
        end
    | None =>
        (proc_stack,
         {| steps := steps m;
            current_step := current_step m;
            diagnostics := (diagnostics m ++ [stmt])%list |})
    end.

Definition run (acc : list Frame * Manager) (results_list : list string)
  : list Frame * Manager :=
  fold_left process_stmt results_list acc.

(** [process_results]: the stack is local to the call, the manager is the
    instance. *)
Definition process_results (m : Manager) (results_list : list string)
  : Manager :=
  snd (run ([], m) results_list).

End WithParser.

End Asm.

(* ================================================================== *)
(** ** The member search of [zOS_PDS_Processing.py] *)
(* ================================================================== *)

Module Pds.

(** What the function asks of the host: [os.path.exists], and reading a
    member line by line.  A read yields the lines obtained and, when
    opening or reading raises, the text of the exception. *)
Record Host : Type := mk_host {
  path_exists : string -> bool;
  read_member : string -> list string * option string
}.

(** The data set name of a member, as the f-string builds it. *)
Definition pds_path (pds member_name : string) : string :=
  "//'" ++ pds ++ "(" ++ member_name ++ ")'".

(** The [for pds in pds_libraries] loop: the lines printed and the value
    of [found] when the loop is left. *)
Fixpoint search (h : Host) (member_name : string)
         (pds_libraries : list string) : list string * bool :=
  match pds_libraries with
  | [] => ([], false)
  | pds :: rest =>
      if path_exists h (pds_path pds member_name) then
        let (lines, err) := read_member h (pds_path pds member_name) in
        let printed :=
          ("--- Found " ++ member_name ++ " in " ++ pds ++ " ---")
            :: map Py.rstrip lines in
        match err with
        | None => (printed, true)
        | Some e => ((printed ++ [("Error reading member: " ++ e)%string])%list, false)
        end
      else search h member_name rest
  end.

(** The lines [find_and_echo_member] prints. *)
Definition find_and_echo_member (h : Host) (member_name : string)
           (pds_libraries : list string) : list string :=
  let (printed, found) := search h member_name pds_libraries in
  if found then printed
  else (printed
          ++ [("Member " ++ member_name ++ " not found in provided libraries.")%string])%list.

End Pds.

(* ================================================================== *)
(** ** The persistence adapter ([DatabaseManager.insert_project_data]) *)
(* ================================================================== *)

Module Db.

Import Asm.

(** The tuple bound to the INSERT INTO STEPS statement. *)
Record StepRow : Type := mk_step_row {
  s_project_id : nat;
  s_step_id : nat;
  relative_step : string;
  step_name : option string;
  proc_step_name : option string;
  program_name : option pyval;
  proc_name : option pyval;
  parameters : option pyval;
  cond_logic : option pyval
}.

(** The tuple bound to the INSERT INTO DATA_ALLOCATIONS statement. *)
Record AllocRow : Type := mk_alloc_row {
  a_project_id : nat;
  a_step_id : nat;
  ds_id : nat;
  dd_name : option string;
  allocation_offset : nat;
  dsn : option pyval;
  disp_status : option string;
  disp_normal_term : option string;
  disp_abnormal_term : option string;
  unit_name : option pyval;
  vol_ser : option pyval;
  is_dummy : bool;
  instream_ref : string;
  lrecl : option pyval;
  blksize : option pyval;
  recfm : option pyval;
  dcb_attributes : Dict.t string
}.

(** The three relations.  Constraint checks of the database (NOT NULL,
    column widths), which would abort the transaction, are not modelled:
    the rows are the tuples the program submits. *)
Record Database : Type := mk_db {
  projects : list (nat * string);
  next_project_id : nat;
  step_rows : list StepRow;
  alloc_rows : list AllocRow
}.

(** [f"X{n:07d}"] *)
Definition pad7 (digits : string) : string :=
  Py.take (7 - String.length digits) "0000000" ++ digits.

Definition rel_step_str (n : nat) : string :=
  "X" ++ pad7 (NilZero.string_of_uint (Nat.to_uint n)).

(** [dsn] as computed for one DD. *)
Definition dsn_of (dd_params : Dict.t pyval) : option pyval :=
  let dsn := Dict.get dd_params "DSN" in
  if truthy_opt (Dict.get dd_params "DUMMY") then Some (VStr "(dummy)")
  else if truthy_opt (Dict.get dd_params "INSTREAM") then Some (VStr "(input stream)")
  else if Dict.mem dd_params "SYSOUT" then Some (VStr "(output stream)")
  else if negb (truthy_opt dsn) then Some (VStr "(work_ds)")
  else dsn.

(** [dd_params.get('DISP', [])]; the transformer stores a list under DISP. *)
Definition disp_of (dd_params : Dict.t pyval) : list string :=
  match Dict.get dd_params "DISP" with
  | Some (VList l) => l
  | _ => []
  end.

(** [a or b] *)
Definition py_or (a b : option pyval) : option pyval :=
  if truthy_opt a then a else b.

Definition is_dcb_size_key (k : string) : bool :=
  String.eqb k "LRECL" || String.eqb k "RECFM" || String.eqb k "BLKSIZE".

(** Loop state of the DD loop: [last_dd_name], [allocation_offset],
    [ds_id_counter]. *)
Record DDLoop : Type := mk_ddloop {
  last_dd_name : option string;
  cur_offset : nat;
  ds_id_counter : nat
}.

Definition dd_loop_init : DDLoop :=
  {| last_dd_name := None; cur_offset := 0; ds_id_counter := 0 |}.

Definition label_truthy (l : option string) : bool :=
  match l with Some s => Pre.truthy s | None => false end.

(** One iteration of [for dd in step['dds']]: the new loop state and the
    row inserted. *)
Definition dd_iter (project_id step_id : nat) (st : DDLoop) (dd : DDRec)
  : DDLoop * AllocRow :=
  let ds_id_counter := ds_id_counter st + 1 in
  let current_label := c_label (dd_card dd) in
  let (last_dd_name, allocation_offset) :=
    if label_truthy current_label then (current_label, 1)
    else (last_dd_name st, cur_offset st + 1) in
  let dd_params := c_params (dd_card dd) in
  let disp := disp_of dd_params in
  let dcb_val := Dict.get dd_params "DCB" in
  let lrecl0 := Dict.get dd_params "LRECL" in
  let recfm0 := Dict.get dd_params "RECFM" in
  let blksize0 := Dict.get dd_params "BLKSIZE" in
  let sub (k : string) : option pyval :=
    match dcb_val with
    | Some (VDict d) => option_map VStr (Dict.get d k)
    | _ => None
    end in
  let is_dict := match dcb_val with Some (VDict _) => true | _ => false end in
  ({| last_dd_name := last_dd_name;
      cur_offset := allocation_offset;
      ds_id_counter := ds_id_counter |},
   {| a_project_id := project_id;
      a_step_id := step_id;
      ds_id := ds_id_counter;
      dd_name := last_dd_name;
      allocation_offset := allocation_offset;
      dsn := dsn_of dd_params;
      disp_status := nth_error disp 0;
      disp_normal_term := nth_error disp 1;
      disp_abnormal_term := nth_error disp 2;
      unit_name := Dict.get dd_params "UNIT";
      vol_ser := Dict.get dd_params "VOL";
      is_dummy := truthy_opt (Dict.get dd_params "DUMMY");
      instream_ref :=
        Py.join (String "010"%char EmptyString)
                (match dd_payload dd with Some p => p | None => [] end);
      lrecl := if is_dict then py_or lrecl0 (sub "LRECL") else lrecl0;
      blksize := if is_dict then py_or blksize0 (sub "BLKSIZE") else blksize0;
      recfm := if is_dict then py_or recfm0 (sub "RECFM") else recfm0;
      dcb_attributes :=
        match dcb_val with
        | Some (VDict d) => filter (fun kv => negb (is_dcb_size_key (fst kv))) d
        | _ => []
        end |}).

(** The rows of one step's DD list, in insertion order. *)
Fixpoint dd_rows (project_id step_id : nat) (st : DDLoop) (l : list DDRec)
  : list AllocRow :=
  match l with
  | [] => []
  | dd :: l' =>
      let (st', row) := dd_iter project_id step_id st dd in
      row :: dd_rows project_id step_id st' l'
  end.

Definition step_row (project_id step_id relative : nat) (s : Step) : StepRow :=
  let info := step_info s in
  let params := c_params (info_card info) in
  {| s_project_id := project_id;
     s_step_id := step_id;
     relative_step := rel_step_str relative;
     step_name := final_step_name info;
     proc_step_name := final_proc_step_name info;
     program_name := Dict.get params "PGM";
     proc_name := final_proc_name info;
     parameters := Dict.get params "PARM";
     cond_logic := Dict.get params "COND" |}.

(** [for step in structured_data]: the STEPS and DATA_ALLOCATIONS rows. *)
Fixpoint step_loop (project_id step_id_counter relative_step_counter : nat)
         (structured_data : list Step) : list StepRow * list AllocRow :=
  match structured_data with
  | [] => ([], [])
  | s :: rest =>
      let step_id_counter := step_id_counter + 1 in
      let relative_step_counter := relative_step_counter + 1 in
      let (srows, arows) :=
        step_loop project_id step_id_counter relative_step_counter rest in
      (step_row project_id step_id_counter relative_step_counter s :: srows,
       (dd_rows project_id step_id_counter dd_loop_init (dds s) ++ arows)%list)
  end.

Fixpoint find_project (l : list (nat * string)) (name : string) : option nat :=
  match l with
  | [] => None
  | (i, n) :: l' => if String.eqb n name then Some i else find_project l' name
  end.

(** [COALESCE(MAX(step_id), 0)] over the steps of one project. *)
Definition max_step_id (db : Database) (project_id : nat) : nat :=
  fold_left
    (fun acc r => if Nat.eqb (s_project_id r) project_id
                  then Nat.max acc (s_step_id r) else acc)
    (step_rows db) 0.

Definition insert_project_data (db : Database) (project_name : string)
           (structured_data : list Step) : Database :=
  let (project_id, db1) :=
    match find_project (projects db) project_name with
    | Some i =>
        (i, {| projects := projects db;
               next_project_id := next_project_id db + 1;
               step_rows := step_rows db;
               alloc_rows := alloc_rows db |})
    | None =>
        (next_project_id db,
         {| projects := (projects db ++ [(next_project_id db, project_name)])%list;
            next_project_id := next_project_id db + 1;
            step_rows := step_rows db;
            alloc_rows := alloc_rows db |})
    end in
  let (srows, arows) :=
    step_loop project_id (max_step_id db1 project_id) 0 structured_data in
  {| projects := projects db1;
     next_project_id := next_project_id db1;
     step_rows := (step_rows db1 ++ srows)%list;
     alloc_rows := (alloc_rows db1 ++ arows)%list |}.

End Db.

(* ================================================================== *)
(** ** Auxiliary notions used to state the properties *)
(* ================================================================== *)

Module Spec.

(** State of the DD loop of [insert_project_data] after the DDs of [l]. *)
Definition dd_loop_after (project_id step_id : nat) (st : Db.DDLoop)
           (l : list Asm.DDRec) : Db.DDLoop :=
  fold_left (fun st dd => fst (Db.dd_iter project_id step_id st dd)) l st.

Definition unlabeled (dd : Asm.DDRec) : Prop :=
  Db.label_truthy (Asm.c_label (Asm.dd_card dd)) = false.

(** The statements [process_results] treats as context sentinels. *)
Definition is_sentinel (stmt : string) : bool :=
  Py.startswith stmt "*PROC_START*" || Py.startswith stmt "*PROC_END*"
  || Py.startswith stmt "*PAYLOAD*".

(** A statement still refers to a symbol of the table when [&NAME] occurs
    in it for one of the table's names. *)
Definition has_reference (tbl : Dict.t string) (stmt : string) : bool :=
  existsb (fun sym => Py.contains ("&" ++ sym) stmt) (Dict.keys tbl).

(** Names in descending order of length. *)
Definition len_desc (a b : string) : Prop := String.length b <= String.length a.

(** Number of single-quote characters of a string. *)
Fixpoint count_quotes (s : string) : nat :=
  match s with
  | EmptyString => 0
  | String c s' => (if Pre.is_quote c then 1 else 0) + count_quotes s'
  end.

(** Position [i] of [s] holds a space outside single quotes: the number of
    quote characters before it is even. *)
Definition unquoted_space_at (s : string) (i : nat) : Prop :=
  String.get i s = Some " "%char /\ Nat.odd (count_quotes (Py.take i s)) = false.

(** Every character of [s] belongs to the class [p]. *)
Fixpoint all_chars (p : ascii -> bool) (s : string) : bool :=
  match s with
  | EmptyString => true
  | String c s' => p c && all_chars p s'
  end.

(** [s] is empty or starts with a character outside the class [p]. *)
Definition stops (p : ascii -> bool) (s : string) : bool :=
  match s with
  | EmptyString => true
  | String c _ => negb (p c)
  end.




(** The PAYLOAD sentinel emitted for a captured card. *)
Definition payload_of (card : string) : string :=
  "*PAYLOAD* " ++ Py.take 72 (Py.rstrip card).


(** A complete statement gets as far as the in-stream test of
    [process_line_list], and passes it: none of the earlier cases of the
    dispatch applies. *)
Definition reaches_instream (cfg : Pre.Config) (fs : Pre.FileSystem)
           (st : Pre.State) (stmt : string) : bool :=
  negb (Pre.is_some (Re.search Pre.re_proc_start stmt))
  && negb (Py.contains "JCLLIB " (Py.upper stmt))
  && negb (Py.contains " SET " (Py.upper stmt) || Py.startswith stmt "// SET ")
  && negb (Pre.is_some (Re.search Pre.re_job_admin stmt)
           || Pre.is_some (Re.search Pre.re_cond stmt))
  && negb (Pre.is_some (Re.search Pre.re_include stmt))
  && negb (Pre.is_some (Pre.exec_target cfg fs st stmt))
  && Pre.is_some (Re.search Pre.re_dd_instream stmt).

(** *** Symbol-table objects and what a computation may do to them *)

(** The active table is an allocated object. *)
Definition wf (st : Pre.State) : Prop :=
  Pre.symbol_table st < List.length (Pre.heap st).

(** Every object of [st] other than its active table has the same contents
    in [st']. *)
Definition others_kept (st st' : Pre.State) : Prop :=
  forall l, l < List.length (Pre.heap st) -> l <> Pre.symbol_table st ->
            Pre.deref st' l = Pre.deref st l.

(** Every object of [st] has the same contents in [st']. *)
Definition all_kept (st st' : Pre.State) : Prop :=
  forall l, l < List.length (Pre.heap st) -> Pre.deref st' l = Pre.deref st l.

(** From [st] to [st']: objects are only added, only the active table of
    [st] may have been mutated, and the active table of [st'] is that of
    [st] or an object created on the way. *)
Definition frame_ok (st st' : Pre.State) : Prop :=
  wf st' /\
  List.length (Pre.heap st) <= List.length (Pre.heap st') /\
  others_kept st st' /\
  (Pre.symbol_table st' = Pre.symbol_table st \/
   List.length (Pre.heap st) <= Pre.symbol_table st').

Definition framed {A : Type} (c : Pre.M A) : Prop :=
  forall st st' o, wf st -> c st = (st', o) -> frame_ok st st'.

(** State reached while the local table [L] of an expansion started in
    [st] is being prepared: one object more, old objects untouched, the
    active table still that of [st]. *)
Definition preparing (st sx : Pre.State) : Prop :=
  Pre.symbol_table sx = Pre.symbol_table st /\
  List.length (Pre.heap sx) = S (List.length (Pre.heap st)) /\
  Spec.all_kept st sx.

Definition prep_step (st : Pre.State) (c : Pre.M unit) : Prop :=
  forall sx sx' o1, preparing st sx -> c sx = (sx', o1) -> preparing st sx'.

(** *** Comparing computations *)

(** [c2] gives every result that [c1] gives within its recursion budget. *)
Definition refines {A : Type} (c1 c2 : Pre.M A) : Prop :=
  forall st st' o, c1 st = (st', o) -> o <> Pre.Diverge -> c2 st = (st', o).

(** The two computations agree on every state. *)
Definition eqm {A : Type} (c1 c2 : Pre.M A) : Prop := forall st, c1 st = c2 st.

End Spec.

(* ================================================================== *)
(** ** Sample data for the worked examples *)
(* ================================================================== *)

Module Sample.

Import Asm.

Definition empty_db : Db.Database :=
  {| Db.projects := []; Db.next_project_id := 1;
     Db.step_rows := []; Db.alloc_rows := [] |}.

Definition dd_with (label : option string) (params : Dict.t pyval) : DDRec :=
  mk_dd (mk_card DD label params) None.

(** //INPUT DD DSN=A  followed by  // DD DSN=B  and  // DD DSN=C *)
Definition input_dd : DDRec := dd_with (Some "INPUT") [("DSN", VStr "A")].
Definition concat_b : DDRec := dd_with None [("DSN", VStr "B")].
Definition concat_c : DDRec := dd_with None [("DSN", VStr "C")].

(** //OUT DD DUMMY,DSN=A.B *)
Definition dummy_with_dsn : DDRec :=
  dd_with (Some "OUT") [("DUMMY", VBool true); ("DSN", VStr "A.B")].

(** //STEP1 EXEC PGM=IEFBR14 *)
Definition step1_card : Card := mk_card EXEC (Some "STEP1") [("PGM", VStr "IEFBR14")].

Definition step_of (card : Card) (l : list DDRec) : Step :=
  {| step_info := apply_context [] card; dds := l |}.


(** The cards of the worked examples as the grammar and the transformer
    read them. *)
Definition parse (stmt : string) : option Card :=
  if String.eqb stmt "//S1 EXEC PGM=X"
  then Some (mk_card EXEC (Some "S1") [("PGM", VStr "X")])
  else if String.eqb stmt "//STEP1 EXEC PGM=IEFBR14"
  then Some step1_card
  else if String.eqb stmt "//OUT DD DUMMY,DSN=A.B"
  then Some (dd_card dummy_with_dsn)
  else if String.eqb stmt "//INPUT DD DSN=A"
  then Some (dd_card input_dd)
  else None.

(** A procedure calling another one: the statement stream the preprocessor
    emits for it is [nested_stream]. *)
Definition nl : string := String "010"%char EmptyString.

Definition nested_deck : list string :=
  map (fun s => s ++ nl)
      ["//INNERP PROC";
       "//S1 EXEC PGM=X";
       "// PEND";
       "//OUTERP PROC";
       "//INNER EXEC INNERP";
       "// PEND";
       "//CALL EXEC OUTERP"].

Definition nested_stream : list string :=
  ["*PROC_START* label=CALL proc=OUTERP";
   "*PROC_START* label=INNER proc=INNERP";
   "//S1 EXEC PGM=X";
   "*PROC_END*";
   "*PROC_END*"].

Definition cfg : Pre.Config :=
  Pre.mk_config "LWM" EmptyString (Some "/jcl") [].

(** A file system without any member. *)
Definition no_files : Pre.FileSystem :=
  Pre.mk_fs (fun _ => false) (fun _ => None) (fun _ => None).

(** The state after [// SET HLQ=PROD] and the capture of a procedure whose
    body sets a symbol. *)
Definition scoped_state : Pre.State :=
  {| Pre.heap := [[("HLQ", "PROD")]];
     Pre.symbol_table := 0;
     Pre.procedure_map :=
       [("MYPROC",
         ("//MYPROC PROC P=FOO",
          ["// SET Q=1" ++ nl; "//S1 EXEC PGM=&P&Q" ++ nl]))];
     Pre.lib_paths := ["/jcl"] |}.

Definition scoped_call : Pre.State * Pre.outcome (list string) :=
  Pre.expand_procedure cfg no_files (Pre.process_line_list cfg no_files 1)
    "MYPROC" "//CALL EXEC MYPROC,P=BAR" "CALL" scoped_state.

(** A library with the single member M, which calls procedure P. *)
Definition member_m : list string := ["//C EXEC P,V=1" ++ nl].

Definition one_member : Pre.FileSystem :=
  Pre.mk_fs (fun p => String.eqb p "/jcl/M")
            (fun p => if String.eqb p "/jcl/M" then Some member_m else None)
            (fun p => if String.eqb p "/jcl/M" then Some member_m else None).

(** P calls Q with the operation written in lower case; the main deck
    includes M and then refers to the symbol V. *)
Definition aborting_deck : list string :=
  map (fun s => s ++ nl)
      ["//Q PROC";
       "//QS EXEC PGM=Y";
       "// PEND";
       "//P PROC";
       "//x exec q";
       "// PEND";
       "// INCLUDE MEMBER=M";
       "//AFTER EXEC PGM=&V"].

End Sample.

(* ================================================================== *)
(** ** Auxiliary notions for the further properties *)
(* ================================================================== *)

Module SpecX.

(** The cards of the statements of a stream that start a step: statements
    that are no sentinel and parse to an EXEC card, in stream order. *)
Definition exec_cards (parse : string -> option Asm.Card)
           (results_list : list string) : list Asm.Card :=
  flat_map
    (fun stmt =>
       if Spec.is_sentinel stmt then []
       else match parse stmt with
            | Some tree =>
                match Asm.c_type tree with
                | Asm.EXEC => [tree]
                | Asm.DD => []
                end
            | None => []
            end)
    results_list.

Definition step_cards (m : Asm.Manager) : list Asm.Card :=
  map (fun s => Asm.info_card (Asm.step_info s)) (Asm.steps m).

(** [current_step] is unset while there is no step, and refers to the last
    step otherwise. *)
Definition current_is_last (m : Asm.Manager) : Prop :=
  match Asm.steps m with
  | [] => Asm.current_step m = None
  | _ => Asm.current_step m = Some (List.length (Asm.steps m) - 1)
  end.

(** The statements reported as parser errors: no sentinel, and the parser
    fails on them. *)
Definition fails_to_parse (parse : string -> option Asm.Card)
           (stmt : string) : bool :=
  negb (Spec.is_sentinel stmt)
  && match parse stmt with Some _ => false | None => true end.

(** Two managers that differ in their diagnostics at most. *)
Definition same_steps (m m' : Asm.Manager) : Prop :=
  Asm.steps m = Asm.steps m' /\ Asm.current_step m = Asm.current_step m'.

(** The path [resolve_path] tries for a library on a system other than
    z/OS: the member name, with the configured extension if there is one,
    joined to the library. *)
Definition candidate (cfg : Pre.Config) (base member_name : string) : string :=
  Pre.path_join base
    (if Pre.truthy (Pre.cfg_ext cfg)
     then member_name ++ "." ++ Pre.cfg_ext cfg
     else member_name).

(** A raw card that ends the capture of a PROC body: it is kept by
    [clean_line], is not empty and matches the PEND pattern. *)
Definition is_pend (p_line_raw : string) : bool :=
  match Pre.clean_line p_line_raw with
  | Some p_line_cleaned =>
      Pre.truthy p_line_cleaned &&
      match Re.search Pre.re_pend p_line_cleaned with
      | Some _ => true
      | None => false
      end
  | None => false
  end.

(** From [st] to [st']: the search list has only been extended at its
    front, and every procedure known in [st] is still known in [st']. *)
Definition grows (st st' : Pre.State) : Prop :=
  (exists added, Pre.lib_paths st' = (added ++ Pre.lib_paths st)%list) /\
  (forall name, Dict.mem (Pre.procedure_map st) name = true ->
                Dict.mem (Pre.procedure_map st') name = true).

Definition growing {A : Type} (c : Pre.M A) : Prop :=
  forall st st' o, c st = (st', o) -> grows st st'.

(** Every card of the deck is dropped by [clean_line] or leaves the
    statement open: its content, comment removed, ends with a comma.
    [is_continuing] is the flag of the loop when the deck is entered. *)
Fixpoint never_completes (lines : list string) (is_continuing : bool) : bool :=
  match lines with
  | [] => true
  | line_raw :: rest =>
      match Pre.clean_line line_raw with
      | None => never_completes rest is_continuing
      | Some line =>
          Py.endswith_char (Pre.strip_jcl_comment line is_continuing) ","
          && never_completes rest true
      end
  end.

Definition not_blank (c : ascii) : bool := negb (Ascii.eqb c " ").

End SpecX.
Example ex_replace_1 : Py.replace "ab" "x" "abcabab" = "xcxx".
Proof. reflexivity. Qed.

Example ex_replace_overlap : Py.replace "aa" "b" "aaa" = "ba".
Proof. reflexivity. Qed.

Example ex_split_ws2 :
  Py.split_ws2 "//L  OP  a='b c' comment  " = ["//L"; "OP"; "a='b c' comment  "].
Proof. reflexivity. Qed.

Example ex_apply_1 :
  Sym.apply_symbolics [("A", "1"); ("ABC", "9")] "&ABC &A" = "9 1".
Proof. reflexivity. Qed.

Example ex_clean_line_comment : Pre.clean_line "//* comment" = None.
Proof. reflexivity. Qed.

Example ex_clean_line_statement :
  Pre.clean_line ("//A DD DSN=X" ++ Sample.nl) = Some "//A DD DSN=X".
Proof. reflexivity. Qed.

Example ex_continuation_card :
  Pre.strip_jcl_comment "//   DISP=SHR  comment" true = "DISP=SHR".
Proof. reflexivity. Qed.

Example ex_parse_params :
  Pre.parse_params "P=FOO,Q='A,B', r = 'x'"
  = [("P", "FOO"); ("Q", "A,B"); ("R", "x")].
Proof. reflexivity. Qed.

Example ex_re_exec_positional :
  option_map Re.m_groups (Re.search Pre.re_exec "//CALL EXEC MYPROC,P=BAR")
  = Some [(3, "MYPROC"); (1, "CALL")].
Proof. reflexivity. Qed.

Example ex_re_exec_pgm :
  option_map Re.m_groups (Re.search Pre.re_exec "//S1 EXEC PGM=IEFBR14")
  = Some [(3, "IEFBR14"); (2, "PGM="); (1, "S1")].
Proof. reflexivity. Qed.

Example ex_re_job_admin :
  Pre.is_some (Re.search Pre.re_job_admin "//MYJOB JOB (ACCT),CLASS=A") = true.
Proof. reflexivity. Qed.

Example ex_re_cond :
  Pre.is_some (Re.search Pre.re_cond "// IF RC=0 THEN") = true /\
  Pre.is_some (Re.search Pre.re_cond "//STEP1 EXEC PGM=IFTHEN") = false.
Proof. split; reflexivity. Qed.

Example ex_re_dd_instream :
  Pre.is_some (Re.search Pre.re_dd_instream "//SYSIN DD *") = true /\
  Pre.is_some (Re.search Pre.re_dd_instream "//SYSIN DD DATA,DLM=$$") = true /\
  Pre.is_some (Re.search Pre.re_dd_instream "//SYSIN DD DSN=A.B") = false.
Proof. repeat split; reflexivity. Qed.

Example ex_jcllib :
  Pre.lib_paths
    (Pre.update_lib_paths (Pre.init Sample.cfg) "//  JCLLIB ORDER=(A.B,'C.D')")
  = ["A.B"; "C.D"; "/jcl"].
Proof. reflexivity. Qed.

Example ex_context_frame :
  Asm.context_frame "*PROC_START* label=CALL proc=MYPROC"
  = Some (Asm.mk_frame "CALL" "MYPROC").
Proof. reflexivity. Qed.

Example ex_rel_step_str : Db.rel_step_str 1 = "X0000001".
Proof. reflexivity. Qed.

(* ================================================================== *)
(** ** Basic facts about strings *)
(* ================================================================== *)

Lemma append_assoc : forall a b c : string, (a ++ b) ++ c = a ++ (b ++ c).
Proof.
  induction a as [|x a IH]; intros b c; simpl.
  - reflexivity.
  - now rewrite IH.
Qed.

Lemma append_nil_r : forall a : string, a ++ EmptyString = a.
Proof.
  induction a as [|x a IH]; simpl; [reflexivity | now rewrite IH].
Qed.

Lemma length_append : forall a b : string,
  String.length (a ++ b) = String.length a + String.length b.
Proof.
  induction a as [|x a IH]; intros b; simpl; [reflexivity | now rewrite IH].
Qed.

(* ================================================================== *)
(** ** Properties of the persistence adapter *)
(* ================================================================== *)

Lemma dd_rows_app : forall pid sid l1 l2 st,
  Db.dd_rows pid sid st (l1 ++ l2) =
  (Db.dd_rows pid sid st l1
     ++ Db.dd_rows pid sid (Spec.dd_loop_after pid sid st l1) l2)%list.
Proof.
  induction l1 as [|dd l1 IH]; intros l2 st; simpl.
  - reflexivity.
  - destruct (Db.dd_iter pid sid st dd) as [st' row] eqn:E.
    simpl. rewrite IH. reflexivity.
Qed.

Lemma dd_rows_length : forall pid sid l st,
  List.length (Db.dd_rows pid sid st l) = List.length l.
Proof.
  induction l as [|dd l IH]; intros st; simpl.
  - reflexivity.
  - destruct (Db.dd_iter pid sid st dd) as [st' row]. simpl.
    now rewrite IH.
Qed.

(** Rows written for a run of unlabeled DDs: the name in force is kept and
    the offset counts on from the loop state. *)
Lemma dd_rows_unlabeled_run : forall pid sid followers st j,
  Forall Spec.unlabeled followers ->
  j < List.length followers ->
  exists row,
    nth_error (Db.dd_rows pid sid st followers) j = Some row /\
    Db.dd_name row = Db.last_dd_name st /\
    Db.allocation_offset row = Db.cur_offset st + 1 + j.
Proof.
  induction followers as [|dd l IH]; intros st j HF Hj; simpl in Hj.
  - lia.
  - inversion HF as [|? ? Hdd HF']; subst.
    unfold Spec.unlabeled in Hdd.
    simpl. unfold Db.dd_iter. rewrite Hdd.
    destruct j as [|j]; simpl.
    + eexists. split; [reflexivity|]. simpl. split; [reflexivity | lia].
    + match goal with
      | |- context [Db.dd_rows pid sid ?st' l] =>
          destruct (IH st' j HF' ltac:(lia)) as (row & Hn & Hname & Hoff)
      end.
      exists row. split; [exact Hn|]. simpl in Hname, Hoff.
      split; [exact Hname | lia].
Qed.

(** Within the rows written for one DD list, a labeled DD gets its own
    label and offset 1, the unlabeled DDs directly behind it the same name
    and the offsets 2, 3, ... *)
Lemma dd_rows_concatenation :
  forall pid sid pre d followers label j,
    Asm.c_label (Asm.dd_card d) = Some label ->
    Pre.truthy label = true ->
    Forall Spec.unlabeled followers ->
    j <= List.length followers ->
    exists row,
      nth_error (Db.dd_rows pid sid Db.dd_loop_init (pre ++ d :: followers))
                (List.length pre + j) = Some row /\
      Db.dd_name row = Some label /\
      Db.allocation_offset row = 1 + j.
Proof.
  intros pid sid pre d followers label j Hl Ht HF Hj.
  rewrite dd_rows_app.
  rewrite nth_error_app2 by (rewrite dd_rows_length; lia).
  rewrite dd_rows_length.
  replace (List.length pre + j - List.length pre) with j by lia.
  simpl. unfold Db.dd_iter at 1. unfold Db.label_truthy at 1.
  rewrite Hl, Ht.
  destruct j as [|j]; simpl.
  - eexists. split; [reflexivity|]. simpl. split; reflexivity.
  - match goal with
    | |- context [Db.dd_rows pid sid ?st' followers] =>
        destruct (dd_rows_unlabeled_run pid sid followers st' j HF ltac:(lia))
          as (row & Hn & Hname & Hoff)
    end.
    exists row. split; [exact Hn|]. simpl in Hname, Hoff.
    split; [exact Hname | lia].
Qed.

(** The row of the DD at position [i] carries [ds_id] [i + 1], counted
    from the loop state. *)
Lemma dd_rows_ds_id : forall pid sid l st i row,
  nth_error (Db.dd_rows pid sid st l) i = Some row ->
  Db.ds_id row = Db.ds_id_counter st + i + 1.
Proof.
  induction l as [|dd l IH]; intros st i row H; simpl in H.
  - destruct i; discriminate.
  - destruct (Db.dd_iter pid sid st dd) as [st' r] eqn:E.
    unfold Db.dd_iter in E.
    destruct i as [|i]; simpl in H.
    + inversion H; subst r.
      destruct (Db.label_truthy _) in E; inversion E; simpl; lia.
    + rewrite (IH st' i row H).
      destruct (Db.label_truthy _) in E; inversion E; simpl; lia.
Qed.

(** The rows of every step of the data are among the rows written. *)
Lemma step_loop_contains_step : forall data1 s data2 pid sid rel,
  exists sid',
    forall row,
      In row (Db.dd_rows pid sid' Db.dd_loop_init (Asm.dds s)) ->
      In row (snd (Db.step_loop pid sid rel (data1 ++ s :: data2))).
Proof.
  induction data1 as [|s1 data1 IH]; intros s data2 pid sid rel; simpl.
  - exists (sid + 1). intros row Hin.
    destruct (Db.step_loop pid (sid + 1) (rel + 1) data2) as [srows arows].
    simpl. apply in_or_app. now left.
  - destruct (IH s data2 pid (sid + 1) (rel + 1)) as [sid' H].
    exists sid'. intros row Hin. specialize (H row Hin).
    destruct (Db.step_loop pid (sid + 1) (rel + 1) (data1 ++ s :: data2))
      as [srows arows].
    simpl in *. apply in_or_app. now right.
Qed.

Lemma insert_contains_step : forall db name data1 s data2,
  exists pid sid,
    forall row,
      In row (Db.dd_rows pid sid Db.dd_loop_init (Asm.dds s)) ->
      In row (Db.alloc_rows
                (Db.insert_project_data db name (data1 ++ s :: data2))).
Proof.
  intros db name data1 s data2. unfold Db.insert_project_data.
  destruct (Db.find_project (Db.projects db) name) as [i|];
    match goal with
    | |- context [Db.step_loop ?a ?b ?c _] =>
        destruct (step_loop_contains_step data1 s data2 a b c) as [sid' H];
          exists a, sid'; intros row Hin; specialize (H row Hin);
          destruct (Db.step_loop a b c (data1 ++ s :: data2)) as [srows arows]
    end;
    simpl in *; apply in_or_app; now right.
Qed.

(** C6: among the DATA_ALLOCATIONS rows that [insert_project_data] writes
    for a step, a labeled DD has its own label as dd_name and
    allocation_offset 1, and the unlabeled DDs that follow it directly have
    the same dd_name and the offsets 2, 3, ... (each one more than the row
    before).  Position [j = 0] below is the labeled DD, [j >= 1] its
    followers; [ds_id] identifies the row within the step. *)
Theorem dd_concatenation_offsets :
  forall db name data1 s data2 pre d followers label j,
    Asm.dds s = (pre ++ d :: followers)%list ->
    Asm.c_label (Asm.dd_card d) = Some label ->
    Pre.truthy label = true ->
    Forall Spec.unlabeled followers ->
    j <= List.length followers ->
    exists row,
      In row (Db.alloc_rows
                (Db.insert_project_data db name (data1 ++ s :: data2))) /\
      Db.ds_id row = List.length pre + j + 1 /\
      Db.dd_name row = Some label /\
      Db.allocation_offset row = 1 + j.
Proof.
  intros db name data1 s data2 pre d followers label j Hs Hl Ht HF Hj.
  destruct (insert_contains_step db name data1 s data2) as (pid & sid & Hin).
  destruct (dd_rows_concatenation pid sid pre d followers label j Hl Ht HF Hj)
    as (row & Hn & Hname & Hoff).
  rewrite <- Hs in Hn.
  exists row. split; [|split; [|split]].
  - apply Hin. eapply nth_error_In. exact Hn.
  - rewrite (dd_rows_ds_id _ _ _ _ _ _ Hn). simpl. lia.
  - exact Hname.
  - exact Hoff.
Qed.

Lemma dd_concatenation_offsets_witness :
  exists row,
    In row (Db.alloc_rows
              (Db.insert_project_data Sample.empty_db "P"
                 ([] ++ Sample.step_of Sample.step1_card
                          [Sample.input_dd; Sample.concat_b; Sample.concat_c]
                     :: []))) /\
    Db.ds_id row = List.length (@nil Asm.DDRec) + 2 + 1 /\
    Db.dd_name row = Some "INPUT" /\
    Db.allocation_offset row = 1 + 2.
Proof.
  apply (dd_concatenation_offsets Sample.empty_db "P" []
           (Sample.step_of Sample.step1_card
              [Sample.input_dd; Sample.concat_b; Sample.concat_c])
           [] [] Sample.input_dd [Sample.concat_b; Sample.concat_c] "INPUT" 2).
  - reflexivity.
  - reflexivity.
  - reflexivity.
  - repeat constructor.
  - simpl. lia.
Defined.

(** The three rows of the DD concatenation scenario. *)
Example dd_concatenation_rows :
  map (fun r => (Db.dd_name r, Db.allocation_offset r, Db.dsn r))
      (Db.alloc_rows
         (Db.insert_project_data Sample.empty_db "P"
            [Sample.step_of Sample.step1_card
               [Sample.input_dd; Sample.concat_b; Sample.concat_c]]))
  = [(Some "INPUT", 1, Some (Asm.VStr "A"));
     (Some "INPUT", 2, Some (Asm.VStr "B"));
     (Some "INPUT", 3, Some (Asm.VStr "C"))].
Proof. reflexivity. Qed.







(* ================================================================== *)
(** ** Properties of the step assembler *)
(* ================================================================== *)

Section AssemblerFacts.
Variable parse : string -> option Asm.Card.

Lemma run_app : forall l1 l2 acc,
  Asm.run parse acc (l1 ++ l2) = Asm.run parse (Asm.run parse acc l1) l2.
Proof. intros. unfold Asm.run. apply fold_left_app. Qed.

Lemma run_cons : forall stmt l acc,
  Asm.run parse acc (stmt :: l) = Asm.run parse (Asm.process_stmt parse acc stmt) l.
Proof. reflexivity. Qed.

Lemma map_update_last_info : forall (f : Asm.Step -> Asm.Step) l,
  (forall s, Asm.step_info (f s) = Asm.step_info s) ->
  map Asm.step_info (Asm.update_last f l) = map Asm.step_info l.
Proof.
  intros f l Hf. induction l as [|x l IH]; [reflexivity|].
  destruct l as [|y l].
  - simpl. now rewrite Hf.
  - change (map Asm.step_info (x :: Asm.update_last f (y :: l))
            = map Asm.step_info (x :: y :: l)).
    rewrite map_cons, IH. reflexivity.
Qed.

Lemma map_update_nth_info : forall (f : Asm.Step -> Asm.Step) l i,
  (forall s, Asm.step_info (f s) = Asm.step_info s) ->
  map Asm.step_info (Asm.update_nth f i l) = map Asm.step_info l.
Proof.
  intros f l. induction l as [|x l IH]; intros i Hf; destruct i; simpl;
    try reflexivity.
  - now rewrite Hf.
  - now rewrite IH.
Qed.

(** Steps are only ever added at the end, and the display names of a step
    are never touched again. *)
Lemma process_stmt_infos : forall acc stmt,
  exists extra,
    map Asm.step_info (Asm.steps (snd (Asm.process_stmt parse acc stmt))) =
    (map Asm.step_info (Asm.steps (snd acc)) ++ extra)%list.
Proof.
  intros [stack m] stmt. unfold Asm.process_stmt.
  destruct (Py.startswith stmt "*PROC_START*").
  { exists []. destruct (Asm.context_frame stmt); simpl; now rewrite app_nil_r. }
  destruct (Py.startswith stmt "*PROC_END*").
  { exists []. simpl; now rewrite app_nil_r. }
  destruct (Py.startswith stmt "*PAYLOAD*").
  { exists []. simpl. rewrite app_nil_r. unfold Asm.add_payload.
    destruct (last (map Some (Asm.steps m)) None) as [s|]; [|reflexivity].
    destruct (Asm.dds s); [reflexivity|]. simpl.
    apply map_update_last_info. reflexivity. }
  destruct (parse stmt) as [tree|].
  - destruct (Asm.c_type tree).
    + eexists. simpl. rewrite map_app. reflexivity.
    + exists []. rewrite app_nil_r.
      destruct (Asm.current_step m); [|reflexivity]. simpl.
      apply map_update_nth_info. reflexivity.
  - exists []. simpl. now rewrite app_nil_r.
Qed.

Lemma run_infos : forall l acc,
  exists extra,
    map Asm.step_info (Asm.steps (snd (Asm.run parse acc l))) =
    (map Asm.step_info (Asm.steps (snd acc)) ++ extra)%list.
Proof.
  induction l as [|stmt l IH]; intros acc.
  - exists []. simpl. now rewrite app_nil_r.
  - rewrite run_cons.
    destruct (IH (Asm.process_stmt parse acc stmt)) as [e2 H2].
    destruct (process_stmt_infos acc stmt) as [e1 H1].
    exists (e1 ++ e2)%list. rewrite H2, H1. now rewrite app_assoc.
Qed.

(** What one EXEC statement adds. *)
Lemma process_exec : forall stack m stmt tree,
  Spec.is_sentinel stmt = false ->
  parse stmt = Some tree ->
  Asm.c_type tree = Asm.EXEC ->
  Asm.process_stmt parse (stack, m) stmt =
  (stack,
   {| Asm.steps :=
        (Asm.steps m ++ [{| Asm.step_info := Asm.apply_context stack tree;
                            Asm.dds := [] |}])%list;
      Asm.current_step := Some (List.length (Asm.steps m));
      Asm.diagnostics := Asm.diagnostics m |}).
Proof.
  intros stack m stmt tree Hs Hp Ht.
  unfold Spec.is_sentinel in Hs.
  apply orb_false_iff in Hs. destruct Hs as [Hs H3].
  apply orb_false_iff in Hs. destruct Hs as [H1 H2].
  unfold Asm.process_stmt. rewrite H1, H2, H3, Hp, Ht. reflexivity.
Qed.

(** What a DD statement does when no step is current: nothing. *)
Lemma process_dd_without_step : forall stack m stmt tree,
  Spec.is_sentinel stmt = false ->
  parse stmt = Some tree ->
  Asm.c_type tree = Asm.DD ->
  Asm.current_step m = None ->
  Asm.process_stmt parse (stack, m) stmt = (stack, m).
Proof.
  intros stack m stmt tree Hs Hp Ht Hc.
  unfold Spec.is_sentinel in Hs.
  apply orb_false_iff in Hs. destruct Hs as [Hs H3].
  apply orb_false_iff in Hs. destruct Hs as [H1 H2].
  unfold Asm.process_stmt. rewrite H1, H2, H3, Hp, Ht, Hc. reflexivity.
Qed.

End AssemblerFacts.

(** C2, as the code has it: an EXEC assembled while the procedure-context
    stack is non-empty yields a step -- found at the next free position of
    the step list, whatever follows in the stream -- whose final_step_name
    and final_proc_name are the caller label and the proc name of the frame
    on top of the stack (the most recently pushed one), and whose
    final_proc_step_name is the label of the EXEC itself. *)
Theorem exec_inherits_top_frame :
  forall parse m0 pre stmt post tree stack m1 outer,
    Asm.run parse ([], m0) pre = (stack, m1) ->
    Asm.top stack = Some outer ->
    Spec.is_sentinel stmt = false ->
    parse stmt = Some tree ->
    Asm.c_type tree = Asm.EXEC ->
    exists info,
      nth_error
        (map Asm.step_info
             (Asm.steps (Asm.process_results parse m0 (pre ++ stmt :: post))))
        (List.length (Asm.steps m1)) = Some info /\
      Asm.info_card info = tree /\
      Asm.final_step_name info = Some (Asm.f_label outer) /\
      Asm.final_proc_name info = Some (Asm.VStr (Asm.f_proc outer)) /\
      Asm.final_proc_step_name info = Asm.c_label tree.
Proof.
  intros parse m0 pre stmt post tree stack m1 outer Hrun Htop Hs Hp Ht.
  unfold Asm.process_results.
  rewrite run_app, Hrun, run_cons.
  rewrite (process_exec parse stack m1 stmt tree Hs Hp Ht).
  match goal with
  | |- context [Asm.run parse ?acc post] =>
      destruct (run_infos parse post acc) as [extra Hex]
  end.
  rewrite Hex. simpl Asm.steps. simpl snd.
  rewrite map_app. simpl map at 2.
  exists (Asm.apply_context stack tree).
  split.
  - rewrite <- app_assoc.
    rewrite nth_error_app2 by (rewrite length_map; lia).
    rewrite length_map, Nat.sub_diag. reflexivity.
  - unfold Asm.apply_context. rewrite Htop. simpl. repeat split.
Qed.

(** C10: a DD statement that parses while no step is current leaves no
    trace: the assembler ends in the same state (same steps, same
    diagnostics) as for the stream without it, so every later statement is
    handled as before and the rows written are the same. *)
Theorem dd_before_exec_dropped :
  forall parse m0 pre stmt post tree,
    Asm.current_step (snd (Asm.run parse ([], m0) pre)) = None ->
    Spec.is_sentinel stmt = false ->
    parse stmt = Some tree ->
    Asm.c_type tree = Asm.DD ->
    Asm.process_stmt parse (Asm.run parse ([], m0) pre) stmt
      = Asm.run parse ([], m0) pre /\
    Asm.process_results parse m0 (pre ++ stmt :: post)
      = Asm.process_results parse m0 (pre ++ post) /\
    forall db name,
      Db.insert_project_data db name
        (Asm.steps (Asm.process_results parse m0 (pre ++ stmt :: post)))
      = Db.insert_project_data db name
          (Asm.steps (Asm.process_results parse m0 (pre ++ post))).
Proof.
  intros parse m0 pre stmt post tree Hc Hs Hp Ht.
  destruct (Asm.run parse ([], m0) pre) as [stack m1] eqn:Hrun.
  simpl in Hc.
  pose proof (process_dd_without_step parse stack m1 stmt tree Hs Hp Ht Hc) as Hd.
  assert (Heq : Asm.process_results parse m0 (pre ++ stmt :: post)
                = Asm.process_results parse m0 (pre ++ post)).
  { unfold Asm.process_results.
    rewrite !run_app, Hrun, run_cons, Hd. reflexivity. }
  split; [exact Hd|]. split; [exact Heq|].
  intros db name. now rewrite Heq.
Qed.

Lemma exec_inherits_top_frame_witness :
  exists info,
    nth_error
      (map Asm.step_info
           (Asm.steps
              (Asm.process_results Sample.parse Asm.new_manager
                 (firstn 2 Sample.nested_stream
                    ++ "//S1 EXEC PGM=X" :: ["*PROC_END*"; "*PROC_END*"]))))
      (List.length (Asm.steps Asm.new_manager)) = Some info /\
    Asm.info_card info
      = Asm.mk_card Asm.EXEC (Some "S1") [("PGM", Asm.VStr "X")] /\
    Asm.final_step_name info = Some (Asm.f_label (Asm.mk_frame "INNER" "INNERP")) /\
    Asm.final_proc_name info
      = Some (Asm.VStr (Asm.f_proc (Asm.mk_frame "INNER" "INNERP"))) /\
    Asm.final_proc_step_name info = Some "S1".
Proof.
  apply (exec_inherits_top_frame Sample.parse Asm.new_manager
           (firstn 2 Sample.nested_stream) "//S1 EXEC PGM=X"
           ["*PROC_END*"; "*PROC_END*"]
           (Asm.mk_card Asm.EXEC (Some "S1") [("PGM", Asm.VStr "X")])
           [Asm.mk_frame "CALL" "OUTERP"; Asm.mk_frame "INNER" "INNERP"]
           Asm.new_manager (Asm.mk_frame "INNER" "INNERP"));
    reflexivity.
Defined.

(** The preprocessor emits [Sample.nested_stream] for a procedure that
    calls another procedure. *)
Example nested_deck_stream :
  snd (Pre.process_line_list Sample.cfg Sample.no_files 3 Sample.nested_deck
         (Pre.init Sample.cfg))
  = Pre.Ok Sample.nested_stream.
Proof. vm_compute. reflexivity. Qed.

(** C2 as stated fails under nested expansion: when the EXEC of the inner
    procedure is assembled the stack holds the frames CALL/OUTERP (pushed
    first) and INNER/INNERP, and the step takes its names from the latter. *)
Lemma nested_exec_names_not_outermost :
  fst (Asm.run Sample.parse ([], Asm.new_manager) (firstn 2 Sample.nested_stream))
    = [Asm.mk_frame "CALL" "OUTERP"; Asm.mk_frame "INNER" "INNERP"] /\
  map (fun s => (Asm.final_step_name (Asm.step_info s),
                 Asm.final_proc_name (Asm.step_info s),
                 Asm.final_proc_step_name (Asm.step_info s)))
      (Asm.steps (Asm.process_results Sample.parse Asm.new_manager
                    Sample.nested_stream))
    = [(Some "INNER", Some (Asm.VStr "INNERP"), Some "S1")].
Proof. split; reflexivity. Qed.

Lemma dd_before_exec_dropped_witness :
  let pre := @nil string in
  let stmt := "//INPUT DD DSN=A" in
  let post := ["//STEP1 EXEC PGM=IEFBR14"] in
  Asm.process_stmt Sample.parse
      (Asm.run Sample.parse ([], Asm.new_manager) pre) stmt
    = Asm.run Sample.parse ([], Asm.new_manager) pre /\
  Asm.process_results Sample.parse Asm.new_manager (pre ++ stmt :: post)
    = Asm.process_results Sample.parse Asm.new_manager (pre ++ post) /\
  forall db name,
    Db.insert_project_data db name
      (Asm.steps (Asm.process_results Sample.parse Asm.new_manager
                    (pre ++ stmt :: post)))
    = Db.insert_project_data db name
        (Asm.steps (Asm.process_results Sample.parse Asm.new_manager
                      (pre ++ post))).
Proof.
  intros pre stmt post.
  apply (dd_before_exec_dropped Sample.parse Asm.new_manager pre stmt post
           (Asm.dd_card Sample.input_dd)); reflexivity.
Defined.

(** The same DD after the EXEC is attached to the step. *)
Example dd_after_exec_attached :
  map (fun s => List.length (Asm.dds s))
      (Asm.steps (Asm.process_results Sample.parse Asm.new_manager
                    ["//INPUT DD DSN=A"; "//STEP1 EXEC PGM=IEFBR14";
                     "//INPUT DD DSN=A"]))
  = [1].
Proof. reflexivity. Qed.

(* ================================================================== *)
(** ** Properties of symbol substitution *)
(* ================================================================== *)

(** *** [str.replace] *)

Lemma prefix_app_true : forall a b s,
  String.prefix (a ++ b) s = true -> String.prefix a s = true.
Proof.
  induction a as [|c a IH]; intros b s H.
  - destruct s; reflexivity.
  - destruct s as [|d s]; simpl in *; [discriminate|].
    destruct (ascii_dec c d); [|discriminate]. eauto.
Qed.

Lemma find_cons : forall sub c s,
  Py.find sub (String c s) =
  if String.prefix sub (String c s) then Some 0
  else option_map S (Py.find sub s).
Proof. reflexivity. Qed.

Lemma find_none_app : forall a b s,
  Py.find a s = None -> Py.find (a ++ b) s = None.
Proof.
  intros a b. induction s as [|c s IH]; intros H.
  - destruct a; simpl in *; [discriminate | reflexivity].
  - rewrite find_cons in H. rewrite find_cons.
    destruct (String.prefix a (String c s)) eqn:E; [discriminate|].
    destruct (String.prefix (a ++ b) (String c s)) eqn:E2.
    + apply prefix_app_true in E2. congruence.
    + destruct (Py.find a s); [discriminate|]. now rewrite IH.
Qed.

Lemma replace_from_skip : forall old new s k,
  Py.replace_from old new s k = Py.replace_from old new (Py.drop k s) 0.
Proof.
  induction s as [|c s IH]; intros k.
  - destruct k; reflexivity.
  - destruct k as [|k]; [reflexivity|]. simpl. apply IH.
Qed.

(** Without an occurrence of [old] nothing changes. *)
Lemma replace_no_occurrence : forall old new s,
  old <> EmptyString ->
  Py.find old s = None -> Py.replace old new s = s.
Proof.
  intros old new s Hne. unfold Py.replace.
  destruct old as [|o old']; [congruence|]. clear Hne.
  induction s as [|c s IH]; intros H; [reflexivity|].
  simpl in H. simpl Py.replace_from.
  destruct (ascii_dec o c) as [->|Hoc].
  - destruct (String.prefix old' s) eqn:E; [discriminate|].
    destruct (Py.find (String c old') s) eqn:F; [discriminate|].
    now rewrite IH.
  - destruct (Py.find (String o old') s) eqn:F; [discriminate|].
    now rewrite IH.
Qed.

(** With an occurrence, the leftmost one is replaced and the scan resumes
    behind it: [replace] rewrites every non-overlapping occurrence from the
    left. *)
Lemma replace_leftmost : forall old new s i,
  old <> EmptyString ->
  Py.find old s = Some i ->
  Py.replace old new s =
  Py.take i s ++ new ++ Py.replace old new (Py.drop (i + String.length old) s).
Proof.
  intros old new s i Hne. unfold Py.replace.
  destruct old as [|o old']; [congruence|]. clear Hne.
  revert i. induction s as [|c s IH]; intros i H.
  - simpl in H. discriminate.
  - simpl in H. simpl Py.replace_from.
    destruct (ascii_dec o c) as [->|Hoc].
    + destruct (String.prefix old' s) eqn:E.
      * inversion H; subst i. simpl.
        rewrite Nat.sub_0_r. apply f_equal. apply replace_from_skip.
      * destruct (Py.find (String c old') s) as [j|] eqn:F; [|discriminate].
        inversion H; subst i. simpl. f_equal. now apply IH.
    + destruct (Py.find (String o old') s) as [j|] eqn:F; [|discriminate].
      inversion H; subst i. simpl. f_equal. now apply IH.
Qed.

(** *** The order of substitution *)

Lemma insert_desc_perm : forall x l,
  Permutation (Sym.insert_desc x l) (x :: l).
Proof.
  induction l as [|y l IH]; simpl.
  - apply Permutation_refl.
  - destruct (String.length x <? String.length y)%nat.
    + eapply Permutation_trans; [apply perm_skip, IH | apply perm_swap].
    + apply Permutation_refl.
Qed.

Lemma sorted_by_len_desc_perm : forall l,
  Permutation (Sym.sorted_by_len_desc l) l.
Proof.
  induction l as [|x l IH]; simpl.
  - constructor.
  - eapply Permutation_trans; [apply insert_desc_perm | now apply perm_skip].
Qed.

Lemma insert_desc_sorted : forall x l,
  StronglySorted Spec.len_desc l ->
  StronglySorted Spec.len_desc (Sym.insert_desc x l).
Proof.
  induction l as [|y l IH]; intros Hs; simpl.
  - repeat constructor.
  - inversion Hs as [|? ? Hl Hy]; subst.
    destruct (String.length x <? String.length y)%nat eqn:E.
    + apply Nat.ltb_lt in E.
      constructor; [now apply IH|].
      apply Forall_forall. intros z Hz.
      apply (Permutation_in _ (insert_desc_perm x l)) in Hz.
      destruct Hz as [<-|Hz].
      * unfold Spec.len_desc. lia.
      * rewrite Forall_forall in Hy. now apply Hy.
    + apply Nat.ltb_ge in E.
      constructor; [exact Hs|].
      constructor; [exact E|].
      rewrite Forall_forall in Hy |- *. intros z Hz.
      specialize (Hy z Hz). unfold Spec.len_desc in *. lia.
Qed.

Lemma sorted_by_len_desc_sorted : forall l,
  StronglySorted Spec.len_desc (Sym.sorted_by_len_desc l).
Proof.
  induction l as [|x l IH]; simpl.
  - constructor.
  - now apply insert_desc_sorted.
Qed.

(** The sort is stable: names of one length keep the order they have in
    the table. *)
Lemma insert_desc_filter : forall n x l,
  StronglySorted Spec.len_desc l ->
  filter (fun y => String.length y =? n)%nat (Sym.insert_desc x l) =
  filter (fun y => String.length y =? n)%nat (x :: l).
Proof.
  intros n x. induction l as [|y l IH]; intros Hs.
  - reflexivity.
  - inversion Hs as [|? ? Hl Hy]; subst. simpl Sym.insert_desc.
    destruct (String.length x <? String.length y)%nat eqn:E; [|reflexivity].
    apply Nat.ltb_lt in E.
    change (filter (fun y0 => (String.length y0 =? n)%nat) (y :: Sym.insert_desc x l))
      with (if (String.length y =? n)%nat
            then y :: filter (fun y0 => (String.length y0 =? n)%nat) (Sym.insert_desc x l)
            else filter (fun y0 => (String.length y0 =? n)%nat) (Sym.insert_desc x l)).
    rewrite (IH Hl). simpl.
    destruct (String.length x =? n)%nat eqn:Ex;
      destruct (String.length y =? n)%nat eqn:Ey; try reflexivity.
    apply Nat.eqb_eq in Ex, Ey. lia.
Qed.

Lemma sorted_by_len_desc_stable : forall n l,
  filter (fun y => String.length y =? n)%nat (Sym.sorted_by_len_desc l) =
  filter (fun y => String.length y =? n)%nat l.
Proof.
  intros n. induction l as [|x l IH].
  - reflexivity.
  - simpl Sym.sorted_by_len_desc.
    rewrite insert_desc_filter by apply sorted_by_len_desc_sorted.
    simpl. now rewrite IH.
Qed.

(** In a list in descending order of length, a strictly longer name comes
    before a shorter one. *)
Lemma sorted_longer_first : forall l a b,
  StronglySorted Spec.len_desc l ->
  In a l -> In b l -> String.length a < String.length b ->
  exists l1 l2 l3, l = (l1 ++ b :: l2 ++ a :: l3)%list.
Proof.
  induction l as [|x l IH]; intros a b Hs Ha Hb Hlt; [contradiction|].
  inversion Hs as [|? ? Hl Hx]; subst.
  rewrite Forall_forall in Hx.
  destruct Hb as [->|Hb].
  - destruct Ha as [->|Ha]; [lia|].
    apply in_split in Ha. destruct Ha as (l2 & l3 & ->).
    exists [], l2, l3. reflexivity.
  - destruct Ha as [->|Ha].
    + specialize (Hx b Hb). unfold Spec.len_desc in Hx. lia.
    + destruct (IH a b Hl Ha Hb Hlt) as (l1 & l2 & l3 & ->).
      exists (x :: l1), l2, l3. reflexivity.
Qed.

(** C1: [apply_symbolics] goes through the names of the table in
    descending order of their length (so a longer name is substituted
    before any shorter one), and for each name rewrites [&NAME..] to the
    value followed by a period, then [&NAME.] to the value, then [&NAME] to
    the value.  Each rewriting is a [str.replace], which replaces every
    occurrence: the leftmost one, and then those in the text behind it.
    With the table A=1, ABC=9 the three statements of the specification
    come out as stated. *)
Theorem apply_symbolics_longest_first :
  forall (tbl : Dict.t string) (stmt : string),
    let names := Sym.sorted_by_len_desc (Dict.keys tbl) in
    Permutation names (Dict.keys tbl) /\
    StronglySorted Spec.len_desc names /\
    (forall a b, In a (Dict.keys tbl) -> In b (Dict.keys tbl) ->
                 String.length a < String.length b ->
                 exists l1 l2 l3, names = (l1 ++ b :: l2 ++ a :: l3)%list) /\
    Sym.apply_symbolics tbl stmt =
      fold_left
        (fun s sym =>
           let val := Sym.value_of tbl sym in
           Py.replace ("&" ++ sym) val
             (Py.replace ("&" ++ sym ++ ".") val
                (Py.replace ("&" ++ sym ++ "..") (val ++ ".") s)))
        names stmt /\
    (forall sym new s,
        Py.find ("&" ++ sym) s = None -> Py.replace ("&" ++ sym) new s = s) /\
    (forall sym new s i,
        Py.find ("&" ++ sym) s = Some i ->
        Py.replace ("&" ++ sym) new s =
        Py.take i s ++ new
          ++ Py.replace ("&" ++ sym) new
               (Py.drop (i + String.length ("&" ++ sym)) s)) /\
    Sym.apply_symbolics [("A", "1"); ("ABC", "9")] "&ABC &A" = "9 1" /\
    Sym.apply_symbolics [("A", "1"); ("ABC", "9")] "&A..BC" = "1.BC" /\
    Sym.apply_symbolics [("A", "1"); ("ABC", "9")] "&ABC.X" = "9X".
Proof.
  intros tbl stmt names.
  assert (Hp : Permutation names (Dict.keys tbl))
    by apply sorted_by_len_desc_perm.
  assert (Hs : StronglySorted Spec.len_desc names)
    by apply sorted_by_len_desc_sorted.
  split; [exact Hp|]. split; [exact Hs|].
  split.
  { intros a b Ha Hb Hlt.
    apply sorted_longer_first; auto;
      eapply Permutation_in; try apply Permutation_sym; eauto. }
  split; [reflexivity|].
  split.
  { intros sym new s H. apply replace_no_occurrence; [discriminate | exact H]. }
  split.
  { intros sym new s i H. apply replace_leftmost; [discriminate | exact H]. }
  repeat split; reflexivity.
Qed.

(** *** Statements without references *)

Lemma subst_one_no_reference : forall sym val stmt,
  Py.contains ("&" ++ sym) stmt = false ->
  Sym.subst_one sym val stmt = stmt.
Proof.
  intros sym val stmt H. unfold Py.contains in H.
  destruct (Py.find ("&" ++ sym) stmt) eqn:F; [discriminate|].
  unfold Sym.subst_one.
  rewrite (replace_no_occurrence ("&" ++ sym ++ "..") (val ++ ".") stmt).
  - rewrite (replace_no_occurrence ("&" ++ sym ++ ".") val stmt).
    + apply replace_no_occurrence; [discriminate | exact F].
    + discriminate.
    + change ("&" ++ sym ++ ".") with (("&" ++ sym) ++ ".").
      now apply find_none_app.
  - discriminate.
  - change ("&" ++ sym ++ "..") with (("&" ++ sym) ++ "..").
    now apply find_none_app.
Qed.

Lemma fold_subst_no_reference : forall (tbl : Dict.t string) names stmt,
  (forall sym, In sym names -> Py.contains ("&" ++ sym) stmt = false) ->
  fold_left (fun s sym => Sym.subst_one sym (Sym.value_of tbl sym) s) names stmt
  = stmt.
Proof.
  intros tbl. induction names as [|n names IH]; intros stmt H; simpl.
  - reflexivity.
  - rewrite subst_one_no_reference by (apply H; now left).
    apply IH. intros sym Hin. apply H. now right.
Qed.

(** A statement without references is left as it is. *)
Lemma apply_symbolics_fixed : forall tbl stmt,
  Spec.has_reference tbl stmt = false ->
  Sym.apply_symbolics tbl stmt = stmt.
Proof.
  intros tbl stmt H. unfold Sym.apply_symbolics.
  apply fold_subst_no_reference. intros sym Hin.
  apply (Permutation_in _ (sorted_by_len_desc_perm (Dict.keys tbl))) in Hin.
  unfold Spec.has_reference in H.
  destruct (Py.contains ("&" ++ sym) stmt) eqn:E; [|reflexivity].
  assert (existsb (fun sym => Py.contains ("&" ++ sym) stmt) (Dict.keys tbl) = true)
    by (apply existsb_exists; eauto).
  congruence.
Qed.



(** The condition matters: a value may bring in a reference to a name that
    has already had its turn, although every reference of the statement was
    to a defined symbol. *)
Example apply_symbolics_twice_differs :
  let tbl := [("B", "&AA"); ("AA", "x")] in
  Sym.apply_symbolics tbl "&B" = "&AA" /\
  Sym.apply_symbolics tbl (Sym.apply_symbolics tbl "&B") = "x".
Proof. split; reflexivity. Qed.

(* ================================================================== *)
(** ** Properties of the card normalizer *)
(* ================================================================== *)

Lemma scan_operands_shift : forall s q i,
  Pre.scan_operands s q i = i + Pre.scan_operands s q 0.
Proof.
  induction s as [|c s IH]; intros q i; simpl.
  - lia.
  - destruct (Pre.is_quote c).
    + rewrite (IH _ (S i)), (IH _ 1). lia.
    + destruct (Ascii.eqb c " " && negb q); [lia|].
      rewrite (IH _ (S i)), (IH _ 1). lia.
Qed.

(** The scan started in quote state [q] stops at the first space whose
    quote state, toggled by every quote character before it, is "outside". *)
Lemma scan_operands_spec : forall s q,
  let e := Pre.scan_operands s q 0 in
  e <= String.length s /\
  (e < String.length s ->
   String.get e s = Some " "%char /\
   xorb q (Nat.odd (Spec.count_quotes (Py.take e s))) = false) /\
  (forall j, j < e ->
   ~ (String.get j s = Some " "%char /\
      xorb q (Nat.odd (Spec.count_quotes (Py.take j s))) = false)).
Proof.
  induction s as [|c s IH]; intros q; cbv zeta.
  - simpl. split; [lia|]. split; intros; lia.
  - simpl Pre.scan_operands. simpl String.length.
    destruct (Pre.is_quote c) eqn:Q.
    + rewrite scan_operands_shift.
      destruct (IH (negb q)) as (H1 & H2 & H3).
      set (e := Pre.scan_operands s (negb q) 0) in *.
      split; [lia|]. split.
      * intros Hlt. destruct H2 as [G X]; [lia|].
        simpl. rewrite Q. split; [exact G|].
        rewrite Nat.odd_succ, <- Nat.negb_odd.
        destruct q, (Nat.odd (Spec.count_quotes (Py.take e s))); simpl in *; congruence.
      * intros j Hj [G X]. destruct j as [|j].
        -- simpl in G. inversion G; subst c. discriminate.
        -- apply (H3 j); [lia|]. simpl in G, X. rewrite Q in X.
           split; [exact G|].
           rewrite Nat.odd_succ, <- Nat.negb_odd in X.
           destruct q, (Nat.odd (Spec.count_quotes (Py.take j s))); simpl in *; congruence.
    + destruct (Ascii.eqb c " " && negb q) eqn:E.
      * apply andb_true_iff in E. destruct E as [Ec Eq].
        apply Ascii.eqb_eq in Ec. subst c.
        apply negb_true_iff in Eq. subst q.
        split; [lia|]. split.
        -- intros _. simpl. split; reflexivity.
        -- intros j Hj. lia.
      * rewrite scan_operands_shift.
        destruct (IH q) as (H1 & H2 & H3).
        set (e := Pre.scan_operands s q 0) in *.
        split; [lia|]. split.
        -- intros Hlt. destruct H2 as [G X]; [lia|].
           simpl. rewrite Q. split; [exact G | exact X].
        -- intros j Hj [G X]. destruct j as [|j].
           ++ simpl in G, X. inversion G; subst c.
              destruct q; simpl in *; congruence.
           ++ apply (H3 j); [lia|]. simpl in G, X. rewrite Q in X.
              split; [exact G | exact X].
Qed.

Lemma lstrip_by_head : forall p s c r,
  Py.lstrip_by p s = String c r -> p c = false.
Proof.
  induction s as [|d s IH]; intros c r H; simpl in H.
  - discriminate.
  - destruct (p d) eqn:E.
    + eauto.
    + inversion H; subst. exact E.
Qed.

Lemma lstrip_by_id : forall p c s,
  p c = false -> Py.lstrip_by p (String c s) = String c s.
Proof. intros p c s H. simpl. now rewrite H. Qed.

Lemma rstrip_by_id : forall p s d,
  Py.last_char s = Some d -> p d = false -> Py.rstrip_by p s = s.
Proof.
  induction s as [|c s IH]; intros d Hl Hd.
  - discriminate.
  - destruct s as [|c' s'].
    + simpl in *. inversion Hl; subst. now rewrite Hd.
    + change (Py.last_char (String c (String c' s')))
        with (Py.last_char (String c' s')) in Hl.
      change (Py.rstrip_by p (String c (String c' s'))) with
        (match Py.rstrip_by p (String c' s') with
         | EmptyString => if p c then EmptyString else String c EmptyString
         | r => String c r
         end).
      rewrite (IH d Hl Hd). reflexivity.
Qed.

Lemma last_char_app : forall a t d,
  Py.last_char t = Some d -> Py.last_char (a ++ t) = Some d.
Proof.
  induction a as [|c a IH]; intros t d H; simpl.
  - exact H.
  - specialize (IH t d H).
    destruct (a ++ t) eqn:E; [discriminate | exact IH].
Qed.

Lemma span_word_head : forall c s,
  Py.isspace c = false ->
  exists w r, Py.span_word (String c s) = (String c w, r).
Proof.
  intros c s H. simpl. rewrite H.
  destruct (Py.span_word s) as [w r]. eauto.
Qed.

(** The first word of a split starts with a character that is no space. *)
Lemma split_ws2_first_word : forall line p0 p1 ops,
  Py.split_ws2 line = [p0; p1; ops] ->
  exists c w, p0 = String c w /\ Py.isspace c = false.
Proof.
  intros line p0 p1 ops H. unfold Py.split_ws2 in H.
  destruct (Py.lstrip line) as [|c s1] eqn:L; [discriminate|].
  apply lstrip_by_head in L.
  destruct (span_word_head c s1 L) as (w & r & Hw). rewrite Hw in H.
  destruct (Py.lstrip r) as [|c2 s2]; [discriminate|].
  destruct (Py.span_word (String c2 s2)) as [w2 r2].
  destruct (Py.lstrip r2); inversion H; subst. eauto.
Qed.

(** C5: for a card that is no continuation and has an operand field (a
    third white-space separated part), [strip_jcl_comment] cuts the operand
    field at its first space outside single quotes -- every quote character
    toggles the quote state -- and returns label, operation and the cut
    operands joined by single spaces (with white space at the end, such as a
    tab, removed); the card of the specification yields [a='b c'] as
    operands. *)
Theorem strip_jcl_comment_cuts_at_unquoted_space :
  forall line p0 p1 ops,
    Py.split_ws2 line = [p0; p1; ops] ->
    let e := Pre.scan_operands ops false 0 in
    let operands := Py.take e ops in
    e <= String.length ops /\
    (e < String.length ops -> Spec.unquoted_space_at ops e) /\
    (forall j, j < e -> ~ Spec.unquoted_space_at ops j) /\
    Pre.strip_jcl_comment line false
      = Py.strip (p0 ++ " " ++ p1 ++ " " ++ operands) /\
    (forall d, Py.last_char operands = Some d -> Py.isspace d = false ->
               Pre.strip_jcl_comment line false
                 = p0 ++ " " ++ p1 ++ " " ++ operands) /\
    Pre.strip_jcl_comment "//L OP a='b c' comment" false = "//L OP a='b c'".
Proof.
  intros line p0 p1 ops Hsplit e operands.
  destruct (scan_operands_spec ops false) as (H1 & H2 & H3).
  fold e in H1, H2, H3.
  assert (Hres : Pre.strip_jcl_comment line false
                 = Py.strip (p0 ++ " " ++ p1 ++ " " ++ operands)).
  { unfold Pre.strip_jcl_comment. rewrite Hsplit.
    destruct (split_ws2_first_word _ _ _ _ Hsplit) as (c & w & -> & Hc).
    unfold Pre.cut_comment. fold e. fold operands.
    simpl. rewrite !append_assoc. reflexivity. }
  split; [exact H1|].
  split; [intros Hlt; destruct (H2 Hlt) as [G X]; split; [exact G | exact X]|].
  split; [intros j Hj [G X]; apply (H3 j Hj); split; [exact G | exact X]|].
  split; [exact Hres|].
  split; [|reflexivity].
  intros d Hl Hd. rewrite Hres.
  destruct (split_ws2_first_word _ _ _ _ Hsplit) as (c & w & -> & Hc).
  assert (Heq : String c w ++ " " ++ p1 ++ " " ++ operands
                = String c ((w ++ " " ++ p1 ++ " ") ++ operands)).
  { simpl. f_equal. repeat (rewrite append_assoc; simpl). reflexivity. }
  rewrite Heq. unfold Py.strip, Py.strip_by.
  rewrite lstrip_by_id by exact Hc.
  apply (rstrip_by_id _ _ d); [|exact Hd].
  apply (last_char_app (String c (w ++ " " ++ p1 ++ " ")) operands d Hl).
Qed.

Lemma strip_jcl_comment_cuts_at_unquoted_space_witness :
  let ops := "a='b c' comment" in
  let e := Pre.scan_operands ops false 0 in
  let operands := Py.take e ops in
  e <= String.length ops /\
  (e < String.length ops -> Spec.unquoted_space_at ops e) /\
  (forall j, j < e -> ~ Spec.unquoted_space_at ops j) /\
  Pre.strip_jcl_comment "//L OP a='b c' comment" false
    = Py.strip ("//L" ++ " " ++ "OP" ++ " " ++ operands) /\
  (forall d, Py.last_char operands = Some d -> Py.isspace d = false ->
             Pre.strip_jcl_comment "//L OP a='b c' comment" false
               = "//L" ++ " " ++ "OP" ++ " " ++ operands) /\
  Pre.strip_jcl_comment "//L OP a='b c' comment" false = "//L OP a='b c'".
Proof.
  apply (strip_jcl_comment_cuts_at_unquoted_space
           "//L OP a='b c' comment" "//L" "OP" "a='b c' comment").
  reflexivity.
Defined.

(* ================================================================== *)
(** ** Facts about the matcher *)
(* ================================================================== *)

Lemma take_append_exact : forall a b : string,
  Py.take (String.length (a ++ b) - String.length b) (a ++ b) = a.
Proof.
  intros a b. rewrite length_append.
  replace (String.length a + String.length b - String.length b)
    with (String.length a) by lia.
  induction a as [|c a IH]; simpl.
  - destruct b; reflexivity.
  - now rewrite IH.
Qed.

(** A greedy repetition takes a whole run of class characters when the run
    has an admissible length, ends where the class ends, and the rest of
    the pattern matches behind it. *)
Lemma rep_greedy_run :
  forall (R : Type) p w rest lo hi (k : string -> option R) x,
    Spec.all_chars p w = true ->
    Spec.stops p rest = true ->
    lo <= String.length w ->
    match hi with Some h => String.length w <= h | None => True end ->
    k rest = Some x ->
    Re.rep_greedy p lo hi (w ++ rest) k = Some x.
Proof.
  intros R p. induction w as [|c w IH]; intros rest lo hi k x Hall Hstop Hlo Hhi Hk.
  - simpl in Hlo. assert (lo = 0) by lia. subst lo.
    simpl append. destruct rest as [|d r]; simpl.
    + destruct hi as [[|h]|]; exact Hk.
    + simpl in Hstop. apply negb_true_iff in Hstop. rewrite Hstop.
      destruct hi as [[|h]|]; exact Hk.
  - simpl in Hall. apply andb_true_iff in Hall. destruct Hall as [Hc Hall].
    simpl in Hlo. simpl append.
    assert (Hrec : Re.rep_greedy p (Nat.pred lo) (option_map Nat.pred hi)
                                 (w ++ rest) k = Some x).
    { apply IH; auto.
      - lia.
      - destruct hi as [h|]; simpl in *; [lia | exact I]. }
    destruct hi as [[|h]|]; simpl in Hhi.
    + lia.
    + simpl. rewrite Hc. simpl in Hrec. now rewrite Hrec.
    + simpl. rewrite Hc. simpl in Hrec. now rewrite Hrec.
Qed.

Lemma search_from_skip : forall r c s pos,
  Re.match_here r (String c s) = None ->
  Re.search_from r (String c s) pos = Re.search_from r s (S pos).
Proof. intros r c s pos H. simpl. now rewrite H. Qed.

Lemma search_from_here : forall r s pos s1 c1,
  Re.match_here r s = Some (s1, c1) ->
  Re.search_from r s pos =
  Some (Re.mk_match pos (pos + (String.length s - String.length s1)) c1).
Proof. intros r s pos s1 c1 H. destruct s; simpl; now rewrite H. Qed.

(** No name character is white space, a comma or an equals sign. *)
Lemma cls_name_not_space : forall c,
  Re.cls_name c = true -> Re.cls_space c = false.
Proof.
  intros c. destruct c as [[] [] [] [] [] [] [] []]; vm_compute; congruence.
Qed.

Lemma stops_space_before_name : forall name rest,
  Spec.all_chars Re.cls_name name = true ->
  1 <= String.length name ->
  Spec.stops Re.cls_space (name ++ rest) = true.
Proof.
  intros name rest Hn Hl. destruct name as [|c name]; simpl in *; [lia|].
  apply andb_true_iff in Hn. destruct Hn as [Hc _].
  now rewrite (cls_name_not_space c Hc).
Qed.

(** The SET pattern applied behind [// ]: the first binding is matched,
    whatever follows it. *)
Lemma re_set_matches_first_binding : forall name value rest,
  Spec.all_chars Re.cls_name name = true ->
  1 <= String.length name <= 8 ->
  Spec.all_chars Re.cls_not_space_comma value = true ->
  1 <= String.length value ->
  Spec.stops Re.cls_not_space_comma rest = true ->
  exists m,
    Re.search Pre.re_set ("// SET " ++ name ++ "=" ++ value ++ rest) = Some m /\
    Re.group m 1 = Some name /\
    Re.group m 2 = Some value.
Proof.
  intros name value rest Hn [Hn1 Hn8] Hv Hv1 Hr.
  assert (Hm : Re.match_here Pre.re_set ("SET " ++ name ++ "=" ++ value ++ rest)
               = Some (rest, [(2, value); (1, name)])).
  { unfold Re.match_here, Pre.re_set.
    cbn [Re.seq Re.lit_ci Re.lit Re.exec append].
    change (Re.chr_ci "S" "S") with true.
    change (Re.chr_ci "E" "E") with true.
    change (Re.chr_ci "T" "T") with true.
    cbv iota. unfold Re.spaces1. cbn [Re.exec].
    change (String " " (name ++ String "=" (value ++ rest)))
      with (" " ++ (name ++ String "=" (value ++ rest))).
    apply rep_greedy_run;
      [reflexivity | now apply stops_space_before_name | simpl; lia | exact I |].
    apply rep_greedy_run;
      [exact Hn | reflexivity | lia | lia |].
    rewrite Ascii.eqb_refl.
    apply rep_greedy_run; [exact Hv | exact Hr | lia | exact I |].
    rewrite take_append_exact.
    change (String "=" (value ++ rest)) with ("=" ++ value ++ rest).
    rewrite take_append_exact. reflexivity. }
  unfold Re.search.
  change ("// SET " ++ name ++ "=" ++ value ++ rest)
    with (String "/" (String "/" (String " "
            ("SET " ++ name ++ "=" ++ value ++ rest)))).
  rewrite !search_from_skip by reflexivity.
  rewrite (search_from_here _ _ _ _ _ Hm).
  eexists. split; [reflexivity|]. split; reflexivity.
Qed.

(* ================================================================== *)
(** ** Properties of SET handling and of in-stream capture *)
(* ================================================================== *)

(** For a statement [// SET NAME=VALUE] with anything behind the value,
    [update_symbols] stores exactly this first binding in the active
    table. *)
Lemma update_symbols_first_binding : forall st name value rest,
  Spec.all_chars Re.cls_name name = true ->
  1 <= String.length name <= 8 ->
  Spec.all_chars Re.cls_not_space_comma value = true ->
  1 <= String.length value ->
  Spec.stops Re.cls_not_space_comma rest = true ->
  Pre.update_symbols st ("// SET " ++ name ++ "=" ++ value ++ rest)
  = Pre.store st (Pre.symbol_table st)
      (Dict.set (Pre.deref st (Pre.symbol_table st)) (Py.upper name)
                (Py.strip_by Pre.is_quote value)).
Proof.
  intros st name value rest Hn Hnl Hv Hvl Hr.
  destruct (re_set_matches_first_binding name value rest Hn Hnl Hv Hvl Hr)
    as (m & Hs & G1 & G2).
  unfold Pre.update_symbols. now rewrite Hs, G1, G2.
Qed.

(** C8 fails on the code: of the two bindings of [// SET A=1,B=2] only the
    first reaches the symbol table, so the later reference [&B] stays as it
    is. *)
Theorem set_takes_first_binding_only :
  let st := Pre.update_symbols (Pre.init Sample.cfg) "// SET A=1,B=2" in
  Pre.deref st (Pre.symbol_table st) = [("A", "1")] /\
  Dict.get (Pre.deref st (Pre.symbol_table st)) "B" = None /\
  snd (Pre.process_line_list Sample.cfg Sample.no_files 1
         ["// SET A=1,B=2" ++ Sample.nl; "//S EXEC PGM=&A&B" ++ Sample.nl]
         (Pre.init Sample.cfg))
  = Pre.Ok ["//S EXEC PGM=1&B"].
Proof. vm_compute. repeat split; reflexivity. Qed.

(** *** The delimiter *)






(** *** Capture *)

Lemma prefix_nil : forall s, String.prefix EmptyString s = true.
Proof. destruct s; reflexivity. Qed.



Lemma capture_payload_all : forall dlm lines,
  (forall c, In c lines -> Pre.is_terminator dlm (Py.rstrip c) = false) ->
  Pre.capture_payload dlm lines = (map Spec.payload_of lines, []).
Proof.
  intros dlm lines H. induction lines as [|c l IH]; simpl.
  - reflexivity.
  - rewrite (H c (or_introl eq_refl)).
    rewrite IH by (intros; apply H; now right). reflexivity.
Qed.






(** The driver on an in-stream DD statement: the statement and the
    captured payload are emitted, and the loop goes on with the cards that
    the capture left. *)
Lemma line_loop_instream :
  forall cfg fs rec k line_raw rest cur cont acc st line,
    Pre.clean_line line_raw = Some line ->
    Py.endswith_char (Pre.strip_jcl_comment line cont) "," = false ->
    let stmt := Pre.apply_symbolics st (cur ++ Pre.strip_jcl_comment line cont) in
    Spec.reaches_instream cfg fs st stmt = true ->
    Pre.line_loop cfg fs rec (S k) (line_raw :: rest) cur cont acc st =
    Pre.line_loop cfg fs rec k
      (snd (Pre.capture_payload (Pre.instream_dlm stmt) rest))
      EmptyString false
      (acc ++ stmt :: fst (Pre.capture_payload (Pre.instream_dlm stmt) rest))%list
      st.
Proof.
  intros cfg fs rec k line_raw rest cur cont acc st line Hc He stmt Hr.
  unfold Spec.reaches_instream in Hr.
  repeat (apply andb_true_iff in Hr; destruct Hr as [Hr ?]).
  repeat match goal with
         | H : negb _ = true |- _ => apply negb_true_iff in H
         end.
  cbn [Pre.line_loop]. rewrite Hc, He.
  unfold Pre.bind at 1, Pre.get at 1. fold stmt.
  destruct (Re.search Pre.re_proc_start stmt); [discriminate|].
  match goal with H : Py.contains "JCLLIB " _ = false |- _ => rewrite H end.
  match goal with H : (Py.contains " SET " _ || _) = false |- _ => rewrite H end.
  match goal with H : (Pre.is_some _ || _) = false |- _ => rewrite H end.
  destruct (Re.search Pre.re_include stmt); [discriminate|].
  destruct (Pre.exec_target cfg fs st stmt); [discriminate|].
  match goal with H : Pre.is_some (Re.search Pre.re_dd_instream stmt) = true |- _ =>
    rewrite H end.
  destruct (Pre.capture_payload (Pre.instream_dlm stmt) rest) as [payload rest'].
  reflexivity.
Qed.




(** The in-stream scenarios run through the preprocessor. *)
Example instream_scenarios :
  snd (Pre.process_line_list Sample.cfg Sample.no_files 1
         (map (fun s => s ++ Sample.nl)
              ["//STEP EXEC PGM=X"; "//SYSIN DD *"; "HELLO"; "WORLD";
               "//NEXT DD DUMMY"; "//IN2 DD DATA,DLM=$$"; "//NOT JCL"; "$$";
               "//LAST DD DUMMY"])
         (Pre.init Sample.cfg))
  = Pre.Ok ["//STEP EXEC PGM=X"; "//SYSIN DD *"; "*PAYLOAD* HELLO";
            "*PAYLOAD* WORLD"; "//NEXT DD DUMMY"; "//IN2 DD DATA,DLM=$$";
            "*PAYLOAD* //NOT JCL"; "//LAST DD DUMMY"].
Proof. vm_compute. reflexivity. Qed.

(* ================================================================== *)
(** ** Scoping of symbols during procedure expansion *)
(* ================================================================== *)

Lemma list_set_length : forall (A : Type) (l : list A) i x,
  List.length (Pre.list_set l i x) = List.length l.
Proof.
  induction l as [|y l IH]; intros i x; destruct i; simpl; auto.
Qed.

Lemma nth_list_set_other : forall (A : Type) (l : list A) i j x d,
  i <> j -> nth j (Pre.list_set l i x) d = nth j l d.
Proof.
  induction l as [|y l IH]; intros i j x d Hij; destruct i, j; simpl; auto;
    congruence.
Qed.

Lemma deref_store_other : forall st r d l,
  l <> r -> Pre.deref (Pre.store st r d) l = Pre.deref st l.
Proof.
  intros. unfold Pre.deref, Pre.store. simpl.
  apply nth_list_set_other. congruence.
Qed.

Lemma deref_alloc_old : forall st d l,
  l < List.length (Pre.heap st) ->
  Pre.deref (fst (Pre.alloc st d)) l = Pre.deref st l.
Proof.
  intros. unfold Pre.deref, Pre.alloc. simpl. now apply app_nth1.
Qed.

Lemma frame_ok_refl : forall st, Spec.wf st -> Spec.frame_ok st st.
Proof.
  intros st H. split; [exact H|]. split; [lia|]. split; [|now left].
  intros l _ _. reflexivity.
Qed.

Lemma frame_ok_same_heap : forall st st',
  Spec.wf st ->
  Pre.heap st' = Pre.heap st ->
  Pre.symbol_table st' = Pre.symbol_table st ->
  Spec.frame_ok st st'.
Proof.
  intros st st' W Hh Hs. unfold Spec.frame_ok, Spec.wf in *.
  rewrite Hh, Hs. split; [exact W|]. split; [lia|]. split; [|now left].
  intros l _ _. unfold Pre.deref. now rewrite Hh.
Qed.

Lemma frame_ok_trans : forall st st1 st2,
  Spec.frame_ok st st1 -> Spec.frame_ok st1 st2 -> Spec.frame_ok st st2.
Proof.
  intros st st1 st2 (W1 & L1 & K1 & P1) (W2 & L2 & K2 & P2).
  split; [exact W2|]. split; [lia|]. split.
  - intros l Hl Hne. rewrite K2.
    + now apply K1.
    + lia.
    + destruct P1 as [P1|P1]; [congruence | lia].
  - destruct P2 as [P2|P2].
    + rewrite P2. destruct P1; [now left | now right].
    + right. lia.
Qed.

Lemma framed_ret : forall (A : Type) (a : A), Spec.framed (Pre.ret a).
Proof.
  intros A a st st' o W H. inversion H; subst. now apply frame_ok_refl.
Qed.

Lemma framed_raise : forall (A : Type), Spec.framed (@Pre.raise A).
Proof.
  intros A st st' o W H. inversion H; subst. now apply frame_ok_refl.
Qed.

Lemma framed_diverge : forall (A : Type), Spec.framed (@Pre.diverge A).
Proof.
  intros A st st' o W H. inversion H; subst. now apply frame_ok_refl.
Qed.

Lemma framed_get : Spec.framed Pre.get.
Proof.
  intros st st' o W H. inversion H; subst. now apply frame_ok_refl.
Qed.

Lemma framed_bind : forall (A B : Type) (c : Pre.M A) (f : A -> Pre.M B),
  Spec.framed c -> (forall a, Spec.framed (f a)) ->
  Spec.framed (Pre.bind c f).
Proof.
  intros A B c f Hc Hf st st' o W H. unfold Pre.bind in H.
  destruct (c st) as [st1 [a| |]] eqn:E.
  - pose proof (Hc _ _ _ W E) as F1.
    eapply frame_ok_trans; [exact F1|].
    eapply Hf; [apply F1 | exact H].
  - inversion H; subst. eapply Hc; eauto.
  - inversion H; subst. eapply Hc; eauto.
Qed.

Lemma framed_try_except : forall (A : Type) (c h : Pre.M A),
  Spec.framed c -> Spec.framed h -> Spec.framed (Pre.try_except c h).
Proof.
  intros A c h Hc Hh st st' o W H. unfold Pre.try_except in H.
  destruct (c st) as [st1 [a| |]] eqn:E.
  - inversion H; subst. eapply Hc; eauto.
  - pose proof (Hc _ _ _ W E) as F1.
    eapply frame_ok_trans; [exact F1|].
    eapply Hh; [apply F1 | exact H].
  - inversion H; subst. eapply Hc; eauto.
Qed.

Lemma framed_modify : forall f,
  (forall st, Spec.wf st -> Spec.frame_ok st (f st)) ->
  Spec.framed (Pre.modify f).
Proof.
  intros f Hf st st' o W H. inversion H; subst. now apply Hf.
Qed.

(** Mutating the active table. *)
Lemma frame_ok_store_active : forall st d,
  Spec.wf st -> Spec.frame_ok st (Pre.store st (Pre.symbol_table st) d).
Proof.
  intros st d W. unfold Spec.frame_ok, Spec.wf in *. simpl.
  rewrite list_set_length.
  split; [exact W|]. split; [lia|]. split; [|now left].
  intros l Hl Hne. now apply deref_store_other.
Qed.

Lemma frame_ok_update_symbols : forall st stmt,
  Spec.wf st -> Spec.frame_ok st (Pre.update_symbols st stmt).
Proof.
  intros st stmt W. unfold Pre.update_symbols.
  destruct (Re.search Pre.re_set stmt) as [m|]; [|now apply frame_ok_refl].
  destruct (Re.group m 1); [|now apply frame_ok_refl].
  destruct (Re.group m 2); [|now apply frame_ok_refl].
  now apply frame_ok_store_active.
Qed.

Lemma frame_ok_update_lib_paths : forall st stmt,
  Spec.wf st -> Spec.frame_ok st (Pre.update_lib_paths st stmt).
Proof.
  intros st stmt W. unfold Pre.update_lib_paths.
  destruct (Re.search Pre.re_order stmt) as [m|]; [|now apply frame_ok_refl].
  destruct (Re.group m 1); [|now apply frame_ok_refl].
  now apply frame_ok_same_heap.
Qed.

Lemma frame_ok_set_procedure_map : forall st m,
  Spec.wf st -> Spec.frame_ok st (Pre.set_procedure_map st m).
Proof. intros st m W. now apply frame_ok_same_heap. Qed.

Lemma update_object_run : forall r e st,
  Pre.update_object r e st
  = (Pre.store st r (Dict.update (Pre.deref st r) e), Pre.Ok tt).
Proof. reflexivity. Qed.

Section ExpandEffect.
Variable cfg : Pre.Config.
Variable fs : Pre.FileSystem.
Variable rec : list string -> Pre.M (list string).
Hypothesis rec_framed : forall lines, Spec.framed (rec lines).

Lemma preparing_alloc : forall st d,
  Spec.preparing st (fst (Pre.alloc st d)).
Proof.
  intros st d. split; [reflexivity|]. split.
  - simpl. rewrite length_app. simpl. lia.
  - intros l Hl. now apply deref_alloc_old.
Qed.

Lemma preparing_store : forall st sx d,
  Spec.preparing st sx ->
  Spec.preparing st (Pre.store sx (List.length (Pre.heap st)) d).
Proof.
  intros st sx d (P & L & K). split; [exact P|]. split.
  - simpl. now rewrite list_set_length.
  - intros l Hl. rewrite deref_store_other by lia. now apply K.
Qed.

Lemma preparing_frame_ok : forall st sx,
  Spec.wf st -> Spec.preparing st sx -> Spec.frame_ok st sx.
Proof.
  intros st sx W (P & L & K). unfold Spec.frame_ok, Spec.wf in *.
  split; [lia|]. split; [lia|]. split; [|now left].
  intros l Hl _. now apply K.
Qed.

Lemma prep_step_update : forall st e,
  Spec.prep_step st (Pre.update_object (List.length (Pre.heap st)) e).
Proof.
  intros st e sx sx' o1 P H. rewrite update_object_run in H.
  inversion H; subst. now apply preparing_store.
Qed.

Lemma prep_step_ret : forall st, Spec.prep_step st (Pre.ret tt).
Proof. intros st sx sx' o1 P H. inversion H; subst. exact P. Qed.

Lemma prep_step_raise : forall st, Spec.prep_step st Pre.raise.
Proof. intros st sx sx' o1 P H. inversion H; subst. exact P. Qed.

Lemma all_kept_after_body : forall st sc se,
  Spec.preparing st sc ->
  Spec.frame_ok (Pre.set_symbol_table sc (List.length (Pre.heap st))) se ->
  Spec.all_kept st se /\
  List.length (Pre.heap st) < List.length (Pre.heap se) /\
  List.length (Pre.heap st) <= Pre.symbol_table se.
Proof.
  intros st sc se (P & L & K) (W & Len & Ko & Ptr). simpl in Len, Ko, Ptr.
  split; [|split; [lia | destruct Ptr; lia]].
  intros l Hl. rewrite Ko.
  - now apply K.
  - simpl. lia.
  - simpl. lia.
Qed.

Lemma expand_procedure_effect :
  forall proc_name exec_stmt outer_label st st' o,
    Spec.wf st ->
    Pre.expand_procedure cfg fs rec proc_name exec_stmt outer_label st = (st', o) ->
    Spec.frame_ok st st' /\ Spec.all_kept st st' /\
    (forall out, o = Pre.Ok out -> Pre.symbol_table st' = Pre.symbol_table st).
Proof.
  intros proc_name exec_stmt outer_label st st' o W H.
  unfold Pre.expand_procedure in H.
  unfold Pre.bind at 1 in H. unfold Pre.get at 1 in H.
  destruct (Pre.load_procedure cfg fs st proc_name) as [[header body]|].
  2:{ inversion H; subst. split; [now apply frame_ok_refl|].
      split; [intros l _; reflexivity | reflexivity]. }
  unfold Pre.bind at 1 in H.
  pose proof (preparing_alloc st (Pre.deref st (Pre.symbol_table st))) as Pa.
  destruct (Pre.alloc st (Pre.deref st (Pre.symbol_table st))) as [sa L] eqn:Ea.
  assert (HL : L = List.length (Pre.heap st)) by (inversion Ea; reflexivity).
  simpl fst in Pa. subst L.
  (* the defaults of the PROC header *)
  unfold Pre.bind at 1 in H.
  match type of H with
  | context [match ?c sa with _ => _ end] =>
      assert (S1 : Spec.prep_step st c);
        [| destruct (c sa) as [sb o1] eqn:E1; pose proof (S1 _ _ _ Pa E1) as Pb ]
  end.
  { destruct (Py.contains " PROC " (Py.upper header)); [|apply prep_step_ret].
    destruct (Py.split_once "PROC" (Py.upper header)) as [|? [|? [|? ?]]];
      try apply prep_step_raise. apply prep_step_update. }
  assert (Stop : forall sx, Spec.preparing st sx ->
                 Spec.frame_ok st sx /\ Spec.all_kept st sx).
  { intros sx Px. split; [now apply preparing_frame_ok | apply Px]. }
  destruct o1 as [[]| |];
    try (inversion H; subst; destruct (Stop _ Pb) as [? ?];
         split; [assumption | split; [assumption | intros ? ?; discriminate]]).
  (* the overrides of the EXEC statement *)
  destruct (Py.split_once "EXEC" exec_stmt) as [|? [|after [|? ?]]];
    try (inversion H; subst; destruct (Stop _ Pb) as [? ?];
         split; [assumption | split; [assumption | intros ? ?; discriminate]]).
  unfold Pre.bind at 1 in H.
  match type of H with
  | context [match ?c sb with _ => _ end] =>
      assert (S2 : Spec.prep_step st c);
        [| destruct (c sb) as [sc o2] eqn:E2; pose proof (S2 _ _ _ Pb E2) as Pc ]
  end.
  { destruct (Re.search Pre.re_comma_or_space (Py.strip after));
      [apply prep_step_update | apply prep_step_ret]. }
  destruct o2 as [[]| |];
    try (inversion H; subst; destruct (Stop _ Pc) as [? ?];
         split; [assumption | split; [assumption | intros ? ?; discriminate]]).
  (* the body, with the local table installed *)
  unfold Pre.bind at 1 in H. unfold Pre.get at 1 in H.
  unfold Pre.bind at 1 in H. unfold Pre.modify at 1 in H.
  unfold Pre.bind at 1 in H.
  destruct (rec body (Pre.set_symbol_table sc (List.length (Pre.heap st))))
    as [se oe] eqn:Ee.
  assert (Wd : Spec.wf (Pre.set_symbol_table sc (List.length (Pre.heap st)))).
  { destruct Pc as (_ & Lc & _). unfold Spec.wf. simpl. lia. }
  pose proof (rec_framed body _ _ _ Wd Ee) as Fe.
  destruct (all_kept_after_body st sc se Pc Fe) as (Ke & Le & Pe).
  destruct oe as [expanded| |].
  - unfold Pre.bind, Pre.modify, Pre.ret in H. inversion H; subst. clear H.
    destruct Pc as (Pc & _ & _).
    split; [|split].
    + unfold Spec.frame_ok, Spec.wf in *. simpl.
      split; [lia|]. split; [lia|]. split; [|now left].
      intros l Hl _. now apply Ke.
    + exact Ke.
    + intros out _. simpl. exact Pc.
  - inversion H; subst. split; [|split; [exact Ke | discriminate]].
    split; [apply Fe|]. split; [lia|]. split; [|right; lia].
    intros l Hl _. now apply Ke.
  - inversion H; subst. split; [|split; [exact Ke | discriminate]].
    split; [apply Fe|]. split; [lia|]. split; [|right; lia].
    intros l Hl _. now apply Ke.
Qed.

End ExpandEffect.
Section LoopFramed.
Variable cfg : Pre.Config.
Variable fs : Pre.FileSystem.
Variable rec : list string -> Pre.M (list string).
Hypothesis rec_framed : forall lines, Spec.framed (rec lines).

Lemma expand_procedure_framed : forall proc_name exec_stmt outer_label,
  Spec.framed (Pre.expand_procedure cfg fs rec proc_name exec_stmt outer_label).
Proof.
  intros proc_name exec_stmt outer_label st st' o W H.
  now destruct (expand_procedure_effect cfg fs rec rec_framed _ _ _ _ _ _ W H).
Qed.

Lemma preprocess_file_framed : forall file_path,
  Spec.framed (Pre.preprocess_file fs rec file_path).
Proof.
  intros file_path. unfold Pre.preprocess_file.
  destruct (negb (Pre.truthy file_path)); [apply framed_ret|].
  apply framed_try_except; [|apply framed_ret].
  destruct (Pre.read_utf8 fs file_path); [apply rec_framed | apply framed_raise].
Qed.

Ltac framed_step IH :=
  first
    [ apply IH
    | apply framed_ret
    | apply expand_procedure_framed
    | apply preprocess_file_framed
    | apply framed_get
    | apply framed_modify; intros;
      first [ now apply frame_ok_update_symbols
            | now apply frame_ok_update_lib_paths
            | now apply frame_ok_set_procedure_map ]
    | apply framed_bind; [| intros ?]
    | match goal with
      | |- Spec.framed (if ?b then _ else _) => destruct b
      | |- Spec.framed (match ?x with _ => _ end) => destruct x
      | |- Spec.framed (let (_, _) := ?x in _) => destruct x
      end ].

Lemma line_loop_framed : forall k lines current_statement is_continuing statements,
  Spec.framed (Pre.line_loop cfg fs rec k lines current_statement
                             is_continuing statements).
Proof.
  induction k as [|k IH]; intros lines cur cont acc.
  - destruct lines; apply framed_ret.
  - destruct lines as [|line_raw rest]; [apply framed_ret|].
    cbn [Pre.line_loop].
    repeat framed_step IH.
Qed.

End LoopFramed.

Lemma process_line_list_framed : forall cfg fs fuel lines,
  Spec.framed (Pre.process_line_list cfg fs fuel lines).
Proof.
  intros cfg fs. induction fuel as [|n IH]; intros lines.
  - apply framed_diverge.
  - simpl. apply line_loop_framed. exact IH.
Qed.

Lemma wf_init : forall cfg, Spec.wf (Pre.init cfg).
Proof. intros cfg. unfold Spec.wf. simpl. lia. Qed.

(** C3: when [expand_procedure] returns, the attribute [symbol_table]
    refers to the same dictionary object as before the call and that object
    has the bindings it had before (as has every other table object that
    existed): what PROC defaults, EXEC overrides and SET statements of the
    body bound went into the deep copy made for the expansion.  This holds
    for every recursion budget given to the processing of the body. *)
Theorem expand_procedure_restores_symbol_table :
  forall cfg fs fuel proc_name exec_stmt outer_label st st' expanded,
    Spec.wf st ->
    Pre.expand_procedure cfg fs (Pre.process_line_list cfg fs fuel)
      proc_name exec_stmt outer_label st = (st', Pre.Ok expanded) ->
    Pre.symbol_table st' = Pre.symbol_table st /\
    Pre.deref st' (Pre.symbol_table st') = Pre.deref st (Pre.symbol_table st) /\
    Spec.all_kept st st'.
Proof.
  intros cfg fs fuel proc_name exec_stmt outer_label st st' expanded W H.
  destruct (expand_procedure_effect cfg fs (Pre.process_line_list cfg fs fuel)
              (process_line_list_framed cfg fs fuel) _ _ _ _ _ _ W H)
    as (_ & K & P).
  specialize (P expanded eq_refl).
  split; [exact P|]. split; [|exact K].
  rewrite P. apply K. exact W.
Qed.

Lemma expand_procedure_restores_symbol_table_witness :
  let st := Sample.scoped_state in
  let st' := fst Sample.scoped_call in
  Spec.wf st /\
  snd Sample.scoped_call
    = Pre.Ok ["*PROC_START* label=CALL proc=MYPROC"; "//S1 EXEC PGM=BAR1";
              "*PROC_END*"] /\
  Pre.deref st' 1 = [("HLQ", "PROD"); ("PROC P", "FOO"); ("P", "BAR"); ("Q", "1")] /\
  Pre.symbol_table st' = Pre.symbol_table st /\
  Pre.deref st' (Pre.symbol_table st') = Pre.deref st (Pre.symbol_table st) /\
  Spec.all_kept st st'.
Proof.
  intros st st'.
  assert (W : Spec.wf st) by (unfold Spec.wf; simpl; lia).
  split; [exact W|]. split; [vm_compute; reflexivity|].
  split; [vm_compute; reflexivity|].
  apply (expand_procedure_restores_symbol_table
           Sample.cfg Sample.no_files 1 "MYPROC" "//CALL EXEC MYPROC,P=BAR"
           "CALL" st st'
           ["*PROC_START* label=CALL proc=MYPROC"; "//S1 EXEC PGM=BAR1";
            "*PROC_END*"] W).
  vm_compute. reflexivity.
Defined.

(** Procedure scoping seen from the deck: after the call neither the
    override P nor the symbol Q set in the body is defined. *)
Example symbols_do_not_leak :
  snd (Pre.process_line_list Sample.cfg Sample.no_files 2
         (map (fun s => s ++ Sample.nl)
              ["//MYPROC PROC P=FOO"; "// SET Q=1"; "//S1 EXEC PGM=&P&Q";
               "// PEND"; "//CALL EXEC MYPROC,P=BAR"; "//AFTER EXEC PGM=&P&Q"])
         (Pre.init Sample.cfg))
  = Pre.Ok ["*PROC_START* label=CALL proc=MYPROC"; "//S1 EXEC PGM=BAR1";
            "*PROC_END*"; "//AFTER EXEC PGM=&P&Q"].
Proof. vm_compute. reflexivity. Qed.

(** When the processing of the body raises, the expansion does not
    complete and the assignment that restores the table is not reached: the
    exception here is caught by the [preprocess_file] of the included
    member, and the deck goes on with the table of the aborted expansion. *)
Example aborted_expansion_keeps_local_table :
  let r := Pre.process_line_list Sample.cfg Sample.one_member 4
             Sample.aborting_deck (Pre.init Sample.cfg) in
  snd r = Pre.Ok ["//AFTER EXEC PGM=1"] /\
  Pre.symbol_table (fst r) = 1 /\
  Pre.deref (fst r) (Pre.symbol_table (fst r)) = [("V", "1")].
Proof. vm_compute. repeat split; reflexivity. Qed.

(* ================================================================== *)
(** ** The recursion budget and the loop bound are no restriction *)
(* ================================================================== *)

Lemma refines_refl : forall (A : Type) (c : Pre.M A), Spec.refines c c.
Proof. intros A c st st' o H _. exact H. Qed.

Lemma refines_bind : forall (A B : Type) (c1 c2 : Pre.M A) (f1 f2 : A -> Pre.M B),
  Spec.refines c1 c2 -> (forall a, Spec.refines (f1 a) (f2 a)) ->
  Spec.refines (Pre.bind c1 f1) (Pre.bind c2 f2).
Proof.
  intros A B c1 c2 f1 f2 Hc Hf st st' o H Hd. unfold Pre.bind in *.
  destruct (c1 st) as [s1 [a| |]] eqn:E.
  - rewrite (Hc _ _ _ E) by discriminate. now apply Hf.
  - rewrite (Hc _ _ _ E) by discriminate. exact H.
  - inversion H; subst. congruence.
Qed.

Lemma refines_try_except : forall (A : Type) (c1 c2 h : Pre.M A),
  Spec.refines c1 c2 -> Spec.refines (Pre.try_except c1 h) (Pre.try_except c2 h).
Proof.
  intros A c1 c2 h Hc st st' o H Hd. unfold Pre.try_except in *.
  destruct (c1 st) as [s1 [a| |]] eqn:E.
  - rewrite (Hc _ _ _ E) by discriminate. exact H.
  - rewrite (Hc _ _ _ E) by discriminate. exact H.
  - inversion H; subst. congruence.
Qed.

Section MoreFuel.
Variable cfg : Pre.Config.
Variable fs : Pre.FileSystem.
Variables rec1 rec2 : list string -> Pre.M (list string).
Hypothesis rec_refines : forall lines, Spec.refines (rec1 lines) (rec2 lines).

Ltac refines_step IH :=
  first
    [ apply IH
    | apply rec_refines
    | apply refines_refl
    | apply refines_try_except
    | apply refines_bind; [| intros ?]
    | match goal with
      | |- Spec.refines (if ?b then _ else _) _ => destruct b
      | |- Spec.refines (match ?x with _ => _ end) _ => destruct x
      | |- Spec.refines (let (_, _) := ?x in _) _ => destruct x
      end ].

Lemma expand_procedure_refines : forall proc_name exec_stmt outer_label,
  Spec.refines (Pre.expand_procedure cfg fs rec1 proc_name exec_stmt outer_label)
          (Pre.expand_procedure cfg fs rec2 proc_name exec_stmt outer_label).
Proof.
  intros. unfold Pre.expand_procedure.
  repeat refines_step rec_refines.
Qed.

Lemma preprocess_file_refines : forall file_path,
  Spec.refines (Pre.preprocess_file fs rec1 file_path)
          (Pre.preprocess_file fs rec2 file_path).
Proof.
  intros. unfold Pre.preprocess_file.
  repeat refines_step rec_refines.
Qed.

Lemma line_loop_refines : forall k lines cur cont acc,
  Spec.refines (Pre.line_loop cfg fs rec1 k lines cur cont acc)
          (Pre.line_loop cfg fs rec2 k lines cur cont acc).
Proof.
  induction k as [|k IH]; intros lines cur cont acc.
  - destruct lines; apply refines_refl.
  - destruct lines as [|line_raw rest]; [apply refines_refl|].
    cbn [Pre.line_loop].
    repeat
      match goal with
      | |- Spec.refines (Pre.bind _ _) (Pre.bind _ _) =>
          apply refines_bind; [| intros ?]
      | |- Spec.refines (Pre.try_except _ _) (Pre.try_except _ _) =>
          apply refines_try_except
      | |- Spec.refines (Pre.expand_procedure _ _ _ _ _ _) _ =>
          apply expand_procedure_refines
      | |- Spec.refines (Pre.preprocess_file _ _ _) _ =>
          apply preprocess_file_refines
      | |- Spec.refines (Pre.line_loop _ _ _ _ _ _ _ _) _ => apply IH
      | |- Spec.refines (rec1 _) _ => apply rec_refines
      | |- Spec.refines (if ?b then _ else _) _ => destruct b
      | |- Spec.refines (match ?x with _ => _ end) _ => destruct x
      | |- Spec.refines (let (_, _) := ?x in _) _ => destruct x
      | |- Spec.refines _ _ => apply refines_refl
      end.
Qed.

End MoreFuel.

(** A result obtained within a budget is obtained within every larger
    one. *)
Lemma process_line_list_more_fuel : forall cfg fs n lines,
  Spec.refines (Pre.process_line_list cfg fs n lines)
          (Pre.process_line_list cfg fs (S n) lines).
Proof.
  intros cfg fs. induction n as [|n IH]; intros lines.
  - intros st st' o H Hd. inversion H; subst. congruence.
  - change (Spec.refines
              (Pre.line_loop cfg fs (Pre.process_line_list cfg fs n)
                 (List.length lines) lines EmptyString false [])
              (Pre.line_loop cfg fs (Pre.process_line_list cfg fs (S n))
                 (List.length lines) lines EmptyString false [])).
    apply line_loop_refines. exact IH.
Qed.

Lemma process_line_list_enough_fuel : forall cfg fs n m lines st st' o,
  n <= m ->
  Pre.process_line_list cfg fs n lines st = (st', o) ->
  o <> Pre.Diverge ->
  Pre.process_line_list cfg fs m lines st = (st', o).
Proof.
  intros cfg fs n m lines st st' o Hle. induction Hle as [|m Hle IH]; intros H Hd.
  - exact H.
  - apply process_line_list_more_fuel; auto.
Qed.

Lemma eqm_refl : forall (A : Type) (c : Pre.M A), Spec.eqm c c.
Proof. intros A c st. reflexivity. Qed.

Lemma eqm_bind : forall (A B : Type) (c : Pre.M A) (f1 f2 : A -> Pre.M B),
  (forall a, Spec.eqm (f1 a) (f2 a)) -> Spec.eqm (Pre.bind c f1) (Pre.bind c f2).
Proof.
  intros A B c f1 f2 Hf st. unfold Pre.bind.
  destruct (c st) as [s1 [a| |]]; auto. apply Hf.
Qed.

Lemma capture_proc_body_length : forall lines,
  List.length (snd (Pre.capture_proc_body lines)) <= List.length lines.
Proof.
  induction lines as [|l lines IH]; simpl; [lia|].
  match goal with |- context [if ?b then _ else _] => destruct b end.
  - simpl. lia.
  - destruct (Pre.capture_proc_body lines) as [body rest']. simpl in *. lia.
Qed.

Lemma capture_payload_length : forall dlm lines,
  List.length (snd (Pre.capture_payload dlm lines)) <= List.length lines.
Proof.
  intros dlm. induction lines as [|l lines IH]; simpl; [lia|].
  destruct (Pre.is_terminator dlm (Py.rstrip l)).
  - match goal with |- context [if ?b then _ else _] => destruct b end; simpl; lia.
  - destruct (Pre.capture_payload dlm lines) as [p rest']. simpl in *. lia.
Qed.

Section LoopBound.
Variable cfg : Pre.Config.
Variable fs : Pre.FileSystem.
Variable rec : list string -> Pre.M (list string).

(** The bound on the iterations of the loop of [process_line_list] is
    never reached before the cards are used up: any bound of at least the
    number of cards gives the same computation. *)
Lemma line_loop_bound : forall k k' lines cur cont acc,
  List.length lines <= k -> List.length lines <= k' ->
  Spec.eqm (Pre.line_loop cfg fs rec k lines cur cont acc)
      (Pre.line_loop cfg fs rec k' lines cur cont acc).
Proof.
  induction k as [|k IH]; intros k' lines cur cont acc Hk Hk'.
  - destruct lines; [|simpl in Hk; lia]. destruct k'; apply eqm_refl.
  - destruct lines as [|line_raw rest].
    + destruct k'; apply eqm_refl.
    + destruct k' as [|k']; [simpl in Hk'; lia|].
      simpl in Hk, Hk'.
      cbn [Pre.line_loop].
      pose proof (capture_proc_body_length rest) as Lp.
      repeat first
        [ apply IH; simpl; lia
        | apply eqm_bind; intros ?
        | match goal with
          | |- Spec.eqm (let (_, _) := Pre.capture_payload ?d rest in _) _ =>
              pose proof (capture_payload_length d rest);
              destruct (Pre.capture_payload d rest); simpl in *
          | |- Spec.eqm (let (_, _) := Pre.capture_proc_body rest in _) _ =>
              destruct (Pre.capture_proc_body rest); simpl in *
          | |- Spec.eqm (if ?b then _ else _) _ => destruct b
          | |- Spec.eqm (match ?x with _ => _ end) _ => destruct x
          end ].
Qed.

End LoopBound.

(* ================================================================== *)
(** ** Further properties: numbering of the rows *)
(* ================================================================== *)

Lemma step_loop_rows_length : forall data pid sid rel,
  List.length (fst (Db.step_loop pid sid rel data)) = List.length data.
Proof.
  induction data as [|s data IH]; intros pid sid rel; simpl.
  - reflexivity.
  - specialize (IH pid (sid + 1) (rel + 1)).
    destruct (Db.step_loop pid (sid + 1) (rel + 1) data) as [srows arows].
    simpl in *. now rewrite IH.
Qed.

Lemma step_loop_nth : forall data pid sid rel k s,
  nth_error data k = Some s ->
  nth_error (fst (Db.step_loop pid sid rel data)) k
  = Some (Db.step_row pid (sid + k + 1) (rel + k + 1) s).
Proof.
  induction data as [|s0 data IH]; intros pid sid rel k s H.
  - destruct k; discriminate.
  - simpl. specialize (IH pid (sid + 1) (rel + 1)).
    destruct (Db.step_loop pid (sid + 1) (rel + 1) data) as [srows arows].
    simpl in *. destruct k as [|k]; simpl in *.
    + inversion H; subst. now rewrite !Nat.add_0_r.
    + rewrite (IH k s H). f_equal. f_equal; lia.
Qed.

Lemma find_project_app_new : forall l i name,
  Db.find_project l name = None ->
  Db.find_project (l ++ [(i, name)]) name = Some i.
Proof.
  induction l as [|[j n] l IH]; intros i name H; simpl in *.
  - now rewrite String.eqb_refl.
  - destruct (String.eqb n name); [discriminate | now apply IH].
Qed.

(** The project id the insert works with, and the step rows it appends. *)
Lemma insert_step_rows : forall db name data,
  exists pid,
    Db.find_project (Db.projects (Db.insert_project_data db name data)) name
      = Some pid /\
    (Db.find_project (Db.projects db) name = Some pid \/
     Db.find_project (Db.projects db) name = None /\ pid = Db.next_project_id db) /\
    Db.step_rows (Db.insert_project_data db name data) =
    (Db.step_rows db
       ++ fst (Db.step_loop pid (Db.max_step_id db pid) 0 data))%list.
Proof.
  intros db name data. unfold Db.insert_project_data.
  destruct (Db.find_project (Db.projects db) name) as [i|] eqn:F.
  - exists i.
    change (Db.max_step_id _ i) with (Db.max_step_id db i).
    destruct (Db.step_loop i (Db.max_step_id db i) 0 data) as [srows arows].
    simpl. auto.
  - exists (Db.next_project_id db).
    match goal with
    | |- context [Db.step_loop ?a ?b ?c data] =>
        change b with (Db.max_step_id db (Db.next_project_id db))
    end.
    destruct (Db.step_loop (Db.next_project_id db)
                (Db.max_step_id db (Db.next_project_id db)) 0 data)
      as [srows arows].
    simpl. split; [now apply find_project_app_new|]. split; [now right | reflexivity].
Qed.

(** X1: the STEPS row of the k-th step of the data (counting from 0) is
    appended behind the rows already stored; its step_id is the largest
    step_id the project had before plus k+1, and its relative_step counts
    from 1 again: X followed by k+1 padded to seven digits. *)
Theorem step_rows_numbered :
  forall db name data k s,
    nth_error data k = Some s ->
    exists pid row,
      Db.find_project (Db.projects (Db.insert_project_data db name data)) name
        = Some pid /\
      nth_error (Db.step_rows (Db.insert_project_data db name data))
                (List.length (Db.step_rows db) + k) = Some row /\
      Db.s_project_id row = pid /\
      Db.s_step_id row = Db.max_step_id db pid + k + 1 /\
      Db.relative_step row = Db.rel_step_str (k + 1) /\
      Db.step_name row = Asm.final_step_name (Asm.step_info s) /\
      Db.proc_step_name row = Asm.final_proc_step_name (Asm.step_info s) /\
      Db.proc_name row = Asm.final_proc_name (Asm.step_info s).
Proof.
  intros db name data k s H.
  destruct (insert_step_rows db name data) as (pid & Hf & _ & Hr).
  exists pid, (Db.step_row pid (Db.max_step_id db pid + k + 1) (0 + k + 1) s).
  split; [exact Hf|]. split.
  - rewrite Hr, nth_error_app2 by lia.
    replace (List.length (Db.step_rows db) + k - List.length (Db.step_rows db))
      with k by lia.
    now apply step_loop_nth.
  - simpl. repeat split; reflexivity.
Qed.

Lemma step_rows_numbered_witness :
  exists pid row,
    Db.find_project
      (Db.projects (Db.insert_project_data Sample.empty_db "P"
                      [Sample.step_of Sample.step1_card []])) "P" = Some pid /\
    nth_error (Db.step_rows (Db.insert_project_data Sample.empty_db "P"
                               [Sample.step_of Sample.step1_card []]))
              (List.length (Db.step_rows Sample.empty_db) + 0) = Some row /\
    Db.s_project_id row = pid /\
    Db.s_step_id row = Db.max_step_id Sample.empty_db pid + 0 + 1 /\
    Db.relative_step row = Db.rel_step_str (0 + 1) /\
    Db.step_name row
      = Asm.final_step_name (Asm.step_info (Sample.step_of Sample.step1_card [])) /\
    Db.proc_step_name row
      = Asm.final_proc_step_name (Asm.step_info (Sample.step_of Sample.step1_card [])) /\
    Db.proc_name row
      = Asm.final_proc_name (Asm.step_info (Sample.step_of Sample.step1_card [])).
Proof.
  apply (step_rows_numbered Sample.empty_db "P"
           [Sample.step_of Sample.step1_card []] 0
           (Sample.step_of Sample.step1_card [])).
  reflexivity.
Defined.

Lemma fold_max_step_ge_acc : forall pid l acc,
  acc <= fold_left
           (fun a r => if Nat.eqb (Db.s_project_id r) pid
                       then Nat.max a (Db.s_step_id r) else a) l acc.
Proof.
  intros pid. induction l as [|r l IH]; intros acc; simpl.
  - lia.
  - destruct (Nat.eqb (Db.s_project_id r) pid).
    + specialize (IH (Nat.max acc (Db.s_step_id r))). lia.
    + apply IH.
Qed.

Lemma fold_max_step_ge : forall pid l acc r,
  In r l -> Db.s_project_id r = pid ->
  Db.s_step_id r <=
  fold_left (fun a r => if Nat.eqb (Db.s_project_id r) pid
                        then Nat.max a (Db.s_step_id r) else a) l acc.
Proof.
  intros pid. induction l as [|r0 l IH]; intros acc r Hin Hp; simpl.
  - contradiction.
  - destruct Hin as [->|Hin].
    + rewrite Hp, Nat.eqb_refl.
      pose proof (fold_max_step_ge_acc pid l (Nat.max acc (Db.s_step_id r))).
      lia.
    + now apply IH.
Qed.

(** No stored step of a project has a step_id above [max_step_id]. *)
Lemma max_step_id_ge : forall db pid r,
  In r (Db.step_rows db) -> Db.s_project_id r = pid ->
  Db.s_step_id r <= Db.max_step_id db pid.
Proof. intros. unfold Db.max_step_id. now apply fold_max_step_ge. Qed.

(** X2: the key (project_id, step_id) of a row the insert appends differs
    from the key of every row before it in the relation, stored earlier or
    appended by the same insert: within one project the step_id of the
    later row is strictly larger. *)
Theorem step_ids_increase :
  forall db name data i j earlier later,
    nth_error (Db.step_rows (Db.insert_project_data db name data)) i
      = Some earlier ->
    nth_error (Db.step_rows (Db.insert_project_data db name data)) j
      = Some later ->
    i < j ->
    List.length (Db.step_rows db) <= j ->
    Db.s_project_id earlier = Db.s_project_id later ->
    Db.s_step_id earlier < Db.s_step_id later.
Proof.
  intros db name data i j earlier later Hi Hj Hlt Hlen Hp.
  destruct (insert_step_rows db name data) as (pid & _ & _ & Hr).
  rewrite Hr in Hi, Hj.
  rewrite nth_error_app2 in Hj by lia.
  assert (Hk : j - List.length (Db.step_rows db) < List.length data).
  { rewrite <- (step_loop_rows_length data pid (Db.max_step_id db pid) 0).
    apply nth_error_Some. congruence. }
  destruct (nth_error data (j - List.length (Db.step_rows db))) as [s|] eqn:Es;
    [|apply nth_error_None in Es; lia].
  rewrite (step_loop_nth _ _ _ _ _ _ Es) in Hj. inversion Hj; subst later.
  simpl in Hp |- *.
  destruct (Nat.lt_ge_cases i (List.length (Db.step_rows db))) as [Hold|Hnew].
  - rewrite nth_error_app1 in Hi by lia.
    apply nth_error_In in Hi.
    pose proof (max_step_id_ge db pid earlier Hi Hp). lia.
  - rewrite nth_error_app2 in Hi by lia.
    destruct (nth_error data (i - List.length (Db.step_rows db))) as [s'|] eqn:Es'.
    + rewrite (step_loop_nth _ _ _ _ _ _ Es') in Hi. inversion Hi; subst earlier.
      simpl. lia.
    + apply nth_error_None in Es'. lia.
Qed.

Lemma step_ids_increase_witness :
  let data := [Sample.step_of Sample.step1_card [];
               Sample.step_of Sample.step1_card []] in
  let rows := Db.step_rows (Db.insert_project_data Sample.empty_db "P" data) in
  exists earlier later,
    nth_error rows 0 = Some earlier /\ nth_error rows 1 = Some later /\
    Db.s_step_id earlier < Db.s_step_id later.
Proof.
  intros data rows.
  exists (Db.step_row 1 1 1 (Sample.step_of Sample.step1_card [])),
         (Db.step_row 1 2 2 (Sample.step_of Sample.step1_card [])).
  split; [reflexivity|]. split; [reflexivity|].
  apply (step_ids_increase Sample.empty_db "P" data 0 1);
    try reflexivity; simpl; lia.
Defined.

Lemma fold_max_step_loop : forall data pid sid rel,
  fold_left (fun a r => if Nat.eqb (Db.s_project_id r) pid
                        then Nat.max a (Db.s_step_id r) else a)
            (fst (Db.step_loop pid sid rel data)) sid
  = sid + List.length data.
Proof.
  induction data as [|s data IH]; intros pid sid rel; simpl.
  - lia.
  - specialize (IH pid (sid + 1) (rel + 1)).
    destruct (Db.step_loop pid (sid + 1) (rel + 1) data) as [srows arows].
    simpl in *. rewrite Nat.eqb_refl.
    replace (Nat.max sid (sid + 1)) with (sid + 1) by lia.
    rewrite IH. lia.
Qed.

(** After an insert the largest step_id of the project has grown by the
    number of steps inserted. *)
Lemma max_step_id_after_insert : forall db name data pid,
  Db.find_project (Db.projects (Db.insert_project_data db name data)) name
    = Some pid ->
  Db.max_step_id (Db.insert_project_data db name data) pid
  = Db.max_step_id db pid + List.length data.
Proof.
  intros db name data pid Hf.
  destruct (insert_step_rows db name data) as (pid' & Hf' & _ & Hr).
  assert (pid' = pid) by congruence. subst pid'.
  unfold Db.max_step_id at 1. rewrite Hr, fold_left_app.
  fold (Db.max_step_id db pid). apply fold_max_step_loop.
Qed.

Lemma insert_existing_project : forall db name data pid,
  Db.find_project (Db.projects db) name = Some pid ->
  Db.projects (Db.insert_project_data db name data) = Db.projects db.
Proof.
  intros db name data pid H. unfold Db.insert_project_data. rewrite H.
  match goal with
  | |- context [Db.step_loop ?a ?b ?c data] =>
      destruct (Db.step_loop a b c data) as [srows arows]
  end.
  reflexivity.
Qed.

(** X3: inserting again under the same project name creates no second
    PROJECTS row and uses the same project_id; the step_ids go on from
    where the first insert stopped, and relative_step starts again at
    X0000001. *)
Theorem reinsert_continues_step_ids :
  forall db name data1 data2 k s,
    nth_error data2 k = Some s ->
    let db1 := Db.insert_project_data db name data1 in
    let db2 := Db.insert_project_data db1 name data2 in
    exists pid row,
      Db.find_project (Db.projects db1) name = Some pid /\
      Db.projects db2 = Db.projects db1 /\
      nth_error (Db.step_rows db2)
                (List.length (Db.step_rows db) + List.length data1 + k)
        = Some row /\
      Db.s_project_id row = pid /\
      Db.s_step_id row = Db.max_step_id db pid + List.length data1 + k + 1 /\
      Db.relative_step row = Db.rel_step_str (k + 1).
Proof.
  intros db name data1 data2 k s H db1 db2.
  destruct (insert_step_rows db name data1) as (pid & Hf & _ & Hr).
  fold db1 in Hf, Hr.
  destruct (insert_step_rows db1 name data2) as (pid2 & _ & Hsame & Hr2).
  fold db2 in Hr2.
  assert (pid2 = pid).
  { destruct Hsame as [E | [E _]]; congruence. }
  subst pid2.
  exists pid, (Db.step_row pid (Db.max_step_id db1 pid + k + 1) (0 + k + 1) s).
  split; [exact Hf|].
  split; [now apply (insert_existing_project db1 name data2 pid)|].
  split.
  - rewrite Hr2.
    assert (Hl : List.length (Db.step_rows db1)
                 = List.length (Db.step_rows db) + List.length data1).
    { rewrite Hr, length_app, step_loop_rows_length. reflexivity. }
    rewrite nth_error_app2 by lia.
    replace (List.length (Db.step_rows db) + List.length data1 + k
             - List.length (Db.step_rows db1)) with k by lia.
    now apply step_loop_nth.
  - simpl. split; [reflexivity|]. split; [|reflexivity].
    unfold db1. rewrite (max_step_id_after_insert db name data1 pid Hf). lia.
Qed.

Lemma reinsert_continues_step_ids_witness :
  let one := [Sample.step_of Sample.step1_card []] in
  let db1 := Db.insert_project_data Sample.empty_db "P" one in
  let db2 := Db.insert_project_data db1 "P" one in
  exists pid row,
    Db.find_project (Db.projects db1) "P" = Some pid /\
    Db.projects db2 = Db.projects db1 /\
    nth_error (Db.step_rows db2)
              (List.length (Db.step_rows Sample.empty_db) + List.length one + 0)
      = Some row /\
    Db.s_project_id row = pid /\
    Db.s_step_id row
      = Db.max_step_id Sample.empty_db pid + List.length one + 0 + 1 /\
    Db.relative_step row = Db.rel_step_str (0 + 1).
Proof.
  intros one db1 db2.
  apply (reinsert_continues_step_ids Sample.empty_db "P" one one 0
           (Sample.step_of Sample.step1_card [])).
  reflexivity.
Defined.

Lemma dd_rows_ids : forall pid sid l st,
  map (fun r => (Db.a_project_id r, Db.a_step_id r, Db.ds_id r))
      (Db.dd_rows pid sid st l)
  = map (fun n => (pid, sid, n)) (seq (Db.ds_id_counter st + 1) (List.length l)).
Proof.
  induction l as [|dd l IH]; intros st.
  - reflexivity.
  - simpl Db.dd_rows.
    destruct (Db.dd_iter pid sid st dd) as [st' row] eqn:E.
    unfold Db.dd_iter in E.
    assert (Hrow : Db.a_project_id row = pid /\ Db.a_step_id row = sid /\
                   Db.ds_id row = Db.ds_id_counter st + 1 /\
                   Db.ds_id_counter st' = Db.ds_id_counter st + 1).
    { destruct (Db.label_truthy _) in E; inversion E; simpl; auto. }
    destruct Hrow as (H1 & H2 & H3 & H4).
    simpl. rewrite IH, H1, H2, H3, H4.
    replace (Db.ds_id_counter st + 1 + 1) with (S (Db.ds_id_counter st + 1)) by lia.
    reflexivity.
Qed.

(** X4: the DATA_ALLOCATIONS rows of one step carry the ds_id 1, 2, ..., n
    in the order of the step's DDs, one row for each DD, all with the
    project_id and step_id of the step: the key (project_id, step_id,
    ds_id) is never repeated within a step. *)
Theorem ds_ids_count_from_one :
  forall pid sid (l : list Asm.DDRec),
    map (fun r => (Db.a_project_id r, Db.a_step_id r, Db.ds_id r))
        (Db.dd_rows pid sid Db.dd_loop_init l)
    = map (fun n => (pid, sid, n)) (seq 1 (List.length l)) /\
    NoDup (map Db.ds_id (Db.dd_rows pid sid Db.dd_loop_init l)).
Proof.
  intros pid sid l.
  pose proof (dd_rows_ids pid sid l Db.dd_loop_init) as H. simpl in H.
  split; [exact H|].
  assert (Hd : map Db.ds_id (Db.dd_rows pid sid Db.dd_loop_init l)
               = seq 1 (List.length l)).
  { apply (f_equal (map snd)) in H. rewrite !map_map in H. simpl in H.
    rewrite map_id in H. exact H. }
  rewrite Hd. apply seq_NoDup.
Qed.

(* ================================================================== *)
(** ** Further properties: the step assembler *)
(* ================================================================== *)

(** A greedy repetition over a text made of class characters only gives
    back characters until the rest of the pattern matches: the match found
    is the one at the last place where the rest matches. *)
Lemma rep_greedy_last_chance : forall (R : Type) p b (k : string -> option R),
  Spec.all_chars p b = true ->
  (forall n, 1 <= n <= String.length b -> k (Py.drop n b) = None) ->
  Re.rep_greedy p 0 None b k = k b.
Proof.
  intros R p. induction b as [|c b IH]; intros k Hall Hfail.
  - reflexivity.
  - simpl in Hall. apply andb_true_iff in Hall. destruct Hall as [Hc Hall].
    simpl. rewrite Hc.
    rewrite IH; [| exact Hall |].
    + pose proof (Hfail 1 ltac:(simpl; lia)) as H1. simpl in H1.
      rewrite H1. reflexivity.
    + intros n Hn. apply (Hfail (S n)). simpl. lia.
Qed.

Lemma rep_greedy_backtrack :
  forall (R : Type) p a b (k : string -> option R) x,
    Spec.all_chars p (a ++ b) = true ->
    k b = Some x ->
    (forall n, 1 <= n <= String.length b -> k (Py.drop n b) = None) ->
    Re.rep_greedy p 0 None (a ++ b) k = Some x.
Proof.
  intros R p. induction a as [|c a IH]; intros b k x Hall Hk Hfail.
  - simpl. rewrite rep_greedy_last_chance by assumption. exact Hk.
  - simpl in Hall. apply andb_true_iff in Hall. destruct Hall as [Hc Hall].
    simpl. rewrite Hc. now rewrite (IH b k x Hall Hk Hfail).
Qed.

Lemma all_chars_app : forall p a b,
  Spec.all_chars p (a ++ b) = Spec.all_chars p a && Spec.all_chars p b.
Proof.
  induction a as [|c a IH]; intros b; simpl.
  - reflexivity.
  - now rewrite IH, andb_assoc.
Qed.

Lemma all_chars_drop : forall p n s,
  Spec.all_chars p s = true -> Spec.all_chars p (Py.drop n s) = true.
Proof.
  induction n as [|n IH]; intros s H.
  - destruct s; exact H.
  - destruct s as [|c s]; [exact H|]. simpl in *.
    apply andb_true_iff in H. apply IH, H.
Qed.

Lemma take_length : forall s, Py.take (String.length s) s = s.
Proof. induction s as [|c s IH]; simpl; [reflexivity | now rewrite IH]. Qed.

Lemma match_here_context : forall l p,
  Spec.all_chars Re.cls_dot l = true ->
  Spec.all_chars Re.cls_dot p = true ->
  Spec.all_chars SpecX.not_blank p = true ->
  Re.match_here Asm.re_context ("label=" ++ l ++ " proc=" ++ p)
  = Some (EmptyString, [(2, p); (1, l)]).
Proof.
  intros l p Hl Hp Hb.
  unfold Re.match_here, Asm.re_context.
  cbn [Re.seq Re.lit Re.exec append].
  rewrite !Ascii.eqb_refl.
  change (String " " (String "p" (String "r" (String "o" (String "c" (String "=" p))))))
    with (" proc=" ++ p).
  apply rep_greedy_backtrack.
  - rewrite all_chars_app, Hl. simpl. exact Hp.
  - cbn [append]. rewrite !Ascii.eqb_refl.
    rewrite <- (append_nil_r p) at 1.
    apply rep_greedy_run; [exact Hp | reflexivity | lia | exact I |].
    simpl String.length at 2. rewrite Nat.sub_0_r, take_length.
    change (String " " (String "p" (String "r" (String "o" (String "c" (String "=" p))))))
      with (" proc=" ++ p).
    now rewrite take_append_exact.
  - intros n Hn. cbn [append].
    do 6 (destruct n as [|n]; [simpl in Hn; try lia; reflexivity|]).
    cbn [Py.drop].
    pose proof (all_chars_drop _ n p Hb) as Hd.
    destruct (Py.drop n p) as [|c s']; [reflexivity|].
    simpl in Hd. apply andb_true_iff in Hd. destruct Hd as [Hc _].
    unfold SpecX.not_blank in Hc. apply negb_true_iff in Hc.
    rewrite Ascii.eqb_sym, Hc. reflexivity.
Qed.

(** X5: the PROC_START sentinel as [expand_procedure] writes it is read
    back by the assembler: for a label and a procedure name without a line
    break, the name also without a blank, the frame pushed holds exactly
    this label and this name, and the PROC_END that closes the expansion
    takes the frame off again. *)
Theorem proc_start_sentinel_round_trip :
  forall parse stack m label proc,
    Spec.all_chars Re.cls_dot label = true ->
    Spec.all_chars Re.cls_dot proc = true ->
    Spec.all_chars SpecX.not_blank proc = true ->
    let sentinel := "*PROC_START* label=" ++ label ++ " proc=" ++ proc in
    Asm.context_frame sentinel = Some (Asm.mk_frame label proc) /\
    Asm.process_stmt parse (stack, m) sentinel
      = ((stack ++ [Asm.mk_frame label proc])%list, m) /\
    Asm.run parse (stack, m) [sentinel; "*PROC_END*"] = (stack, m).
Proof.
  intros parse stack m label proc Hl Hp Hb sentinel.
  assert (Hc : Asm.context_frame sentinel = Some (Asm.mk_frame label proc)).
  { unfold Asm.context_frame, Re.search, sentinel.
    change ("*PROC_START* label=" ++ label ++ " proc=" ++ proc)
      with (String "*" (String "P" (String "R" (String "O" (String "C"
             (String "_" (String "S" (String "T" (String "A" (String "R"
             (String "T" (String "*" (String " "
                ("label=" ++ label ++ " proc=" ++ proc)))))))))))))).
    rewrite !search_from_skip by reflexivity.
    rewrite (search_from_here _ _ _ _ _ (match_here_context label proc Hl Hp Hb)).
    reflexivity. }
  assert (Hs : Asm.process_stmt parse (stack, m) sentinel
               = ((stack ++ [Asm.mk_frame label proc])%list, m)).
  { unfold Asm.process_stmt.
    change (Py.startswith sentinel "*PROC_START*") with true.
    cbv iota. now rewrite Hc. }
  split; [exact Hc|]. split; [exact Hs|].
  rewrite run_cons, Hs, run_cons.
  change (Asm.process_stmt parse ((stack ++ [Asm.mk_frame label proc])%list, m)
            "*PROC_END*")
    with (removelast (stack ++ [Asm.mk_frame label proc])%list, m).
  now rewrite removelast_last.
Qed.

Lemma proc_start_sentinel_round_trip_witness :
  let sentinel := "*PROC_START* label=" ++ "CALL" ++ " proc=" ++ "MYPROC" in
  Asm.context_frame sentinel = Some (Asm.mk_frame "CALL" "MYPROC") /\
  Asm.process_stmt Sample.parse ([], Asm.new_manager) sentinel
    = (([] ++ [Asm.mk_frame "CALL" "MYPROC"])%list, Asm.new_manager) /\
  Asm.run Sample.parse ([], Asm.new_manager) [sentinel; "*PROC_END*"]
    = ([], Asm.new_manager).
Proof.
  apply (proc_start_sentinel_round_trip Sample.parse [] Asm.new_manager
           "CALL" "MYPROC"); reflexivity.
Defined.

Lemma update_last_snoc : forall (A : Type) (f : A -> A) l x,
  Asm.update_last f (l ++ [x]) = (l ++ [f x])%list.
Proof.
  induction l as [|y l IH]; intros x.
  - reflexivity.
  - change ((y :: l) ++ [x])%list with (y :: (l ++ [x]))%list.
    destruct (l ++ [x])%list as [|z t] eqn:E.
    + destruct l; discriminate.
    + change (Asm.update_last f (y :: z :: t))
        with (y :: Asm.update_last f (z :: t)).
      rewrite <- E, IH. reflexivity.
Qed.

Lemma update_nth_snoc : forall (A : Type) (f : A -> A) l x,
  Asm.update_nth f (List.length l) (l ++ [x]) = (l ++ [f x])%list.
Proof.
  induction l as [|y l IH]; intros x; simpl.
  - reflexivity.
  - now rewrite IH.
Qed.

Lemma update_last_length : forall (A : Type) (f : A -> A) l,
  List.length (Asm.update_last f l) = List.length l.
Proof.
  induction l as [|y l IH]; [reflexivity|].
  destruct l as [|z t]; [reflexivity|].
  change (Asm.update_last f (y :: z :: t)) with (y :: Asm.update_last f (z :: t)).
  simpl in *. now rewrite IH.
Qed.

Lemma update_nth_length : forall (A : Type) (f : A -> A) l i,
  List.length (Asm.update_nth f i l) = List.length l.
Proof.
  induction l as [|y l IH]; intros i; destruct i; simpl; auto.
Qed.

Lemma last_some_snoc : forall (A : Type) (l : list A) x,
  last (map Some (l ++ [x])) None = Some x.
Proof. intros. rewrite map_app. simpl. apply last_last. Qed.

Lemma payload_is_no_proc_sentinel : forall stmt,
  Py.startswith stmt "*PAYLOAD*" = true ->
  Py.startswith stmt "*PROC_START*" = false /\
  Py.startswith stmt "*PROC_END*" = false.
Proof.
  intros stmt H. unfold Py.startswith in *.
  destruct stmt as [|c0 [|c1 [|c2 s]]]; cbn [String.prefix] in H;
    repeat match type of H with
           | context [ascii_dec ?a ?b] =>
               destruct (ascii_dec a b); [subst|discriminate]
           end; try discriminate.
  split; reflexivity.
Qed.

Section AssemblerMore.
Variable parse : string -> option Asm.Card.

Lemma step_cards_map : forall m,
  SpecX.step_cards m = map Asm.info_card (map Asm.step_info (Asm.steps m)).
Proof. intros. unfold SpecX.step_cards. now rewrite map_map. Qed.

Lemma process_stmt_cards : forall acc stmt,
  SpecX.step_cards (snd (Asm.process_stmt parse acc stmt))
  = (SpecX.step_cards (snd acc) ++ SpecX.exec_cards parse [stmt])%list.
Proof.
  intros [stack m] stmt. rewrite !step_cards_map.
  unfold SpecX.exec_cards, Spec.is_sentinel, Asm.process_stmt.
  cbn [flat_map snd]. rewrite app_nil_r.
  destruct (Py.startswith stmt "*PROC_START*").
  { destruct (Asm.context_frame stmt); simpl; now rewrite app_nil_r. }
  destruct (Py.startswith stmt "*PROC_END*").
  { simpl; now rewrite app_nil_r. }
  destruct (Py.startswith stmt "*PAYLOAD*").
  { simpl. rewrite app_nil_r. unfold Asm.add_payload.
    destruct (last (map Some (Asm.steps m)) None) as [s|]; [|reflexivity].
    destruct (Asm.dds s); [reflexivity|]. simpl.
    now rewrite map_update_last_info. }
  simpl orb. cbv iota.
  destruct (parse stmt) as [tree|].
  - destruct (Asm.c_type tree); cbn [snd Asm.steps].
    + rewrite !map_app. f_equal. unfold Asm.apply_context.
      destruct (Asm.top stack); reflexivity.
    + rewrite app_nil_r.
      destruct (Asm.current_step m); [|reflexivity]. simpl.
      now rewrite map_update_nth_info.
  - simpl. now rewrite app_nil_r.
Qed.

Lemma exec_cards_cons : forall stmt l,
  SpecX.exec_cards parse (stmt :: l)
  = (SpecX.exec_cards parse [stmt] ++ SpecX.exec_cards parse l)%list.
Proof.
  intros. unfold SpecX.exec_cards. simpl. now rewrite app_nil_r.
Qed.

Lemma run_cards : forall l acc,
  SpecX.step_cards (snd (Asm.run parse acc l))
  = (SpecX.step_cards (snd acc) ++ SpecX.exec_cards parse l)%list.
Proof.
  induction l as [|stmt l IH]; intros acc.
  - simpl. now rewrite app_nil_r.
  - rewrite run_cons, IH, (exec_cards_cons stmt l), process_stmt_cards.
    now rewrite <- app_assoc.
Qed.

Lemma process_stmt_current_is_last : forall acc stmt,
  SpecX.current_is_last (snd acc) ->
  SpecX.current_is_last (snd (Asm.process_stmt parse acc stmt)).
Proof.
  intros [stack m] stmt H. unfold Asm.process_stmt. simpl in H.
  destruct (Py.startswith stmt "*PROC_START*").
  { destruct (Asm.context_frame stmt); exact H. }
  destruct (Py.startswith stmt "*PROC_END*"); [exact H|].
  destruct (Py.startswith stmt "*PAYLOAD*").
  { simpl. unfold Asm.add_payload.
    destruct (last (map Some (Asm.steps m)) None) as [s|]; [|exact H].
    destruct (Asm.dds s); [exact H|].
    unfold SpecX.current_is_last in *. simpl.
    rewrite update_last_length.
    destruct (Asm.steps m) as [|s0 t] eqn:E; [exact H|].
    destruct (Asm.update_last _ (s0 :: t)) eqn:E2; [|exact H].
    apply (f_equal (@List.length _)) in E2.
    rewrite update_last_length in E2. discriminate. }
  destruct (parse stmt) as [tree|]; [|exact H].
  destruct (Asm.c_type tree).
  - unfold SpecX.current_is_last. simpl.
    destruct (Asm.steps m ++ _)%list eqn:E.
    + destruct (Asm.steps m); discriminate.
    + rewrite <- E, length_app. simpl. f_equal. lia.
  - destruct (Asm.current_step m) eqn:C; [|exact H].
    unfold SpecX.current_is_last in *. simpl.
    rewrite update_nth_length.
    destruct (Asm.steps m) as [|s0 t] eqn:E; [congruence|].
    destruct (Asm.update_nth _ n (s0 :: t)) eqn:E2.
    + apply (f_equal (@List.length _)) in E2.
      rewrite update_nth_length in E2. discriminate.
    + rewrite C in H. exact H.
Qed.

Lemma run_current_is_last : forall l acc,
  SpecX.current_is_last (snd acc) ->
  SpecX.current_is_last (snd (Asm.run parse acc l)).
Proof.
  induction l as [|stmt l IH]; intros acc H; [exact H|].
  rewrite run_cons. apply IH. now apply process_stmt_current_is_last.
Qed.

End AssemblerMore.

(** X6: the step list holds one step for every statement of the stream
    that parses to an EXEC card, in the order of the stream and behind the
    steps the manager already had; sentinels, DD cards and statements that
    do not parse add no step and remove none. *)
Theorem steps_follow_exec_statements :
  forall parse m results_list,
    SpecX.step_cards (Asm.process_results parse m results_list)
    = (SpecX.step_cards m ++ SpecX.exec_cards parse results_list)%list.
Proof.
  intros parse m l. unfold Asm.process_results.
  apply (run_cards parse l ([], m)).
Qed.

(** X7: in a run that starts with a fresh manager, a DD card that parses
    once a step exists is appended to the DD list of the last step -- the
    step of the most recent EXEC -- and no other step changes. *)
Theorem dd_joins_latest_step :
  forall parse pre stmt tree ss s,
    Asm.steps (Asm.process_results parse Asm.new_manager pre) = (ss ++ [s])%list ->
    Spec.is_sentinel stmt = false ->
    parse stmt = Some tree ->
    Asm.c_type tree = Asm.DD ->
    Asm.steps (Asm.process_results parse Asm.new_manager (pre ++ [stmt]))
    = (ss ++ [{| Asm.step_info := Asm.step_info s;
                 Asm.dds := (Asm.dds s ++ [Asm.mk_dd tree None])%list |}])%list.
Proof.
  intros parse pre stmt tree ss s Hsteps Hs Hp Ht.
  unfold Asm.process_results in *. rewrite run_app.
  pose proof (run_current_is_last parse pre ([], Asm.new_manager) eq_refl) as Hinv.
  destruct (Asm.run parse ([], Asm.new_manager) pre) as [stack m1].
  simpl in Hsteps, Hinv.
  unfold SpecX.current_is_last in Hinv. rewrite Hsteps in Hinv.
  destruct (ss ++ [s])%list eqn:E; [destruct ss; discriminate|].
  rewrite <- E, length_app in Hinv. simpl in Hinv.
  replace (List.length ss + 1 - 1) with (List.length ss) in Hinv by lia.
  unfold Spec.is_sentinel in Hs.
  apply orb_false_iff in Hs. destruct Hs as [Hs H3].
  apply orb_false_iff in Hs. destruct Hs as [H1 H2].
  rewrite run_cons. unfold Asm.process_stmt.
  rewrite H1, H2, H3, Hp, Ht, Hinv. simpl.
  rewrite Hsteps, <- E. apply update_nth_snoc.
Qed.

Lemma dd_joins_latest_step_witness :
  Asm.steps (Asm.process_results Sample.parse Asm.new_manager
               (["//STEP1 EXEC PGM=IEFBR14"] ++ ["//INPUT DD DSN=A"]))
  = ([] ++ [{| Asm.step_info := Asm.step_info (Sample.step_of Sample.step1_card []);
               Asm.dds := (Asm.dds (Sample.step_of Sample.step1_card [])
                             ++ [Asm.mk_dd (Asm.dd_card Sample.input_dd) None])%list |}])%list.
Proof.
  apply (dd_joins_latest_step Sample.parse ["//STEP1 EXEC PGM=IEFBR14"]
           "//INPUT DD DSN=A" (Asm.dd_card Sample.input_dd) []
           (Sample.step_of Sample.step1_card [])); reflexivity.
Defined.

Section AssemblerDiagnostics.
Variable parse : string -> option Asm.Card.

Lemma process_stmt_diagnostics : forall acc stmt,
  Asm.diagnostics (snd (Asm.process_stmt parse acc stmt))
  = (Asm.diagnostics (snd acc)
     ++ filter (SpecX.fails_to_parse parse) [stmt])%list.
Proof.
  intros [stack m] stmt.
  unfold SpecX.fails_to_parse, Spec.is_sentinel, Asm.process_stmt.
  cbn [filter snd].
  destruct (Py.startswith stmt "*PROC_START*").
  { destruct (Asm.context_frame stmt); simpl; now rewrite app_nil_r. }
  destruct (Py.startswith stmt "*PROC_END*").
  { simpl; now rewrite app_nil_r. }
  destruct (Py.startswith stmt "*PAYLOAD*").
  { simpl. rewrite app_nil_r. unfold Asm.add_payload.
    destruct (last (map Some (Asm.steps m)) None) as [s|]; [|reflexivity].
    destruct (Asm.dds s); reflexivity. }
  destruct (parse stmt) as [tree|]; simpl.
  - rewrite app_nil_r. destruct (Asm.c_type tree); [reflexivity|].
    destruct (Asm.current_step m); reflexivity.
  - reflexivity.
Qed.

Lemma run_diagnostics : forall l acc,
  Asm.diagnostics (snd (Asm.run parse acc l))
  = (Asm.diagnostics (snd acc) ++ filter (SpecX.fails_to_parse parse) l)%list.
Proof.
  induction l as [|stmt l IH]; intros acc.
  - simpl. now rewrite app_nil_r.
  - rewrite run_cons, IH, process_stmt_diagnostics, <- app_assoc.
    f_equal. simpl. now destruct (SpecX.fails_to_parse parse stmt).
Qed.

Lemma process_stmt_fails : forall stack m stmt,
  SpecX.fails_to_parse parse stmt = true ->
  Asm.process_stmt parse (stack, m) stmt
  = (stack, {| Asm.steps := Asm.steps m;
               Asm.current_step := Asm.current_step m;
               Asm.diagnostics := (Asm.diagnostics m ++ [stmt])%list |}).
Proof.
  intros stack m stmt H.
  unfold SpecX.fails_to_parse, Spec.is_sentinel in H.
  apply andb_true_iff in H. destruct H as [Hs Hp].
  apply negb_true_iff in Hs.
  apply orb_false_iff in Hs. destruct Hs as [Hs H3].
  apply orb_false_iff in Hs. destruct Hs as [H1 H2].
  unfold Asm.process_stmt. rewrite H1, H2, H3.
  destruct (parse stmt); [discriminate|reflexivity].
Qed.

(** The steps and the current step never depend on the diagnostics. *)
Lemma process_stmt_same_steps : forall stack m m' stmt,
  SpecX.same_steps m m' ->
  fst (Asm.process_stmt parse (stack, m) stmt)
  = fst (Asm.process_stmt parse (stack, m') stmt) /\
  SpecX.same_steps (snd (Asm.process_stmt parse (stack, m) stmt))
                   (snd (Asm.process_stmt parse (stack, m') stmt)).
Proof.
  intros stack m m' stmt [Hs Hc]. unfold Asm.process_stmt, SpecX.same_steps.
  destruct (Py.startswith stmt "*PROC_START*").
  { destruct (Asm.context_frame stmt); simpl; auto. }
  destruct (Py.startswith stmt "*PROC_END*"); [simpl; auto|].
  destruct (Py.startswith stmt "*PAYLOAD*").
  { simpl. unfold Asm.add_payload. rewrite <- Hs.
    destruct (last (map Some (Asm.steps m)) None) as [s|]; [|auto].
    destruct (Asm.dds s); simpl; auto. }
  destruct (parse stmt) as [tree|]; [|simpl; auto].
  destruct (Asm.c_type tree); simpl.
  - rewrite Hs. auto.
  - rewrite <- Hc. destruct (Asm.current_step m) eqn:C; simpl.
    + rewrite Hs. repeat split; congruence.
    + repeat split; congruence.
Qed.

Lemma run_same_steps : forall l stack m m',
  SpecX.same_steps m m' ->
  SpecX.same_steps (snd (Asm.run parse (stack, m) l))
                   (snd (Asm.run parse (stack, m') l)).
Proof.
  induction l as [|stmt l IH]; intros stack m m' H; [exact H|].
  rewrite !run_cons.
  destruct (process_stmt_same_steps stack m m' stmt H) as [Hf Hs].
  destruct (Asm.process_stmt parse (stack, m) stmt) as [st1 m1].
  destruct (Asm.process_stmt parse (stack, m') stmt) as [st2 m2].
  simpl in Hf, Hs. subst st2. now apply IH.
Qed.

End AssemblerDiagnostics.

(** X8: the diagnostics of a run are the statements on which the parser
    fails -- each one once, in the order of the stream, behind those the
    manager already held; sentinels are never reported and no statement
    that parses is. *)
Theorem diagnostics_are_the_parse_failures :
  forall parse m results_list,
    Asm.diagnostics (Asm.process_results parse m results_list)
    = (Asm.diagnostics m
       ++ filter (SpecX.fails_to_parse parse) results_list)%list.
Proof.
  intros parse m l. unfold Asm.process_results.
  apply (run_diagnostics parse l ([], m)).
Qed.

(** X9: a statement the parser rejects is skipped: the run goes on with
    the statements behind it, and the steps it builds are those of the
    stream without that statement. *)
Theorem parse_failure_changes_no_step :
  forall parse m pre bad post,
    SpecX.fails_to_parse parse bad = true ->
    Asm.steps (Asm.process_results parse m (pre ++ bad :: post))
    = Asm.steps (Asm.process_results parse m (pre ++ post)).
Proof.
  intros parse m pre bad post H. unfold Asm.process_results.
  rewrite !run_app, run_cons.
  destruct (Asm.run parse ([], m) pre) as [stack m1].
  rewrite (process_stmt_fails parse stack m1 bad H).
  apply (run_same_steps parse post stack). split; reflexivity.
Qed.

Lemma parse_failure_changes_no_step_witness :
  SpecX.fails_to_parse Sample.parse "//BAD CARD" = true /\
  Asm.steps (Asm.process_results Sample.parse Asm.new_manager
               (["//STEP1 EXEC PGM=IEFBR14"]
                  ++ "//BAD CARD" :: ["//INPUT DD DSN=A"]))
  = Asm.steps (Asm.process_results Sample.parse Asm.new_manager
                 (["//STEP1 EXEC PGM=IEFBR14"] ++ ["//INPUT DD DSN=A"])).
Proof.
  split; [reflexivity|].
  apply (parse_failure_changes_no_step Sample.parse Asm.new_manager
           ["//STEP1 EXEC PGM=IEFBR14"] "//BAD CARD" ["//INPUT DD DSN=A"]).
  reflexivity.
Defined.

Lemma prefix_append_self : forall a b, String.prefix a (a ++ b) = true.
Proof.
  induction a as [|c a IH]; intros b.
  - apply prefix_nil.
  - simpl. destruct (ascii_dec c c); [apply IH | congruence].
Qed.

Lemma payload_text_round_trip : forall text,
  Py.find "*PAYLOAD* " text = None ->
  Py.replace "*PAYLOAD* " EmptyString ("*PAYLOAD* " ++ text) = text.
Proof.
  intros text H.
  rewrite (replace_leftmost "*PAYLOAD* " EmptyString ("*PAYLOAD* " ++ text) 0).
  - change (Py.replace "*PAYLOAD* " EmptyString text = text).
    apply replace_no_occurrence; [discriminate|exact H].
  - discriminate.
  - change ("*PAYLOAD* " ++ text) with (String "*" ("PAYLOAD* " ++ text)).
    rewrite find_cons.
    change (String "*" ("PAYLOAD* " ++ text)) with ("*PAYLOAD* " ++ text).
    now rewrite prefix_append_self.
Qed.

(** X10: the payload text the preprocessor wraps in a PAYLOAD sentinel
    comes back unchanged, provided the text does not itself contain the
    sentinel prefix, and is appended to the payload list of the last DD of
    the last step; every other step and DD stays as it was. *)
Theorem payload_reaches_last_dd :
  forall parse stack m ss s ds d text,
    Asm.steps m = (ss ++ [s])%list ->
    Asm.dds s = (ds ++ [d])%list ->
    Py.find "*PAYLOAD* " text = None ->
    Asm.process_stmt parse (stack, m) ("*PAYLOAD* " ++ text)
    = (stack,
       {| Asm.steps :=
            (ss ++ [{| Asm.step_info := Asm.step_info s;
                       Asm.dds := (ds ++ [Asm.append_payload text d])%list |}])%list;
          Asm.current_step := Asm.current_step m;
          Asm.diagnostics := Asm.diagnostics m |}).
Proof.
  intros parse stack m ss s ds d text Hs Hd Hf.
  unfold Asm.process_stmt.
  change (Py.startswith ("*PAYLOAD* " ++ text) "*PROC_START*") with false.
  change (Py.startswith ("*PAYLOAD* " ++ text) "*PROC_END*") with false.
  replace (Py.startswith ("*PAYLOAD* " ++ text) "*PAYLOAD*") with true
    by (symmetry; apply (prefix_append_self "*PAYLOAD*" (" " ++ text))).
  cbv iota. rewrite (payload_text_round_trip text Hf).
  unfold Asm.add_payload. rewrite Hs, last_some_snoc, Hd.
  destruct (ds ++ [d])%list eqn:E; [destruct ds; discriminate|].
  rewrite update_last_snoc. cbv beta.
  rewrite Hd, <- E, update_last_snoc. reflexivity.
Qed.

Lemma payload_reaches_last_dd_witness :
  Asm.process_stmt Sample.parse
    ([], {| Asm.steps := [] ++ [Sample.step_of Sample.step1_card [Sample.input_dd]];
            Asm.current_step := Some 0;
            Asm.diagnostics := [] |})
    ("*PAYLOAD* " ++ "DATA LINE")
  = ([],
     {| Asm.steps :=
          ([] ++ [{| Asm.step_info :=
                       Asm.step_info (Sample.step_of Sample.step1_card [Sample.input_dd]);
                     Asm.dds := ([] ++ [Asm.append_payload "DATA LINE" Sample.input_dd])%list |}])%list;
        Asm.current_step := Some 0;
        Asm.diagnostics := [] |}).
Proof.
  apply (payload_reaches_last_dd Sample.parse []
           {| Asm.steps := [] ++ [Sample.step_of Sample.step1_card [Sample.input_dd]];
              Asm.current_step := Some 0;
              Asm.diagnostics := [] |}
           [] (Sample.step_of Sample.step1_card [Sample.input_dd])
           [] Sample.input_dd "DATA LINE"); reflexivity.
Defined.

(** X11: a PAYLOAD sentinel that arrives while there is no step, or while
    the last step has no DD yet, is discarded: the manager is unchanged and
    nothing is reported. *)
Theorem payload_without_dd_is_dropped :
  forall parse stack m stmt,
    Py.startswith stmt "*PAYLOAD*" = true ->
    (Asm.steps m = [] \/
     exists ss s, Asm.steps m = (ss ++ [s])%list /\ Asm.dds s = []) ->
    Asm.process_stmt parse (stack, m) stmt = (stack, m).
Proof.
  intros parse stack m stmt H Hm.
  destruct (payload_is_no_proc_sentinel stmt H) as [H1 H2].
  unfold Asm.process_stmt. rewrite H1, H2, H. unfold Asm.add_payload.
  destruct Hm as [Hm | (ss & s & Hm & Hd)].
  - now rewrite Hm.
  - now rewrite Hm, last_some_snoc, Hd.
Qed.

Lemma payload_without_dd_is_dropped_witness :
  Asm.process_stmt Sample.parse ([], Asm.new_manager) "*PAYLOAD* DATA"
  = ([], Asm.new_manager).
Proof.
  apply (payload_without_dd_is_dropped Sample.parse [] Asm.new_manager
           "*PAYLOAD* DATA"); [reflexivity | left; reflexivity].
Defined.

(* ================================================================== *)
(** ** Further properties: the member search *)
(* ================================================================== *)

Lemma search_skips_missing : forall h member_name before rest,
  (forall pds, In pds before ->
     Pds.path_exists h (Pds.pds_path pds member_name) = false) ->
  Pds.search h member_name (before ++ rest) = Pds.search h member_name rest.
Proof.
  intros h member_name before rest. induction before as [|b before IH]; intros H.
  - reflexivity.
  - simpl. rewrite (H b (or_introl eq_refl)). apply IH.
    intros pds Hin. apply H. now right.
Qed.

(** X12: when no library of the list holds the member, the only line
    printed is the message that the member was not found; nothing is
    read. *)
Theorem member_in_no_library :
  forall h member_name pds_libraries,
    (forall pds, In pds pds_libraries ->
       Pds.path_exists h (Pds.pds_path pds member_name) = false) ->
    Pds.find_and_echo_member h member_name pds_libraries
    = ["Member " ++ member_name ++ " not found in provided libraries."].
Proof.
  intros h member_name libs H. unfold Pds.find_and_echo_member.
  rewrite <- (app_nil_r libs), (search_skips_missing h member_name libs [] H).
  reflexivity.
Qed.

Lemma member_in_no_library_witness :
  Pds.find_and_echo_member
    (Pds.mk_host (fun _ => false) (fun _ => ([], None)))
    "MYMEMBER" ["USER.TEST.PDS"; "SYS1.PROCLIB"]
  = ["Member " ++ "MYMEMBER" ++ " not found in provided libraries."].
Proof.
  apply (member_in_no_library
           (Pds.mk_host (fun _ => false) (fun _ => ([], None)))
           "MYMEMBER" ["USER.TEST.PDS"; "SYS1.PROCLIB"]).
  intros pds _. reflexivity.
Defined.

(** X13: the first library of the list that holds the member decides the
    output: its header line and the lines of the member, each without its
    trailing white space.  The libraries behind it are not consulted, and
    no not-found message follows. *)
Theorem first_library_with_member_wins :
  forall h member_name before pds after lines,
    (forall b, In b before ->
       Pds.path_exists h (Pds.pds_path b member_name) = false) ->
    Pds.path_exists h (Pds.pds_path pds member_name) = true ->
    Pds.read_member h (Pds.pds_path pds member_name) = (lines, None) ->
    Pds.find_and_echo_member h member_name (before ++ pds :: after)
    = ("--- Found " ++ member_name ++ " in " ++ pds ++ " ---")
        :: map Py.rstrip lines.
Proof.
  intros h member_name before pds after lines Hb He Hr.
  unfold Pds.find_and_echo_member.
  rewrite (search_skips_missing h member_name before (pds :: after) Hb).
  simpl. rewrite He, Hr. reflexivity.
Qed.

Lemma first_library_with_member_wins_witness :
  Pds.find_and_echo_member
    (Pds.mk_host (String.eqb "//'SYS1.PROCLIB(MYMEMBER)'")
                 (fun _ => (["//STEP1 EXEC PGM=IEFBR14   "], None)))
    "MYMEMBER" (["USER.TEST.PDS"] ++ "SYS1.PROCLIB" :: ["APP.SOURCE.LIB"])
  = ("--- Found " ++ "MYMEMBER" ++ " in " ++ "SYS1.PROCLIB" ++ " ---")
      :: map Py.rstrip ["//STEP1 EXEC PGM=IEFBR14   "].
Proof.
  apply (first_library_with_member_wins
           (Pds.mk_host (String.eqb "//'SYS1.PROCLIB(MYMEMBER)'")
                        (fun _ => (["//STEP1 EXEC PGM=IEFBR14   "], None)))
           "MYMEMBER" ["USER.TEST.PDS"] "SYS1.PROCLIB" ["APP.SOURCE.LIB"]
           ["//STEP1 EXEC PGM=IEFBR14   "]).
  - intros b [<-|[]]. reflexivity.
  - reflexivity.
  - reflexivity.
Defined.

(** X14: when reading the first library that holds the member fails, the
    search stops there: after the header and the lines read so far the
    error is printed, then the not-found message, although the member
    exists -- and also when a later library holds a readable copy. *)
Theorem read_error_ends_search_as_not_found :
  forall h member_name before pds after lines e,
    (forall b, In b before ->
       Pds.path_exists h (Pds.pds_path b member_name) = false) ->
    Pds.path_exists h (Pds.pds_path pds member_name) = true ->
    Pds.read_member h (Pds.pds_path pds member_name) = (lines, Some e) ->
    Pds.find_and_echo_member h member_name (before ++ pds :: after)
    = (("--- Found " ++ member_name ++ " in " ++ pds ++ " ---")%string
         :: map Py.rstrip lines
         ++ [("Error reading member: " ++ e)%string;
             ("Member " ++ member_name ++ " not found in provided libraries.")%string])%list.
Proof.
  intros h member_name before pds after lines e Hb He Hr.
  unfold Pds.find_and_echo_member.
  rewrite (search_skips_missing h member_name before (pds :: after) Hb).
  simpl. rewrite He, Hr. simpl. rewrite <- app_assoc. reflexivity.
Qed.

Lemma read_error_ends_search_as_not_found_witness :
  Pds.find_and_echo_member
    (Pds.mk_host (fun _ => true)
       (fun p => if String.eqb p "//'USER.TEST.PDS(MYMEMBER)'"
                 then (["//A "], Some "denied") else (["//B"], None)))
    "MYMEMBER" ([] ++ "USER.TEST.PDS" :: ["SYS1.PROCLIB"])
  = (("--- Found " ++ "MYMEMBER" ++ " in " ++ "USER.TEST.PDS" ++ " ---")%string
       :: map Py.rstrip ["//A "]
       ++ [("Error reading member: " ++ "denied")%string;
           ("Member " ++ "MYMEMBER" ++ " not found in provided libraries.")%string])%list.
Proof.
  apply (read_error_ends_search_as_not_found
           (Pds.mk_host (fun _ => true)
              (fun p => if String.eqb p "//'USER.TEST.PDS(MYMEMBER)'"
                        then (["//A "], Some "denied") else (["//B"], None)))
           "MYMEMBER" [] "USER.TEST.PDS" ["SYS1.PROCLIB"] ["//A "] "denied").
  - intros b [].
  - reflexivity.
  - reflexivity.
Defined.

(* ================================================================== *)
(** ** Further properties: the preprocessor's helpers *)
(* ================================================================== *)

Lemma split_params_nonempty : forall s cur q, Pre.split_params s cur q <> [].
Proof.
  induction s as [|c s IH]; intros cur q; simpl.
  - discriminate.
  - destruct (Ascii.eqb c "," && _); [discriminate | apply IH].
Qed.

Lemma join_cons : forall sep p ps,
  ps <> [] -> Py.join sep (p :: ps) = p ++ sep ++ Py.join sep ps.
Proof. intros sep p [|q ps] H; [congruence | reflexivity]. Qed.

Lemma split_params_join : forall s cur q,
  Py.join "," (Pre.split_params s cur q) = cur ++ s.
Proof.
  induction s as [|c s IH]; intros cur q.
  - simpl. now rewrite append_nil_r.
  - cbn [Pre.split_params].
    destruct (Ascii.eqb c "," && _) eqn:E.
    + apply andb_true_iff in E. destruct E as [E _].
      apply Ascii.eqb_eq in E. subst c.
      rewrite join_cons by apply split_params_nonempty.
      rewrite IH. reflexivity.
    + rewrite IH, append_assoc. reflexivity.
Qed.

(** X15: the first loop of [parse_params] loses no character: joining the
    parts it produces with commas gives the parameter string back, quoted
    commas included. *)
Theorem split_params_round_trip :
  forall param_string,
    Py.join "," (Pre.split_params param_string EmptyString false)
    = param_string.
Proof. intros s. apply (split_params_join s EmptyString false). Qed.

Lemma upper_char_idem : forall c, Py.upper_char (Py.upper_char c) = Py.upper_char c.
Proof. destruct c as [[] [] [] [] [] [] [] []]; reflexivity. Qed.

Lemma upper_idem : forall s, Py.upper (Py.upper s) = Py.upper s.
Proof.
  induction s as [|c s IH]; simpl; [reflexivity|].
  now rewrite upper_char_idem, IH.
Qed.

Lemma dict_set_keys : forall (V : Type) (d : Dict.t V) k v,
  Dict.keys (Dict.set d k v) = Dict.keys d /\ In k (Dict.keys d) \/
  Dict.keys (Dict.set d k v) = (Dict.keys d ++ [k])%list /\ ~ In k (Dict.keys d).
Proof.
  induction d as [|[k' v'] d IH]; intros k v; simpl.
  - right. split; [reflexivity | tauto].
  - destruct (String.eqb k k') eqn:E.
    + apply String.eqb_eq in E. subst. left. simpl. auto.
    + apply String.eqb_neq in E.
      destruct (IH k v) as [[H1 H2] | [H1 H2]].
      * left. unfold Dict.keys in *. simpl. rewrite H1. auto.
      * right. unfold Dict.keys in *. simpl. rewrite H1.
        split; [reflexivity|]. intros [H|H]; [congruence | tauto].
Qed.

Lemma dict_set_keys_inv : forall (V : Type) (P : string -> Prop) (d : Dict.t V) k v,
  NoDup (Dict.keys d) -> Forall P (Dict.keys d) -> P k ->
  NoDup (Dict.keys (Dict.set d k v)) /\ Forall P (Dict.keys (Dict.set d k v)).
Proof.
  intros V P d k v Hn Hf Hk.
  destruct (dict_set_keys V d k v) as [[H1 H2] | [H1 H2]]; rewrite H1.
  - auto.
  - split.
    + apply NoDup_app; auto.
      * constructor; [tauto | constructor].
      * intros x Hx [<-|[]]. tauto.
    + apply Forall_app. auto.
Qed.

(** X16: the dictionary [parse_params] builds never holds a key twice, and
    every key is in upper case (upper-casing it changes nothing): a
    parameter given in lower case is found under its upper-case name, and a
    repeated parameter keeps one entry. *)
Theorem parse_params_keys_upper_unique :
  forall param_string,
    NoDup (Dict.keys (Pre.parse_params param_string)) /\
    Forall (fun k => Py.upper k = k) (Dict.keys (Pre.parse_params param_string)).
Proof.
  intros s. unfold Pre.parse_params.
  destruct (negb (Pre.truthy s)).
  { split; constructor. }
  generalize (Pre.split_params s EmptyString false).
  assert (Hinit : NoDup (Dict.keys (@nil (string * string))) /\
                  Forall (fun k => Py.upper k = k) (Dict.keys (@nil (string * string))))
    by (split; constructor).
  revert Hinit. generalize (@nil (string * string)) as acc.
  intros acc Hacc l. revert acc Hacc.
  induction l as [|p l IH]; intros acc Hacc; [exact Hacc|].
  simpl. apply IH.
  destruct (Py.contains "=" p); [|exact Hacc].
  destruct (Py.split_once "=" p) as [|k [|v [|? ?]]]; try exact Hacc.
  destruct Hacc as [Hn Hf].
  apply dict_set_keys_inv; auto. apply upper_idem.
Qed.

Lemma take_length_le : forall n s, String.length (Py.take n s) <= n.
Proof.
  induction n as [|n IH]; intros [|c s]; simpl; try lia.
  specialize (IH s). lia.
Qed.

Lemma take_is_prefix : forall n s, exists r, s = Py.take n s ++ r.
Proof.
  induction n as [|n IH]; intros s.
  - exists s. destruct s; reflexivity.
  - destruct s as [|c s]; [exists EmptyString; reflexivity|].
    destruct (IH s) as [r Hr]. exists r. simpl. now rewrite <- Hr.
Qed.

Lemma rstrip_by_is_prefix : forall p s, exists r, s = Py.rstrip_by p s ++ r.
Proof.
  intros p. induction s as [|c s IH].
  - exists EmptyString. reflexivity.
  - destruct IH as [r Hr]. simpl.
    destruct (Py.rstrip_by p s) as [|d t] eqn:E.
    + destruct (p c).
      * exists (String c s). reflexivity.
      * exists r. simpl in *. now rewrite <- Hr.
    + exists r. simpl in *. now rewrite <- Hr.
Qed.

(** X17: a card that [clean_line] keeps is the beginning of the raw line,
    at most 72 characters long (columns 73 to 80 and the line end are cut
    off), and it is neither a comment card nor a delimiter card. *)
Theorem clean_line_keeps_leading_columns :
  forall line cleaned,
    Pre.clean_line line = Some cleaned ->
    String.length cleaned <= 72 /\
    (exists cut, line = cleaned ++ cut) /\
    Py.startswith cleaned "//*" = false /\
    Py.startswith cleaned "/*" = false.
Proof.
  intros line cleaned H. unfold Pre.clean_line in H.
  match type of H with (if ?b then _ else _) = _ => destruct b eqn:E end;
    [discriminate|].
  assert (Hc : Py.take 72 (Py.rstrip_by Pre.is_cr (Py.rstrip_by Pre.is_nl line))
               = cleaned) by congruence.
  clear H. subst cleaned.
  apply orb_false_iff in E. destruct E as [E _].
  apply orb_false_iff in E. destruct E as [E1 E2].
  split; [apply take_length_le|].
  split; [|split; assumption].
  destruct (rstrip_by_is_prefix Pre.is_nl line) as [r1 H1].
  destruct (rstrip_by_is_prefix Pre.is_cr (Py.rstrip_by Pre.is_nl line)) as [r2 H2].
  destruct (take_is_prefix 72 (Py.rstrip_by Pre.is_cr (Py.rstrip_by Pre.is_nl line)))
    as [r3 H3].
  exists (r3 ++ r2 ++ r1).
  rewrite H1 at 1. rewrite H2 at 1. rewrite H3 at 1.
  now rewrite !append_assoc.
Qed.

Lemma clean_line_keeps_leading_columns_witness :
  String.length "//STEP1 EXEC PGM=IEFBR14" <= 72 /\
  (exists cut, "//STEP1 EXEC PGM=IEFBR14" ++ Sample.nl
               = "//STEP1 EXEC PGM=IEFBR14" ++ cut) /\
  Py.startswith "//STEP1 EXEC PGM=IEFBR14" "//*" = false /\
  Py.startswith "//STEP1 EXEC PGM=IEFBR14" "/*" = false.
Proof.
  apply (clean_line_keeps_leading_columns
           ("//STEP1 EXEC PGM=IEFBR14" ++ Sample.nl) "//STEP1 EXEC PGM=IEFBR14").
  reflexivity.
Defined.

(** X18: a statement without an ampersand passes [apply_symbolics]
    unchanged, whatever the symbol table holds. *)
Theorem apply_symbolics_without_ampersand :
  forall tbl stmt,
    Py.find "&" stmt = None ->
    Sym.apply_symbolics tbl stmt = stmt.
Proof.
  intros tbl stmt H. apply apply_symbolics_fixed.
  unfold Spec.has_reference.
  destruct (existsb _ _) eqn:E; [|reflexivity].
  apply existsb_exists in E. destruct E as [sym [_ Hc]].
  unfold Py.contains in Hc.
  rewrite (find_none_app "&" sym stmt H) in Hc. discriminate.
Qed.

Lemma apply_symbolics_without_ampersand_witness :
  Sym.apply_symbolics [("HLQ", "PROD")] "//STEP1 EXEC PGM=IEFBR14"
  = "//STEP1 EXEC PGM=IEFBR14".
Proof.
  apply (apply_symbolics_without_ampersand [("HLQ", "PROD")]
           "//STEP1 EXEC PGM=IEFBR14").
  reflexivity.
Defined.

Section ResolvePath.
Variable cfg : Pre.Config.
Variable fs : Pre.FileSystem.

Lemma resolve_in_skip : forall member_name before rest,
  String.eqb (Pre.system_type cfg) "Z" = false ->
  (forall b, In b before -> Pre.truthy b = true ->
     Pre.path_exists fs (SpecX.candidate cfg b member_name) = false) ->
  Pre.resolve_in cfg fs (before ++ rest) member_name
  = Pre.resolve_in cfg fs rest member_name.
Proof.
  intros member_name before rest Hz. induction before as [|b before IH]; intros H.
  - reflexivity.
  - simpl. destruct (Pre.truthy b) eqn:T; simpl.
    + rewrite Hz.
      change (Pre.path_join b _) with (SpecX.candidate cfg b member_name).
      rewrite (H b (or_introl eq_refl) T). apply IH.
      intros b' Hin. apply H. now right.
    + apply IH. intros b' Hin. apply H. now right.
Qed.

Lemma resolve_in_skip_empty : forall member_name before rest,
  (forall b, In b before -> Pre.truthy b = false) ->
  Pre.resolve_in cfg fs (before ++ rest) member_name
  = Pre.resolve_in cfg fs rest member_name.
Proof.
  intros member_name before rest. induction before as [|b before IH]; intros H.
  - reflexivity.
  - simpl. rewrite (H b (or_introl eq_refl)). simpl. apply IH.
    intros b' Hin. apply H. now right.
Qed.

End ResolvePath.

(** X19: on a system other than z/OS, [resolve_path] returns the path in
    the first library of the search list, empty entries skipped, in which
    the member file exists; libraries behind it are not looked at. *)
Theorem resolve_path_first_existing :
  forall cfg fs st member_name before base after,
    String.eqb (Pre.system_type cfg) "Z" = false ->
    Pre.lib_paths st = (before ++ base :: after)%list ->
    (forall b, In b before -> Pre.truthy b = true ->
       Pre.path_exists fs (SpecX.candidate cfg b member_name) = false) ->
    Pre.truthy base = true ->
    Pre.path_exists fs (SpecX.candidate cfg base member_name) = true ->
    Pre.resolve_path cfg fs st member_name
    = Some (SpecX.candidate cfg base member_name).
Proof.
  intros cfg fs st member_name before base after Hz Hl Hb Ht He.
  unfold Pre.resolve_path. rewrite Hl.
  rewrite (resolve_in_skip cfg fs member_name before (base :: after) Hz Hb).
  simpl. rewrite Ht, Hz. simpl.
  change (Pre.path_join base _) with (SpecX.candidate cfg base member_name).
  now rewrite He.
Qed.

Lemma resolve_path_first_existing_witness :
  Pre.resolve_path Sample.cfg Sample.one_member
    {| Pre.heap := [[]]; Pre.symbol_table := 0; Pre.procedure_map := [];
       Pre.lib_paths := (["/usr"; EmptyString] ++ "/jcl" :: ["/other"])%list |} "M"
  = Some (SpecX.candidate Sample.cfg "/jcl" "M").
Proof.
  apply (resolve_path_first_existing Sample.cfg Sample.one_member
           {| Pre.heap := [[]]; Pre.symbol_table := 0; Pre.procedure_map := [];
              Pre.lib_paths := (["/usr"; EmptyString] ++ "/jcl" :: ["/other"])%list |}
           "M" ["/usr"; EmptyString] "/jcl" ["/other"]).
  - reflexivity.
  - reflexivity.
  - intros b [<-|[<-|[]]] _; reflexivity.
  - reflexivity.
  - reflexivity.
Defined.

(** X20: on a system other than z/OS, [resolve_path] returns [None]
    exactly when the member file exists in no non-empty library of the
    search list. *)
Theorem resolve_path_none_iff_missing :
  forall cfg fs st member_name,
    String.eqb (Pre.system_type cfg) "Z" = false ->
    (Pre.resolve_path cfg fs st member_name = None <->
     forall b, In b (Pre.lib_paths st) -> Pre.truthy b = true ->
       Pre.path_exists fs (SpecX.candidate cfg b member_name) = false).
Proof.
  intros cfg fs st member_name Hz. unfold Pre.resolve_path.
  induction (Pre.lib_paths st) as [|b l IH].
  - simpl. split; [intros _ b [] | reflexivity].
  - simpl. destruct (Pre.truthy b) eqn:T; simpl.
    + rewrite Hz.
      change (Pre.path_join b _) with (SpecX.candidate cfg b member_name).
      destruct (Pre.path_exists fs (SpecX.candidate cfg b member_name)) eqn:E.
      * split; [discriminate|]. intros H.
        specialize (H b (or_introl eq_refl) T). congruence.
      * rewrite IH. split.
        -- intros H b' [<-|Hin] Hb'; [exact E | now apply H].
        -- intros H b' Hin. apply H. now right.
    + rewrite IH. split.
      * intros H b' [<-|Hin] Hb'; [congruence | now apply H].
      * intros H b' Hin. apply H. now right.
Qed.

Lemma resolve_path_none_iff_missing_witness :
  Pre.resolve_path Sample.cfg Sample.no_files Sample.scoped_state "M" = None <->
  forall b, In b (Pre.lib_paths Sample.scoped_state) -> Pre.truthy b = true ->
    Pre.path_exists Sample.no_files (SpecX.candidate Sample.cfg b "M") = false.
Proof.
  apply (resolve_path_none_iff_missing Sample.cfg Sample.no_files
           Sample.scoped_state "M").
  reflexivity.
Defined.

(** X21: on z/OS ([SYSTEM] = Z), [resolve_path] never asks whether the
    member exists: it answers with the member of the first non-empty
    library of the search list, whatever the file system holds. *)
Theorem resolve_path_zos_takes_first_library :
  forall cfg fs st member_name before base after,
    String.eqb (Pre.system_type cfg) "Z" = true ->
    Pre.lib_paths st = (before ++ base :: after)%list ->
    (forall b, In b before -> Pre.truthy b = false) ->
    Pre.truthy base = true ->
    Pre.resolve_path cfg fs st member_name
    = Some (base ++ "(" ++ member_name ++ ")").
Proof.
  intros cfg fs st member_name before base after Hz Hl Hb Ht.
  unfold Pre.resolve_path. rewrite Hl.
  rewrite (resolve_in_skip_empty cfg fs member_name before (base :: after) Hb).
  simpl. rewrite Ht, Hz. reflexivity.
Qed.

Lemma resolve_path_zos_takes_first_library_witness :
  Pre.resolve_path (Pre.mk_config "Z" EmptyString None ["SYS1.PROCLIB"])
    Sample.no_files
    {| Pre.heap := [[]]; Pre.symbol_table := 0; Pre.procedure_map := [];
       Pre.lib_paths := ([EmptyString] ++ "SYS1.PROCLIB" :: ["USER.PROCLIB"])%list |}
    "MYPROC"
  = Some ("SYS1.PROCLIB" ++ "(" ++ "MYPROC" ++ ")").
Proof.
  apply (resolve_path_zos_takes_first_library
           (Pre.mk_config "Z" EmptyString None ["SYS1.PROCLIB"]) Sample.no_files
           {| Pre.heap := [[]]; Pre.symbol_table := 0; Pre.procedure_map := [];
              Pre.lib_paths := ([EmptyString] ++ "SYS1.PROCLIB" :: ["USER.PROCLIB"])%list |}
           "MYPROC" [EmptyString] "SYS1.PROCLIB" ["USER.PROCLIB"]).
  - reflexivity.
  - reflexivity.
  - intros b [<-|[]]. reflexivity.
  - reflexivity.
Defined.

Lemma capture_proc_body_cons : forall p_line_raw rest,
  Pre.capture_proc_body (p_line_raw :: rest)
  = if SpecX.is_pend p_line_raw then ([], rest)
    else let (body, rest') := Pre.capture_proc_body rest in
         (p_line_raw :: body, rest').
Proof. reflexivity. Qed.

(** X22: the capture of a PROC body splits the deck at the first PEND
    card: the body is every raw card before it, none of them a PEND card;
    the PEND card itself is consumed and what follows it is left for the
    caller.  Without a PEND card the body is the whole remaining deck. *)
Theorem capture_proc_body_splits_at_first_pend :
  forall lines,
    let (body, rest) := Pre.capture_proc_body lines in
    Forall (fun l => SpecX.is_pend l = false) body /\
    ((lines = body /\ rest = []) \/
     exists pend, SpecX.is_pend pend = true /\
                  lines = (body ++ pend :: rest)%list).
Proof.
  induction lines as [|l lines IH].
  - simpl. split; [constructor | left; split; reflexivity].
  - rewrite capture_proc_body_cons.
    destruct (SpecX.is_pend l) eqn:E.
    + split; [constructor|]. right. exists l. split; [exact E | reflexivity].
    + destruct (Pre.capture_proc_body lines) as [body rest].
      destruct IH as [Hf [[H1 H2] | [pend [H1 H2]]]].
      * split; [constructor; assumption|]. left. subst. split; reflexivity.
      * split; [constructor; assumption|]. right. exists pend.
        split; [exact H1|]. rewrite H2. reflexivity.
Qed.

(* ================================================================== *)
(** ** Further properties: what a run of the preprocessor keeps *)
(* ================================================================== *)

Lemma grows_refl : forall st, SpecX.grows st st.
Proof. intros st. split; [exists []; reflexivity | auto]. Qed.

Lemma grows_trans : forall a b c,
  SpecX.grows a b -> SpecX.grows b c -> SpecX.grows a c.
Proof.
  intros a b c [[x Hx] Hp] [[y Hy] Hq]. split.
  - exists (y ++ x)%list. rewrite Hy, Hx. now rewrite app_assoc.
  - auto.
Qed.

Lemma grows_same : forall st st',
  Pre.lib_paths st' = Pre.lib_paths st ->
  Pre.procedure_map st' = Pre.procedure_map st ->
  SpecX.grows st st'.
Proof.
  intros st st' Hl Hp. split.
  - exists []. exact Hl.
  - intros name. now rewrite Hp.
Qed.

Lemma growing_ret : forall (A : Type) (a : A), SpecX.growing (Pre.ret a).
Proof. intros A a st st' o H. inversion H; subst. apply grows_refl. Qed.

Lemma growing_raise : forall (A : Type), SpecX.growing (@Pre.raise A).
Proof. intros A st st' o H. inversion H; subst. apply grows_refl. Qed.

Lemma growing_diverge : forall (A : Type), SpecX.growing (@Pre.diverge A).
Proof. intros A st st' o H. inversion H; subst. apply grows_refl. Qed.

Lemma growing_get : SpecX.growing Pre.get.
Proof. intros st st' o H. inversion H; subst. apply grows_refl. Qed.

Lemma growing_bind : forall (A B : Type) (c : Pre.M A) (f : A -> Pre.M B),
  SpecX.growing c -> (forall a, SpecX.growing (f a)) ->
  SpecX.growing (Pre.bind c f).
Proof.
  intros A B c f Hc Hf st st' o H. unfold Pre.bind in H.
  destruct (c st) as [st1 [a| |]] eqn:E.
  - eapply grows_trans; [eapply Hc; exact E | eapply Hf; exact H].
  - inversion H; subst. eapply Hc; eauto.
  - inversion H; subst. eapply Hc; eauto.
Qed.

Lemma growing_try_except : forall (A : Type) (c h : Pre.M A),
  SpecX.growing c -> SpecX.growing h -> SpecX.growing (Pre.try_except c h).
Proof.
  intros A c h Hc Hh st st' o H. unfold Pre.try_except in H.
  destruct (c st) as [st1 [a| |]] eqn:E.
  - inversion H; subst. eapply Hc; eauto.
  - eapply grows_trans; [eapply Hc; exact E | eapply Hh; exact H].
  - inversion H; subst. eapply Hc; eauto.
Qed.

Lemma growing_modify : forall f,
  (forall st, SpecX.grows st (f st)) -> SpecX.growing (Pre.modify f).
Proof. intros f Hf st st' o H. inversion H; subst. apply Hf. Qed.

Lemma dict_mem_set : forall (V : Type) (d : Dict.t V) k v name,
  Dict.mem d name = true -> Dict.mem (Dict.set d k v) name = true.
Proof.
  unfold Dict.mem. induction d as [|[k' v'] d IH]; intros k v name H.
  - discriminate.
  - simpl in *. destruct (String.eqb k k') eqn:E.
    + simpl. destruct (String.eqb name k'); [reflexivity | exact H].
    + simpl. destruct (String.eqb name k'); [reflexivity | now apply IH].
Qed.

Lemma grows_update_symbols : forall st stmt,
  SpecX.grows st (Pre.update_symbols st stmt).
Proof.
  intros st stmt. unfold Pre.update_symbols.
  destruct (Re.search Pre.re_set stmt) as [m|]; [|apply grows_refl].
  destruct (Re.group m 1); [|apply grows_refl].
  destruct (Re.group m 2); [|apply grows_refl].
  apply grows_same; reflexivity.
Qed.

Lemma grows_update_lib_paths : forall st stmt,
  SpecX.grows st (Pre.update_lib_paths st stmt).
Proof.
  intros st stmt. unfold Pre.update_lib_paths.
  destruct (Re.search Pre.re_order stmt) as [m|]; [|apply grows_refl].
  destruct (Re.group m 1); [|apply grows_refl].
  split; [eexists; reflexivity | auto].
Qed.

Lemma grows_set_procedure : forall st name v,
  SpecX.grows st (Pre.set_procedure_map st
                    (Dict.set (Pre.procedure_map st) name v)).
Proof.
  intros st name v. split; [exists []; reflexivity|].
  intros n H. simpl. now apply dict_mem_set.
Qed.

Section LoopGrowing.
Variable cfg : Pre.Config.
Variable fs : Pre.FileSystem.
Variable rec : list string -> Pre.M (list string).
Hypothesis rec_growing : forall lines, SpecX.growing (rec lines).

Ltac growing_step IH :=
  match goal with
  | |- SpecX.growing (Pre.bind _ _) => apply growing_bind; [| intros ?]
  | |- SpecX.growing (Pre.try_except _ _) => apply growing_try_except
  | |- SpecX.growing (Pre.ret _) => apply growing_ret
  | |- SpecX.growing Pre.raise => apply growing_raise
  | |- SpecX.growing Pre.get => apply growing_get
  | |- SpecX.growing (Pre.update_object _ _) =>
      apply growing_modify; intros; apply grows_same; reflexivity
  | |- SpecX.growing (Pre.modify (fun st => Pre.set_symbol_table st _)) =>
      apply growing_modify; intros; apply grows_same; reflexivity
  | |- SpecX.growing (Pre.modify (fun st => Pre.update_symbols st _)) =>
      apply growing_modify; intros; apply grows_update_symbols
  | |- SpecX.growing (Pre.modify (fun st => Pre.update_lib_paths st _)) =>
      apply growing_modify; intros; apply grows_update_lib_paths
  | |- SpecX.growing (Pre.modify _) =>
      apply growing_modify; intros; apply grows_set_procedure
  | |- SpecX.growing (rec _) => apply rec_growing
  | |- SpecX.growing (Pre.line_loop _ _ _ _ _ _ _ _) => apply IH
  | |- SpecX.growing (if ?b then _ else _) => destruct b
  | |- SpecX.growing (match ?x with _ => _ end) => destruct x
  | |- SpecX.growing (let (_, _) := ?x in _) => destruct x
  end.

Lemma growing_alloc :
  SpecX.growing
    (fun st => let (st', r) := Pre.alloc st (Pre.deref st (Pre.symbol_table st)) in
               (st', Pre.Ok r)).
Proof.
  intros st st' o H. simpl in H. inversion H; subst.
  apply grows_same; reflexivity.
Qed.

Lemma expand_procedure_growing : forall proc_name exec_stmt outer_label,
  SpecX.growing (Pre.expand_procedure cfg fs rec proc_name exec_stmt outer_label).
Proof.
  intros. unfold Pre.expand_procedure.
  apply growing_bind; [apply growing_get | intros st0].
  destruct (Pre.load_procedure cfg fs st0 proc_name) as [[header body]|];
    [|apply growing_ret].
  apply growing_bind; [apply growing_alloc | intros r].
  repeat growing_step rec_growing.
Qed.

Lemma preprocess_file_growing : forall file_path,
  SpecX.growing (Pre.preprocess_file fs rec file_path).
Proof.
  intros. unfold Pre.preprocess_file.
  repeat growing_step rec_growing.
Qed.

Lemma line_loop_growing : forall k lines cur cont acc,
  SpecX.growing (Pre.line_loop cfg fs rec k lines cur cont acc).
Proof.
  induction k as [|k IH]; intros lines cur cont acc.
  - destruct lines; apply growing_ret.
  - destruct lines as [|line_raw rest]; [apply growing_ret|].
    cbn [Pre.line_loop].
    repeat
      match goal with
      | |- SpecX.growing (Pre.expand_procedure _ _ _ _ _ _) =>
          apply expand_procedure_growing
      | |- SpecX.growing (Pre.preprocess_file _ _ _) =>
          apply preprocess_file_growing
      | _ => growing_step IH
      end.
Qed.

Lemma line_loop_never_completes : forall lines k cur cont acc st,
  SpecX.never_completes lines cont = true ->
  Pre.line_loop cfg fs rec k lines cur cont acc st = (st, Pre.Ok acc).
Proof.
  induction lines as [|line_raw rest IH]; intros k cur cont acc st H.
  - destruct k; reflexivity.
  - destruct k as [|k]; [reflexivity|].
    cbn [Pre.line_loop]. cbn [SpecX.never_completes] in H.
    destruct (Pre.clean_line line_raw) as [line|]; [|now apply IH].
    apply andb_true_iff in H. destruct H as [H1 H2].
    rewrite H1. now apply IH.
Qed.

End LoopGrowing.

(** X23: whatever a run of [process_line_list] does -- also when it ends
    with an exception or runs out of its recursion budget --, the library
    search list is only extended at its front (JCLLIB never removes or
    reorders a library already configured), and no procedure captured
    before the run is forgotten. *)
Theorem process_line_list_keeps_libraries_and_procedures :
  forall cfg fs fuel lines st st' o,
    Pre.process_line_list cfg fs fuel lines st = (st', o) ->
    (exists added, Pre.lib_paths st' = (added ++ Pre.lib_paths st)%list) /\
    (forall name, Dict.mem (Pre.procedure_map st) name = true ->
                  Dict.mem (Pre.procedure_map st') name = true).
Proof.
  intros cfg fs fuel. induction fuel as [|n IH]; intros lines st st' o H.
  - inversion H; subst. apply grows_refl.
  - simpl in H. exact (line_loop_growing cfg fs _ IH _ _ _ _ _ _ _ _ H).
Qed.

Lemma process_line_list_keeps_libraries_and_procedures_witness :
  (exists added,
     Pre.lib_paths
       (fst (Pre.process_line_list Sample.cfg Sample.one_member 3
               Sample.aborting_deck Sample.scoped_state))
     = (added ++ Pre.lib_paths Sample.scoped_state)%list) /\
  (forall name,
     Dict.mem (Pre.procedure_map Sample.scoped_state) name = true ->
     Dict.mem
       (Pre.procedure_map
          (fst (Pre.process_line_list Sample.cfg Sample.one_member 3
                  Sample.aborting_deck Sample.scoped_state))) name = true).
Proof.
  apply (process_line_list_keeps_libraries_and_procedures
           Sample.cfg Sample.one_member 3 Sample.aborting_deck
           Sample.scoped_state
           (fst (Pre.process_line_list Sample.cfg Sample.one_member 3
                   Sample.aborting_deck Sample.scoped_state))
           (snd (Pre.process_line_list Sample.cfg Sample.one_member 3
                   Sample.aborting_deck Sample.scoped_state))).
  apply surjective_pairing.
Defined.

(** X24: a deck in which every card is a comment or leaves its statement
    open -- the content ends with a comma, up to the last card -- yields no
    statement at all: the text collected for the unfinished statement is
    dropped without an error, and the state is untouched.  The empty deck
    and a deck of comment cards are instances. *)
Theorem unfinished_statement_is_dropped :
  forall cfg fs fuel lines st,
    SpecX.never_completes lines false = true ->
    Pre.process_line_list cfg fs (S fuel) lines st = (st, Pre.Ok []).
Proof.
  intros cfg fs fuel lines st H. simpl.
  now apply line_loop_never_completes.
Qed.

Lemma unfinished_statement_is_dropped_witness :
  Pre.process_line_list Sample.cfg Sample.no_files 1
    ["//* A COMMENT" ++ Sample.nl;
     "//STEP1 EXEC PGM=IEFBR14," ++ Sample.nl;
     "//   PARM=ABC," ++ Sample.nl]
    Sample.scoped_state
  = (Sample.scoped_state, Pre.Ok []).
Proof.
  apply (unfinished_statement_is_dropped Sample.cfg Sample.no_files 0
           ["//* A COMMENT" ++ Sample.nl;
            "//STEP1 EXEC PGM=IEFBR14," ++ Sample.nl;
            "//   PARM=ABC," ++ Sample.nl]
           Sample.scoped_state).
  vm_compute. reflexivity.
Defined.

(* ================================================================== *)
(** ** Further properties: resolving a symbol reference *)
(* ================================================================== *)

Lemma find_amp_cons : forall c s,
  Py.find "&" (String c s) = None -> c <> "&"%char /\ Py.find "&" s = None.
Proof.
  intros c s H. rewrite find_cons in H. cbn [String.prefix] in H.
  destruct (ascii_dec "&" c) as [E|E].
  - rewrite prefix_nil in H. discriminate.
  - split; [congruence|]. destruct (Py.find "&" s); [discriminate | reflexivity].
Qed.

Lemma find_amp_app : forall a b,
  Py.find "&" a = None -> Py.find "&" b = None -> Py.find "&" (a ++ b) = None.
Proof.
  induction a as [|c a IH]; intros b Ha Hb; [exact Hb|].
  destruct (find_amp_cons c a Ha) as [Hc Ha'].
  change (String c a ++ b) with (String c (a ++ b)).
  rewrite find_cons. cbn [String.prefix].
  destruct (ascii_dec "&" c); [congruence|].
  now rewrite (IH b Ha' Hb).
Qed.

Lemma prefix_app_cancel : forall a b c,
  String.prefix (a ++ b) (a ++ c) = String.prefix b c.
Proof.
  induction a as [|x a IH]; intros b c; [reflexivity|].
  simpl. destruct (ascii_dec x x); [apply IH | congruence].
Qed.

(** The only ampersand of [pre ++ "&" ++ rest] is the one shown: a text
    that starts with an ampersand occurs there or nowhere. *)
Lemma find_amp_pattern : forall o pre rest,
  Py.find "&" pre = None -> Py.find "&" rest = None ->
  Py.find (String "&" o) (pre ++ String "&" rest)
  = if String.prefix o rest then Some (String.length pre) else None.
Proof.
  intros o. induction pre as [|c pre IH]; intros rest Hp Hr.
  - change (EmptyString ++ String "&" rest) with (String "&" rest).
    rewrite find_cons. cbn [String.prefix].
    destruct (ascii_dec "&" "&"); [|congruence].
    destruct (String.prefix o rest); [reflexivity|].
    assert (F : Py.find (String "&" o) rest = None)
      by exact (find_none_app "&" o rest Hr).
    now rewrite F.
  - destruct (find_amp_cons c pre Hp) as [Hc Hp'].
    change (String c pre ++ String "&" rest) with (String c (pre ++ String "&" rest)).
    rewrite find_cons. cbn [String.prefix].
    destruct (ascii_dec "&" c); [congruence|].
    rewrite (IH rest Hp' Hr).
    destruct (String.prefix o rest); reflexivity.
Qed.

Lemma take_app_length : forall a b, Py.take (String.length a) (a ++ b) = a.
Proof.
  induction a as [|c a IH]; intros b; simpl.
  - destruct b; reflexivity.
  - now rewrite IH.
Qed.

Lemma drop_app_length : forall a b, Py.drop (String.length a) (a ++ b) = b.
Proof.
  induction a as [|c a IH]; intros b; simpl.
  - destruct b; reflexivity.
  - apply IH.
Qed.

Lemma replace_amp_absent : forall o new s,
  Py.find "&" s = None -> Py.replace (String "&" o) new s = s.
Proof.
  intros o new s H. apply replace_no_occurrence; [discriminate|].
  exact (find_none_app "&" o s H).
Qed.

Lemma replace_amp_elsewhere : forall o new pre rest,
  Py.find "&" pre = None -> Py.find "&" rest = None ->
  String.prefix o rest = false ->
  Py.replace (String "&" o) new (pre ++ String "&" rest) = pre ++ String "&" rest.
Proof.
  intros o new pre rest Hp Hr Ho.
  apply replace_no_occurrence; [discriminate|].
  now rewrite find_amp_pattern, Ho.
Qed.

Lemma replace_amp_here : forall o new pre post,
  Py.find "&" pre = None -> Py.find "&" o = None -> Py.find "&" post = None ->
  Py.replace (String "&" o) new (pre ++ String "&" (o ++ post))
  = pre ++ new ++ post.
Proof.
  intros o new pre post Hp Ho Hq.
  rewrite (replace_leftmost (String "&" o) new _ (String.length pre)).
  - rewrite take_app_length.
    replace (pre ++ String "&" (o ++ post))
      with ((pre ++ String "&" o) ++ post)
      by (rewrite append_assoc; reflexivity).
    replace (String.length pre + String.length (String "&" o))
      with (String.length (pre ++ String "&" o))
      by (rewrite length_append; reflexivity).
    rewrite drop_app_length, (replace_amp_absent o new post Hq).
    reflexivity.
  - discriminate.
  - rewrite find_amp_pattern; [| exact Hp | now apply find_amp_app].
    now rewrite <- (append_nil_r o) at 1; rewrite prefix_app_cancel, prefix_nil.
Qed.

Lemma apply_symbolics_single : forall name val stmt,
  Sym.apply_symbolics [(name, val)] stmt = Sym.subst_one name val stmt.
Proof.
  intros. unfold Sym.apply_symbolics, Sym.value_of. simpl.
  now rewrite String.eqb_refl.
Qed.

Lemma prefix_dot_false : forall b post,
  String.prefix "." post = false -> String.prefix (String "." b) post = false.
Proof.
  intros b post H. destruct (String.prefix (String "." b) post) eqn:E; [|reflexivity].
  apply (prefix_app_true "." b post) in E. congruence.
Qed.

(** X25: with one symbol in the table, a reference to it is resolved in
    each of its three forms: [&NAME] becomes the value, [&NAME.] becomes
    the value and the period is consumed, [&NAME..] becomes the value
    followed by one period.  The text around the reference, the name and
    the value are free of ampersands; in the first two forms the text
    behind the reference does not start with a period. *)
Theorem apply_symbolics_resolves_reference :
  forall name val pre post,
    Py.find "&" name = None -> Py.find "&" val = None ->
    Py.find "&" pre = None -> Py.find "&" post = None ->
    (Py.startswith post "." = false ->
     Sym.apply_symbolics [(name, val)] (pre ++ "&" ++ name ++ post)
     = pre ++ val ++ post) /\
    (Py.startswith post "." = false ->
     Sym.apply_symbolics [(name, val)] (pre ++ "&" ++ name ++ "." ++ post)
     = pre ++ val ++ post) /\
    Sym.apply_symbolics [(name, val)] (pre ++ "&" ++ name ++ ".." ++ post)
    = pre ++ val ++ "." ++ post.
Proof.
  intros name val pre post Hn Hv Hp Hq.
  assert (Hdot : forall s, Py.find "&" s = None -> Py.find "&" ("." ++ s) = None).
  { intros s Hs. apply find_amp_app; [reflexivity | exact Hs]. }
  rewrite !apply_symbolics_single. unfold Sym.subst_one, Py.startswith.
  change ("&" ++ name) with (String "&" name).
  change ("&" ++ name ++ ".") with (String "&" (name ++ ".")).
  change ("&" ++ name ++ "..") with (String "&" (name ++ "..")).
  split; [|split].
  - intros Hs.
    change (pre ++ "&" ++ name ++ post) with (pre ++ String "&" (name ++ post)).
    rewrite (replace_amp_elsewhere (name ++ "..")), (replace_amp_elsewhere (name ++ "."));
      try assumption; try (now apply find_amp_app);
      try (rewrite prefix_app_cancel; now apply prefix_dot_false).
    now apply replace_amp_here.
  - intros Hs.
    change (pre ++ "&" ++ name ++ "." ++ post)
      with (pre ++ String "&" (name ++ "." ++ post)).
    rewrite (replace_amp_elsewhere (name ++ ".."));
      try assumption; try (apply find_amp_app; [assumption | now apply Hdot]).
    + replace (name ++ "." ++ post) with ((name ++ ".") ++ post)
        by (rewrite append_assoc; reflexivity).
      rewrite (replace_amp_here (name ++ ".") val pre post);
        try assumption; try (now apply find_amp_app).
      apply replace_amp_absent.
      apply find_amp_app; [assumption | now apply find_amp_app].
    + rewrite prefix_app_cancel. cbn [String.prefix].
      destruct (ascii_dec "." "."); [exact Hs | congruence].
  - change (pre ++ "&" ++ name ++ ".." ++ post)
      with (pre ++ String "&" (name ++ ".." ++ post)).
    replace (name ++ ".." ++ post) with ((name ++ "..") ++ post)
      by (rewrite append_assoc; reflexivity).
    rewrite (replace_amp_here (name ++ "..") (val ++ ".") pre post);
      try assumption; try (now apply find_amp_app).
    assert (F : Py.find "&" (pre ++ (val ++ ".") ++ post) = None).
    { apply find_amp_app; [assumption|].
      apply find_amp_app; [|assumption].
      apply find_amp_app; [assumption | reflexivity]. }
    rewrite (replace_amp_absent (name ++ ".") val _ F).
    rewrite (replace_amp_absent name val _ F).
    now rewrite append_assoc.
Qed.

Lemma apply_symbolics_resolves_reference_witness :
  (Py.startswith ",DISP=SHR" "." = false ->
   Sym.apply_symbolics [("HLQ", "PROD")] ("//IN DD DSN=" ++ "&" ++ "HLQ" ++ ",DISP=SHR")
   = "//IN DD DSN=" ++ "PROD" ++ ",DISP=SHR") /\
  (Py.startswith ",DISP=SHR" "." = false ->
   Sym.apply_symbolics [("HLQ", "PROD")]
     ("//IN DD DSN=" ++ "&" ++ "HLQ" ++ "." ++ ",DISP=SHR")
   = "//IN DD DSN=" ++ "PROD" ++ ",DISP=SHR") /\
  Sym.apply_symbolics [("HLQ", "PROD")]
    ("//IN DD DSN=" ++ "&" ++ "HLQ" ++ ".." ++ ",DISP=SHR")
  = "//IN DD DSN=" ++ "PROD" ++ "." ++ ",DISP=SHR".
Proof.
  apply (apply_symbolics_resolves_reference "HLQ" "PROD" "//IN DD DSN=" ",DISP=SHR");
    reflexivity.
Defined.
